(** * LuatPlayground: the template-cache-and-render bridge

    A shallow embedding of [src/components/LuatPlayground/index.js]:
    the module loader ([loadLuatModule] and its two singletons), the bridge
    object it builds ([addTemplate], [clearTemplates], [renderWithError]),
    and the component's [getInitialFiles], [getFilesHash], [runCode] and
    [reset], the update listener of its editor, what its output pane
    shows, and the formatter [formatHtml] of its HTML view.

    The WebAssembly engine is not part of the repository: it is a parameter
    ([Emscripten]) giving, for every foreign entry point, the status or
    handle it returns and the memory it leaves; a foreign call always
    returns.  Every foreign call is recorded in the instance's [trace].
    [JSON.parse], [formatTime] and the readings of [performance.now()] are
    parameters as well; durations are differences of readings, taken in
    whole clock units.

    The page is single-threaded: an event handler, a promise callback or
    an effect runs to its end before the next one starts, so an execution
    is a sequence of [Action]s.

    The editor is a library of its own: of an editor view the model keeps
    the text of its document ([state.doc.toString()]), in which the line
    breaks of a text handed to the editor are all [\n] ([doc_text]). *)

From Stdlib Require Import ZArith Ascii.
From stdpp Require Import base tactics option list strings pretty.

Local Open Scope Z_scope.

(** ** Virtual files *)

Record VirtualFile := { name : string; code : string }.

Definition main_luat (c : string) : VirtualFile :=
  {| name := "main.luat"; code := c |}.

(** [getInitialFiles]: the [files] prop when it is not empty, else the
    [code] prop wrapped as main.luat, else an empty main.luat. *)
Definition getInitialFiles (initialCode : string)
    (initialFiles : list VirtualFile) : list VirtualFile :=
  if (0 <? length initialFiles)%nat then initialFiles
  else if negb (String.eqb initialCode "") then [main_luat initialCode]
  else [main_luat ""].

(** [getFilesHash]: [files.map(f => `${f.name}:${f.code}`).join('|')]. *)
Definition getFilesHash (files : list VirtualFile) : string :=
  String.concat "|" (map (λ f, name f +:+ ":" +:+ code f) files).

(** [lastCompiledRef.current !== currentHash]; [None] is [null]. *)
Definition strict_ne (last : option string) (h : string) : bool :=
  match last with
  | Some l => negb (String.eqb l h)
  | None => true
  end.

(** The joined string of a list with one distinguished element: what comes
    before it and what comes after it do not depend on the element. *)
Definition join_before (pre : list string) : string :=
  fold_right (λ s acc, s +:+ "|" +:+ acc) "" pre.

Definition join_after (post : list string) : string :=
  fold_right (λ s acc, "|" +:+ s +:+ acc) "" post.

(** ** The engine behind the foreign boundary *)

(** The Emscripten module instance: its memory, and for each exported
    function the value it returns and the memory it leaves.  Status codes
    and pointers are the [number]s [ccall] returns. *)
Record Emscripten := {
  memory : Type;
  boot : memory;
  luat_init : memory → Z * memory;
  luat_add_template : string → string → memory → Z * memory;
  luat_clear_templates : memory → Z * memory;
  luat_render_with_error : string → string → memory → Z * memory;
  UTF8ToString : Z → memory → string;
  _luat_free_string : Z → memory → memory;
}.

(** One entry per call that crosses the boundary, oldest first, with what
    the call returned. *)
Inductive Event :=
  | ccall_init (status : Z)
  | ccall_add_template (path source : string) (status : Z)
  | ccall_clear_templates (status : Z)
  | ccall_render_with_error (entry contextJson : string) (resultPtr : Z)
  | call_UTF8ToString (ptr : Z) (text : string)
  | call_free_string (ptr : Z).

Definition is_registry_call (e : Event) : bool :=
  match e with
  | ccall_add_template _ _ _ | ccall_clear_templates _ => true
  | _ => false
  end.

Definition is_render_call (e : Event) : bool :=
  match e with ccall_render_with_error _ _ _ => true | _ => false end.

Definition is_free_of (p : Z) (e : Event) : bool :=
  match e with call_free_string q => Z.eqb p q | _ => false end.

Definition is_init_call (e : Event) : bool :=
  match e with ccall_init _ => true | _ => false end.

Definition is_free_call (e : Event) : bool :=
  match e with call_free_string _ => true | _ => false end.

Definition count_calls (f : Event → bool) (t : list Event) : nat :=
  length (List.filter f t).

(** In a trace, no render comes before an init that returned zero
    ([inited]: such an init has been seen). *)
Fixpoint render_after_init (inited : bool) (t : list Event) : bool :=
  match t with
  | [] => true
  | ccall_init status :: t => render_after_init (inited || (status =? 0)) t
  | ccall_render_with_error _ _ _ :: t => inited && render_after_init inited t
  | _ :: t => render_after_init inited t
  end.

(** ** Values shown by the component *)

Module Result.
(** The parsed result of a render: [{ success, html, error }]. *)
Record t := { success : bool; html : option string; error : option string }.
End Result.

(** A duration in clock units, or the [Infinity] of an empty [Math.min]. *)
Inductive Number := Num (z : Z) | Infinity.

Definition Math_min (samples : list Z) : Number :=
  fold_right (λ s acc, match acc with
                       | Num m => Num (Z.min s m)
                       | Infinity => Num s
                       end) Infinity samples.

Record Props := {
  initialCode : string;
  initialFiles : list VirtualFile;
  autoRun : bool;
}.

(** The component's state: its [useState] cells, the refs it reads in
    [runCode] and [reset], and the document of the editor view ([None]
    while no view exists). *)
Record State := {
  files : list VirtualFile;
  activeTab : nat;
  output : option string;
  error : option string;
  loading : bool;
  luat : option nat;
  compileTime : option string;
  renderTime : option string;
  cached : bool;
  lastCompiledRef : option string;
  editorView : option string;
}.

Definition setFiles v s := {| files := v; activeTab := activeTab s;
  output := output s; error := error s; loading := loading s; luat := luat s;
  compileTime := compileTime s; renderTime := renderTime s;
  cached := cached s; lastCompiledRef := lastCompiledRef s;
  editorView := editorView s |}.
Definition setActiveTab v s := {| files := files s; activeTab := v;
  output := output s; error := error s; loading := loading s; luat := luat s;
  compileTime := compileTime s; renderTime := renderTime s;
  cached := cached s; lastCompiledRef := lastCompiledRef s;
  editorView := editorView s |}.
Definition setOutput v s := {| files := files s; activeTab := activeTab s;
  output := v; error := error s; loading := loading s; luat := luat s;
  compileTime := compileTime s; renderTime := renderTime s;
  cached := cached s; lastCompiledRef := lastCompiledRef s;
  editorView := editorView s |}.
Definition setError v s := {| files := files s; activeTab := activeTab s;
  output := output s; error := v; loading := loading s; luat := luat s;
  compileTime := compileTime s; renderTime := renderTime s;
  cached := cached s; lastCompiledRef := lastCompiledRef s;
  editorView := editorView s |}.
Definition setLoading v s := {| files := files s; activeTab := activeTab s;
  output := output s; error := error s; loading := v; luat := luat s;
  compileTime := compileTime s; renderTime := renderTime s;
  cached := cached s; lastCompiledRef := lastCompiledRef s;
  editorView := editorView s |}.
Definition setLuat v s := {| files := files s; activeTab := activeTab s;
  output := output s; error := error s; loading := loading s; luat := v;
  compileTime := compileTime s; renderTime := renderTime s;
  cached := cached s; lastCompiledRef := lastCompiledRef s;
  editorView := editorView s |}.
Definition setCompileTime v s := {| files := files s; activeTab := activeTab s;
  output := output s; error := error s; loading := loading s; luat := luat s;
  compileTime := v; renderTime := renderTime s;
  cached := cached s; lastCompiledRef := lastCompiledRef s;
  editorView := editorView s |}.
Definition setRenderTime v s := {| files := files s; activeTab := activeTab s;
  output := output s; error := error s; loading := loading s; luat := luat s;
  compileTime := compileTime s; renderTime := v;
  cached := cached s; lastCompiledRef := lastCompiledRef s;
  editorView := editorView s |}.
Definition setCached v s := {| files := files s; activeTab := activeTab s;
  output := output s; error := error s; loading := loading s; luat := luat s;
  compileTime := compileTime s; renderTime := renderTime s;
  cached := v; lastCompiledRef := lastCompiledRef s;
  editorView := editorView s |}.
Definition setLastCompiled v s := {| files := files s; activeTab := activeTab s;
  output := output s; error := error s; loading := loading s; luat := luat s;
  compileTime := compileTime s; renderTime := renderTime s;
  cached := cached s; lastCompiledRef := v;
  editorView := editorView s |}.
Definition setEditorView v s := {| files := files s; activeTab := activeTab s;
  output := output s; error := error s; loading := loading s; luat := luat s;
  compileTime := compileTime s; renderTime := renderTime s;
  cached := cached s; lastCompiledRef := lastCompiledRef s;
  editorView := v |}.

(** [useState] initial values at mount. *)
Definition initialState (p : Props) : State := {|
  files := getInitialFiles (initialCode p) (initialFiles p);
  activeTab := 0;
  output := Some "";
  error := None;
  loading := true;
  luat := None;
  compileTime := None;
  renderTime := None;
  cached := false;
  lastCompiledRef := None;
  editorView := None;
|}.

(** The editor's update listener:
    [setFiles(prev => prev.map((f, i) => i === tabIndex ? {...f, code: newCode} : f))]. *)
Definition onDocChanged (tabIndex : nat) (newCode : string)
    (prev : list VirtualFile) : list VirtualFile :=
  imap (λ i f, if (i =? tabIndex)%nat
               then {| name := name f; code := newCode |} else f) prev.

(** What [doc.toString()] gives for an editor document made of the text
    [s]: the editor splits a text it is given into lines at [\r\n], at a
    lone [\r] and at [\n], and [toString] joins the lines with [\n]. *)
Fixpoint doc_text (s : string) : string :=
  match s with
  | EmptyString => EmptyString
  | String c s' =>
      if Ascii.eqb c "013" then
        String "010"
          match s' with
          | String c' s'' =>
              if Ascii.eqb c' "010" then doc_text s'' else doc_text s'
          | EmptyString => EmptyString
          end
      else String c (doc_text s')
  end.

(** The editor view is created on the code of the active tab:
    [doc: filesRef.current[activeTabRef.current]?.code || ''].  The field
    [editorView] holds [state.doc.toString()] of the view.  Creating the
    view changes neither [files] nor [activeTab], so the effect that writes
    [files[activeTab].code] into a view whose document differs from it
    does not run on it. *)
Definition createEditor (s : State) : State :=
  setEditorView
    (Some (doc_text (default "" (code <$> files s !! activeTab s)))) s.

(** The user types in the editor view: the document changes, [newCode] is
    its text ([update.state.doc.toString()]) and the listener stores it as
    the code of the active tab. *)
Definition typeCode (newCode : string) (s : State) : State :=
  match editorView s with
  | Some _ =>
      setEditorView (Some newCode)
        (setFiles (onDocChanged (activeTab s) newCode (files s)) s)
  | None => s
  end.

(** [reset].  The dispatch replaces the whole document of the editor view by
    the text [initial[0].code]; the view's update listener then runs with
    the tab index of the last render ([activeTabRef.current]) on top of the
    queued [setFiles(initial)], and stores [update.state.doc.toString()],
    the text with its line breaks as the document has them.  A replacement
    of an empty document by the empty string is no change and does not
    reach the listener.  A change of tab tears the view down until it is
    created again; with the first tab active the document and the code of
    the first file agree afterwards. *)
Definition reset (p : Props) (s : State) : State :=
  let initial := getInitialFiles (initialCode p) (initialFiles p) in
  let echoed :=
    match editorView s, initial with
    | Some doc, f0 :: _ =>
        if String.eqb doc "" && String.eqb (code f0) "" then initial
        else onDocChanged (activeTab s) (doc_text (code f0)) initial
    | _, _ => initial
    end in
  let view :=
    match editorView s, initial with
    | Some doc, f0 :: _ =>
        if (activeTab s =? 0)%nat then Some (doc_text (code f0)) else None
    | v, _ => if (activeTab s =? 0)%nat then v else None
    end in
  {| files := echoed; activeTab := 0; output := Some ""; error := None;
     loading := loading s; luat := luat s;
     compileTime := None; renderTime := None; cached := false;
     lastCompiledRef := None; editorView := view |}.

(** ** The bridge object and [runCode] *)

Section Playground.
Context (E : Emscripten).
(** [JSON.parse] on the copied-out text: a thrown error's message, or
    the result object. *)
Context (JSON_parse : string → string + Result.t).
(** [formatTime] (number formatting with [toFixed]). *)
Context (formatTime : Number → string).
(** The value of the n-th [performance.now()] reading. *)
Context (performance_now : nat → Z).

(** A module instance: the engine's memory and the calls made on it. *)
Record Instance := { mem : memory E; trace : list Event }.

(** What a run works on: the component, the instance behind [luat], and
    the number of clock readings taken so far. *)
Record Ctx := { st : State; vm : Instance; ticks : nat }.

(** Statements that may throw: the message of the [Error], or a value;
    the effects made before a throw stay. *)
Definition Try (A : Type) : Type := Ctx → (string + A) * Ctx.

Global Instance Try_ret : MRet Try := λ A x c, (inr x, c).
Global Instance Try_bind : MBind Try := λ A B f m c,
  match m c with
  | (inr x, c') => f x c'
  | (inl e, c') => (inl e, c')
  end.

Definition throw {A} (message : string) : Try A := λ c, (inl message, c).

Definition setState (f : State → State) : Try unit :=
  λ c, (inr (), {| st := f (st c); vm := vm c; ticks := ticks c |}).

Definition now : Try Z :=
  λ c, (inr (performance_now (ticks c)),
        {| st := st c; vm := vm c; ticks := S (ticks c) |}).

(** [Module.ccall(...)]: run the export on the memory, log the call. *)
Definition ccall {A} (f : memory E → A * memory E) (ev : A → Event) : Try A :=
  λ c, let '(r, m') := f (mem (vm c)) in
       (inr r, {| st := st c;
                  vm := {| mem := m'; trace := trace (vm c) ++ [ev r] |};
                  ticks := ticks c |}).

Definition Module_UTF8ToString (ptr : Z) : Try string :=
  ccall (λ m, (UTF8ToString E ptr m, m)) (call_UTF8ToString ptr).

Definition Module_luat_free_string (ptr : Z) : Try unit :=
  ccall (λ m, ((), _luat_free_string E ptr m)) (λ _, call_free_string ptr).

Definition addTemplate (path source : string) : Try unit :=
  r ← ccall (luat_add_template E path source) (ccall_add_template path source);
  if negb (r =? 0) then throw ("Failed to add template: " +:+ path)
  else mret ().

Definition clearTemplates : Try unit :=
  _ ← ccall (luat_clear_templates E) ccall_clear_templates;
  mret ().

Definition Internal_error : Result.t :=
  {| Result.success := false; Result.html := None;
     Result.error := Some "Internal error" |}.

(** [contextJson] is [JSON.stringify(context)]. *)
Definition renderWithError (entry contextJson : string) : Try Result.t :=
  resultPtr ← ccall (luat_render_with_error E entry contextJson)
                    (ccall_render_with_error entry contextJson);
  if resultPtr =? 0 then mret Internal_error
  else
    resultJson ← Module_UTF8ToString resultPtr;
    _ ← Module_luat_free_string resultPtr;
    match JSON_parse resultJson with
    | inl message => throw message
    | inr result => mret result
    end.

(** [for (const file of currentFiles) luat.addTemplate(file.name, file.code)] *)
Fixpoint addTemplates (currentFiles : list VirtualFile) : Try unit :=
  match currentFiles with
  | [] => mret ()
  | file :: rest =>
      _ ← addTemplate (name file) (code file);
      addTemplates rest
  end.

(** [currentFiles.find(f => f.name === 'main.luat') || currentFiles[0]] *)
Definition entryOf (currentFiles : list VirtualFile) : option VirtualFile :=
  match List.find (λ f, String.eqb (name f) "main.luat") currentFiles with
  | Some f => Some f
  | None => head currentFiles
  end.

(** The message of the [TypeError] raised by reading a property of
    [undefined]. *)
Definition TypeError_undefined : string :=
  "Cannot read properties of undefined".

(** [JSON.stringify({})] *)
Definition empty_context : string := "{}".

(** The sampling loop, [n] iterations left. *)
Fixpoint sampleRender (n : nat) (entryFile : option VirtualFile)
    (samples : list Z) (result : option Result.t)
    : Try (list Z * option Result.t) :=
  match n with
  | O => mret (samples, result)
  | S n =>
      renderStart ← now;
      entry ← match entryFile with
              | Some f => mret (name f)
              | None => throw TypeError_undefined
              end;
      r ← renderWithError entry empty_context;
      t ← now;
      sampleRender n entryFile (samples ++ [t - renderStart]) (Some r)
  end.

(** The first part of the [try] block: reload the templates only if the
    files changed. *)
Definition recompile (currentFiles : list VirtualFile)
    (currentHash : string) : Try unit :=
  last ← (λ c, (inr (lastCompiledRef (st c)), c));
  let codeChanged := strict_ne last currentHash in
  if codeChanged then
    compileStart ← now;
    _ ← clearTemplates;
    _ ← addTemplates currentFiles;
    t ← now;
    let compileMs := t - compileStart in
    _ ← setState (setLastCompiled (Some currentHash));
    _ ← setState (setCached false);
    setState (setCompileTime (Some (formatTime (Num compileMs))))
  else
    setState (setCached true).

(** The last part of the [try] block: show the result. *)
Definition display (result : Result.t) : Try unit :=
  if Result.success result then
    _ ← setState (setOutput (Result.html result));
    setState (setError None)
  else
    _ ← setState (setError (Result.error result));
    setState (setOutput (Some "")).

(** The body of the [try] block of [runCode]; its value is the [result]
    it displays, kept for the statements below. *)
Definition runCode_try (currentFiles : list VirtualFile)
    (currentHash : string) : Try Result.t :=
  _ ← recompile currentFiles currentHash;
  let entryFile := entryOf currentFiles in
  '(samples, result) ← sampleRender 3 entryFile [] None;
  let renderMs := Math_min samples in
  _ ← setState (setRenderTime (Some (formatTime renderMs)));
  match result with
  | None => throw TypeError_undefined
  | Some result =>
      _ ← display result;
      mret result
  end.

(** The [catch] block of [runCode]. *)
Definition runCode_catch (message : string) : State → State :=
  λ s, setRenderTime None (setCompileTime None
         (setOutput (Some "") (setError (Some message) s))).

Definition runCode (c : Ctx) : Ctx :=
  match luat (st c) with
  | None => c
  | Some _ =>
      let currentFiles := files (st c) in
      let currentHash := getFilesHash currentFiles in
      match runCode_try currentFiles currentHash c with
      | (inr _, c') => c'
      | (inl message, c') =>
          {| st := runCode_catch message (st c'); vm := vm c';
             ticks := ticks c' |}
      end
  end.

(** How the [try] block of a run ended: the message thrown, or the
    result displayed. *)
Definition runCode_outcome (c : Ctx) : string + Result.t :=
  fst (runCode_try (files (st c)) (getFilesHash (files (st c))) c).

(** The foreign calls made by a run: what it appended to the trace. *)
Definition calls_of (before after : Ctx) : list Event :=
  drop (length (trace (vm before))) (trace (vm after)).

(** [c] with the engine's memory replaced and calls appended. *)
Definition logged (c : Ctx) (m : memory E) (evs : list Event) : Ctx :=
  {| st := st c; vm := {| mem := m; trace := trace (vm c) ++ evs |};
     ticks := ticks c |}.

(** [c] after [k] more clock readings. *)
Definition ticked (k : nat) (c : Ctx) : Ctx :=
  {| st := st c; vm := vm c; ticks := ticks c + k |}.

(** [c] with the component's state changed by [f]. *)
Definition shown (f : State → State) (c : Ctx) : Ctx :=
  {| st := f (st c); vm := vm c; ticks := ticks c |}.

(** An [addTemplate] of [f] that returned status zero. *)
Definition added (f : VirtualFile) : Event :=
  ccall_add_template (name f) (code f) 0.

(** The calls of one [renderWithError] that returns [r]: the render call
    alone when the handle is null, else the render call, the copy of the
    text out of the buffer and the release of the buffer. *)
Definition render_calls (entry contextJson : string) (r : Result.t)
    (evs : list Event) : Prop :=
  (evs = [ccall_render_with_error entry contextJson 0] ∧ r = Internal_error)
  ∨ ∃ ptr text,
      ptr ≠ 0
      ∧ evs = [ccall_render_with_error entry contextJson ptr;
               call_UTF8ToString ptr text; call_free_string ptr]
      ∧ JSON_parse text = inr r.

(** The state changes of [display]. *)
Definition displayed (result : Result.t) (s : State) : State :=
  if Result.success result then setError None (setOutput (Result.html result) s)
  else setOutput (Some "") (setError (Result.error result) s).

(** The state changes of a completed reload of the templates. *)
Definition recompiled (currentHash : string) (compileMs : Z) (s : State)
    : State :=
  setCompileTime (Some (formatTime (Num compileMs)))
    (setCached false (setLastCompiled (Some currentHash) s)).

(** A run that takes the rebuild path: it clears the registry and adds
    the files in order; either all of them, after which the hash of the
    files is stored, the run is marked as not cached and the calls that
    follow are no registry calls; or up to a file that is refused, which
    ends the run with the error naming that file, the stored hash and the
    cached mark being left as they were. *)
Definition rebuilds (c c' : Ctx) : Prop :=
  (∃ s rest,
      calls_of c c'
      = ccall_clear_templates s :: (added <$> files (st c)) ++ rest
      ∧ List.filter is_registry_call rest = []
      ∧ lastCompiledRef (st c') = Some (getFilesHash (files (st c)))
      ∧ cached (st c') = false)
  ∨ (∃ s pre g post k,
      files (st c) = pre ++ g :: post ∧ k ≠ 0
      ∧ calls_of c c'
        = ccall_clear_templates s
          :: (added <$> pre) ++ [ccall_add_template (name g) (code g) k]
      ∧ error (st c') = Some ("Failed to add template: " +:+ name g)
      ∧ output (st c') = Some ""
      ∧ lastCompiledRef (st c') = lastCompiledRef (st c)
      ∧ cached (st c') = cached (st c)).

(** The duration measured around the [i]-th render of a sampling loop
    whose first clock reading is the [t0]-th. *)
Definition sampled (t0 i : nat) : Z :=
  performance_now (t0 + 2 * i + 1) - performance_now (t0 + 2 * i).

End Playground.

Arguments mem {E} _.
Arguments trace {E} _.
Arguments st {E} _.
Arguments vm {E} _.
Arguments ticks {E} _.
Arguments calls_of {E} _ _.
Arguments logged {E} _ _ _.
Arguments ticked {E} _ _.
Arguments shown {E} _ _.
Arguments rebuilds {E} _ _.


(** ** A reference engine, for concrete runs *)

Module Engine.

(** What the engine is made to answer at its entry points. *)
Record Faults := {
  init_status : Z;
  clear_status : Z;
  rejects : string → string → bool;
  null_handle : bool;
  garbled : bool;
}.

Definition healthy : Faults := {|
  init_status := 0; clear_status := 0; rejects := λ _ _, false;
  null_handle := false; garbled := false |}.

(** The registry is the engine's name-to-source table; the heap holds
    the result texts handed out and not yet freed. *)
Record Mem := {
  registry : list (string * string);
  heap : list (Z * string);
  next_ptr : Z;
}.

Definition fresh : Mem := {| registry := []; heap := []; next_ptr := 1024 |}.

Fixpoint register (path source : string) (r : list (string * string))
    : list (string * string) :=
  match r with
  | [] => [(path, source)]
  | (p, s) :: r =>
      if String.eqb p path then (path, source) :: r
      else (p, s) :: register path source r
  end.

Definition lookup (path : string) (r : list (string * string))
    : option string :=
  snd <$> List.find (λ e, String.eqb (fst e) path) r.

(** The text of a result: [ok:] followed by the HTML, or [err:] followed
    by the engine's message.  A source that opens an if-block is taken
    to leave it unclosed. *)
Definition render_text (f : Faults) (entry : string) (m : Mem) : string :=
  if garbled f then "<<<"
  else match lookup entry (registry m) with
       | None => "err:Template not found: " +:+ entry
       | Some source =>
           if String.prefix "{#if" source then "err:Unclosed {#if} block"
           else "ok:" +:+ source
       end.

(** Modelled from the spec: the external module of sections 4.2, 4.3 and
    6, which is not in the repository.  [add_template] registers or
    replaces a named source and [clear_templates] empties the table; a
    refused call returns a non-zero status and leaves the table as it
    was; [render_with_error] hands out a buffer holding the result text
    and [free_string] releases it. *)
Definition module (f : Faults) : Emscripten := {|
  memory := Mem;
  boot := fresh;
  luat_init := λ m, (init_status f, m);
  luat_add_template := λ path source m,
    if rejects f path source then (1, m)
    else (0, {| registry := register path source (registry m);
                heap := heap m; next_ptr := next_ptr m |});
  luat_clear_templates := λ m,
    if clear_status f =? 0
    then (0, {| registry := []; heap := heap m; next_ptr := next_ptr m |})
    else (clear_status f, m);
  luat_render_with_error := λ entry _ m,
    if null_handle f then (0, m)
    else (next_ptr m,
          {| registry := registry m;
             heap := (next_ptr m, render_text f entry m) :: heap m;
             next_ptr := next_ptr m + 8 |});
  UTF8ToString := λ ptr m,
    default "" (snd <$> List.find (λ e, fst e =? ptr) (heap m));
  _luat_free_string := λ ptr m,
    {| registry := registry m;
       heap := List.filter (λ e, negb (fst e =? ptr)) (heap m);
       next_ptr := next_ptr m |};
|}.

(** The reading of a result text of the reference engine, in the place of
    [JSON.parse]. *)
Definition parse (text : string) : string + Result.t :=
  if String.prefix "ok:" text then
    inr {| Result.success := true;
           Result.html := Some (String.substring 3 (String.length text - 3) text);
           Result.error := None |}
  else if String.prefix "err:" text then
    inr {| Result.success := false; Result.html := None;
           Result.error := Some (String.substring 4 (String.length text - 4) text) |}
  else inl "Unexpected token < in JSON at position 0".

(** A plain rendering of a duration, in the place of [formatTime]. *)
Definition format (n : Number) : string :=
  match n with
  | Num z => pretty z +:+ "us"
  | Infinity => "Infinity"
  end.

(** Clock readings: 0, 40, 100, 109, 120, 123, 130, 135, then 200 apart. *)
Definition clock (n : nat) : Z :=
  nth n [0; 40; 100; 109; 120; 123; 130; 135] (200 * Z.of_nat n).

(** A component with the module loaded and the editor view created, on
    a freshly initialised instance. *)
Definition loaded (f : Faults) (p : Props) : Ctx (module f) := {|
  st := createEditor (setLoading false (setLuat (Some 0%nat) (initialState p)));
  vm := Build_Instance (module f) fresh [ccall_init 0];
  ticks := 0;
|}.

Definition run (f : Faults) : Ctx (module f) → Ctx (module f) :=
  runCode (module f) parse format clock.

(** The user replaces the code of the file in the active tab. *)
Definition edit (f : Faults) (newCode : string) (c : Ctx (module f))
    : Ctx (module f) :=
  shown (typeCode newCode) c.

(** The hash of the files held by a registry. *)
Definition registry_hash (r : list (string * string)) : string :=
  getFilesHash ((λ e, {| name := e.1; code := e.2 |}) <$> r).

(** An engine that refuses one source. *)
Definition picky : Faults := {|
  init_status := 0; clear_status := 0;
  rejects := λ _ source, String.eqb source "<refused/>";
  null_handle := false; garbled := false |}.

(** An engine whose [clear_templates] reports a failure. *)
Definition stuck : Faults := {|
  init_status := 0; clear_status := 1; rejects := λ _ _, false;
  null_handle := false; garbled := false |}.

(** An engine whose init fails. *)
Definition dead : Faults := {|
  init_status := 1; clear_status := 0; rejects := λ _ _, false;
  null_handle := false; garbled := false |}.

Definition hello : Props :=
  {| initialCode := "<h1>Hi</h1>"; initialFiles := []; autoRun := false |}.

Definition hello_auto : Props :=
  {| initialCode := "<h1>Hi</h1>"; initialFiles := []; autoRun := true |}.

Definition refused : Props :=
  {| initialCode := "<refused/>"; initialFiles := []; autoRun := false |}.

Definition first_refused : Props :=
  {| initialCode := "";
     initialFiles := [ {| name := "main.luat"; code := "<refused/>" |};
                       {| name := "Card.luat"; code := "<p>card</p>" |} ];
     autoRun := false |}.

Definition two_files : Props :=
  {| initialCode := "";
     initialFiles := [ {| name := "main.luat"; code := "<h1>Hi</h1>" |};
                       {| name := "Card.luat"; code := "<p>card</p>" |} ];
     autoRun := false |}.

End Engine.

(** ** The page: module singletons, loader and widgets *)

(** The promise held by [luatLoading]: where its async body stands, or how
    it settled.  [AwaitScript appended]: awaiting the script promise, with
    a script tag appended or (the factory being there already) resolved on
    the spot; [AwaitModule]: awaiting [createModule(...)]. *)
Inductive Promise :=
  | AwaitScript (appended : bool)
  | AwaitModule
  | Fulfilled (m : nat)
  | Rejected (message : string).

(** What a call of [loadLuatModule] hands to its caller: the bridge object
    (bound to instance [m]), or the promise [p]. *)
Inductive Awaited := Value (m : nat) | Pending (p : nat).

(** A mounted component: its props and state, what its mount effect got
    from [loadLuatModule], whether the callbacks on it have run, and the
    [mounted] flag of the effect. *)
Record Widget := {
  props : Props;
  state : State;
  awaiting : Awaited;
  notified : bool;
  mounted : bool;
}.

Inductive Action :=
  | Mount (p : Props)
  | Unmount (k : nat)
  | ScriptLoaded (p : nat)
  | ScriptFailed (p : nat)
  | ModuleCreated (p : nat)
  | ModuleFailed (p : nat) (message : string)
  | Settle (k : nat)
  | EditorCreated (k : nat)
  | Typing (k : nat) (newCode : string)
  | SelectTab (k i : nat)
  | ClickRun (k : nat)
  | ClickReset (k : nat).

Section Page.
Context (E : Emscripten).
Context (JSON_parse : string → string + Result.t).
Context (formatTime : Number → string).
Context (performance_now : nat → Z).

Record Page := {
  window_Module : bool;
  script_tags : nat;
  createModule_calls : nat;
  instances : list (Instance E);
  luatModule : option nat;
  luatLoading : option nat;
  promises : list Promise;
  clock_reads : nat;
}.

Definition setPromise (p : nat) (v : Promise) (pg : Page) : Page :=
  {| window_Module := window_Module pg; script_tags := script_tags pg;
     createModule_calls := createModule_calls pg;
     instances := instances pg; luatModule := luatModule pg;
     luatLoading := luatLoading pg;
     promises := <[p := v]> (promises pg);
     clock_reads := clock_reads pg |}.

(** [loadLuatModule], up to the first [await] of the async body. *)
Definition loadLuatModule (pg : Page) : Awaited * Page :=
  match luatModule pg with
  | Some m => (Value m, pg)
  | None =>
      match luatLoading pg with
      | Some p => (Pending p, pg)
      | None =>
          let p := length (promises pg) in
          let appended := negb (window_Module pg) in
          (Pending p,
           {| window_Module := window_Module pg;
              script_tags := script_tags pg + (if appended then 1 else 0);
              createModule_calls := createModule_calls pg;
              instances := instances pg; luatModule := luatModule pg;
              luatLoading := Some p;
              promises := promises pg ++ [AwaitScript appended];
              clock_reads := clock_reads pg |})
      end
  end.

(** The script promise resolved (the loader script, once run, defines the
    factory [window.Module]): the body goes on to
    [await createModule({ locateFile })]. *)
Definition script_loaded (p : nat) (pg : Page) : Page :=
  match promises pg !! p with
  | Some (AwaitScript _) =>
      {| window_Module := true; script_tags := script_tags pg;
         createModule_calls := createModule_calls pg + 1;
         instances := instances pg; luatModule := luatModule pg;
         luatLoading := luatLoading pg;
         promises := <[p := AwaitModule]> (promises pg);
         clock_reads := clock_reads pg |}
  | _ => pg
  end.

(** [script.onerror] *)
Definition script_failed (p : nat) (pg : Page) : Page :=
  match promises pg !! p with
  | Some (AwaitScript true) =>
      setPromise p (Rejected "Failed to load luat-wasm.js") pg
  | _ => pg
  end.

(** [createModule] resolved with a new instance: [luat_init] is called,
    and on status zero the bridge object is stored in [luatModule]. *)
Definition module_created (p : nat) (pg : Page) : Page :=
  match promises pg !! p with
  | Some AwaitModule =>
      let m := length (instances pg) in
      let '(result, mem') := luat_init E (boot E) in
      let inst := Build_Instance E mem' [ccall_init result] in
      if negb (result =? 0) then
        {| window_Module := window_Module pg; script_tags := script_tags pg;
           createModule_calls := createModule_calls pg;
           instances := instances pg ++ [inst];
           luatModule := luatModule pg; luatLoading := luatLoading pg;
           promises := <[p := Rejected "Failed to initialize Luat engine"]>
                         (promises pg);
           clock_reads := clock_reads pg |}
      else
        {| window_Module := window_Module pg; script_tags := script_tags pg;
           createModule_calls := createModule_calls pg;
           instances := instances pg ++ [inst];
           luatModule := Some m; luatLoading := luatLoading pg;
           promises := <[p := Fulfilled m]> (promises pg);
           clock_reads := clock_reads pg |}
  | _ => pg
  end.

(** [createModule] rejected. *)
Definition module_failed (p : nat) (message : string) (pg : Page) : Page :=
  match promises pg !! p with
  | Some AwaitModule => setPromise p (Rejected message) pg
  | _ => pg
  end.

(** How what a caller awaits has settled, if it has. *)
Definition settled (pg : Page) (a : Awaited) : option (string + nat) :=
  match a with
  | Value m => Some (inr m)
  | Pending p =>
      match promises pg !! p with
      | Some (Fulfilled m) => Some (inr m)
      | Some (Rejected message) => Some (inl message)
      | _ => None
      end
  end.

(** [runCode] of a widget, on the instance its [luat] is bound to. *)
Definition run_widget (pg : Page) (w : Widget) : Page * Widget :=
  match luat (state w) with
  | None => (pg, w)
  | Some i =>
      match instances pg !! i with
      | None => (pg, w)
      | Some inst =>
          let c := runCode E JSON_parse formatTime performance_now
                     {| st := state w; vm := inst; ticks := clock_reads pg |} in
          ({| window_Module := window_Module pg;
              script_tags := script_tags pg;
              createModule_calls := createModule_calls pg;
              instances := <[i := vm c]> (instances pg);
              luatModule := luatModule pg; luatLoading := luatLoading pg;
              promises := promises pg;
              clock_reads := ticks c |},
           {| props := props w; state := st c; awaiting := awaiting w;
              notified := notified w; mounted := mounted w |})
      end
  end.

Definition setWidgetState (f : State → State) (w : Widget) : Widget :=
  {| props := props w; state := f (state w); awaiting := awaiting w;
     notified := notified w; mounted := mounted w |}.

(** The [then] and [catch] callbacks of the mount effect, followed by
    the auto-run effect when [luat] has been set. *)
Definition settle (pg : Page) (w : Widget) : Page * Widget :=
  if notified w then (pg, w)
  else
    match settled pg (awaiting w) with
    | None => (pg, w)
    | Some outcome =>
        let w0 := {| props := props w; state := state w;
                     awaiting := awaiting w; notified := true;
                     mounted := mounted w |} in
        if negb (mounted w) then (pg, w0)
        else match outcome with
             | inr m =>
                 let w1 := setWidgetState
                             (λ s, setLoading false (setLuat (Some m) s)) w0 in
                 if autoRun (props w) && (0 <? length (files (state w)))%nat
                 then run_widget pg w1 else (pg, w1)
             | inl message =>
                 (pg, setWidgetState
                        (λ s, setLoading false
                                (setError (Some ("Failed to load Luat: " +:+ message)) s))
                        w0)
             end
    end.

Record System := { page : Page; widgets : list Widget }.

(** An event of widget [k]; an unmounted widget has none. *)
Definition withWidget (k : nat) (f : Page → Widget → Page * Widget)
    (s : System) : System :=
  match widgets s !! k with
  | Some w =>
      if mounted w then
        let '(pg, w') := f (page s) w in
        {| page := pg; widgets := <[k := w']> (widgets s) |}
      else s
  | None => s
  end.

Definition step (a : Action) (s : System) : System :=
  match a with
  | Mount p =>
      let '(a, pg) := loadLuatModule (page s) in
      {| page := pg;
         widgets := widgets s ++ [{| props := p; state := initialState p;
                                   awaiting := a; notified := false;
                                   mounted := true |}] |}
  | Unmount k =>
      withWidget k (λ pg w, (pg, {| props := props w; state := state w;
                                  awaiting := awaiting w;
                                  notified := notified w;
                                  mounted := false |})) s
  | ScriptLoaded p =>
      {| page := script_loaded p (page s); widgets := widgets s |}
  | ScriptFailed p =>
      {| page := script_failed p (page s); widgets := widgets s |}
  | ModuleCreated p =>
      {| page := module_created p (page s); widgets := widgets s |}
  | ModuleFailed p message =>
      {| page := module_failed p message (page s); widgets := widgets s |}
  | Settle k =>
      match widgets s !! k with
      | Some w =>
          let '(pg, w') := settle (page s) w in
          {| page := pg; widgets := <[k := w']> (widgets s) |}
      | None => s
      end
  | EditorCreated k =>
      withWidget k (λ pg w, (pg, setWidgetState createEditor w)) s
  | Typing k newCode =>
      withWidget k (λ pg w, (pg, setWidgetState (typeCode newCode) w)) s
  | SelectTab k i =>
      withWidget k (λ pg w, (pg,
        if (i =? activeTab (state w))%nat || (length (files (state w)) <=? i)%nat
        then w
        else setWidgetState (λ s, setEditorView None (setActiveTab i s)) w)) s
  | ClickRun k => withWidget k run_widget s
  | ClickReset k =>
      withWidget k (λ pg w, (pg, setWidgetState (reset (props w)) w)) s
  end.

Definition exec (acts : list Action) (s : System) : System :=
  fold_left (λ s a, step a s) acts s.

(** The page before any widget mounts; [factory] tells whether
    [window.Module] is a function already. *)
Definition blank (factory : bool) : System :=
  {| page := {| window_Module := factory; script_tags := 0;
                createModule_calls := 0; instances := [];
                luatModule := None; luatLoading := None;
                promises := []; clock_reads := 0 |};
     widgets := [] |}.

(** ** Invariants of the page *)

(** The trace of an instance opens with its one init call, and nothing
    follows an init that failed. *)
Definition trace_ok (t : list Event) : Prop :=
  ∃ status rest,
    t = ccall_init status :: rest
    ∧ List.filter is_init_call rest = []
    ∧ (status ≠ 0 → rest = []).

(** At most one promise was ever made, and the singletons, the instances
    and the counters follow where it stands. *)
Definition page_ok (pg : Page) : Prop :=
  Forall (λ inst, trace_ok (trace inst)) (instances pg)
  ∧ (script_tags pg ≤ 1)%nat
  ∧ (createModule_calls pg ≤ 1)%nat
  ∧ luatLoading pg = match promises pg with [] => None | _ => Some 0%nat end
  ∧ match promises pg with
    | [] =>
        luatModule pg = None ∧ instances pg = []
        ∧ script_tags pg = 0%nat ∧ createModule_calls pg = 0%nat
    | [AwaitScript _] =>
        luatModule pg = None ∧ instances pg = []
        ∧ createModule_calls pg = 0%nat
    | [AwaitModule] => luatModule pg = None ∧ instances pg = []
    | [Fulfilled m] =>
        m = 0%nat ∧ luatModule pg = Some 0%nat
        ∧ ∃ inst rest, instances pg = [inst] ∧ trace inst = ccall_init 0 :: rest
    | [Rejected _] =>
        luatModule pg = None
        ∧ (instances pg = []
           ∨ ∃ inst status, instances pg = [inst]
                            ∧ trace inst = [ccall_init status])
    | _ => False
    end.

(** A widget is bound to the module only once the singleton is set, and
    awaits the one promise. *)
Definition widget_ok (pg : Page) (w : Widget) : Prop :=
  (∀ i, luat (state w) = Some i → luatModule pg = Some i)
  ∧ match awaiting w with
    | Value m => luatModule pg = Some m
    | Pending p => p = 0%nat ∧ promises pg ≠ []
    end.

(** What later pages keep: the singleton once set, the promise once
    made. *)
Definition page_le (pg pg' : Page) : Prop :=
  (∀ m, luatModule pg = Some m → luatModule pg' = Some m)
  ∧ (promises pg ≠ [] → promises pg' ≠ []).

(** How the load has settled, if it has: what the one promise of the
    page says. *)
Definition outcome (pg : Page) : option (string + nat) :=
  match promises pg with
  | Fulfilled m :: _ => Some (inr m)
  | Rejected message :: _ => Some (inl message)
  | _ => None
  end.

End Page.

Arguments window_Module {E} _.
Arguments script_tags {E} _.
Arguments createModule_calls {E} _.
Arguments instances {E} _.
Arguments luatModule {E} _.
Arguments luatLoading {E} _.
Arguments promises {E} _.
Arguments clock_reads {E} _.
Arguments page {E} _.
Arguments widgets {E} _.
Arguments settled {E} _ _.
Arguments outcome {E} _.

Definition sys_ok {E} (s : System E) : Prop :=
  page_ok E (page s)
  ∧ Forall (widget_ok E (page s)) (widgets s)
  ∧ length (promises (page s)) = Nat.min 1 (length (widgets s)).


(** Steps of the page on the reference engine. *)
Definition play (f : Engine.Faults) (factory : bool) (acts : list Action)
    : System (Engine.module f) :=
  exec (Engine.module f) Engine.parse Engine.format Engine.clock acts
    (blank (Engine.module f) factory).

(** ** Further parts of the component *)

(** Whether the character occurs in the string. *)
Fixpoint has_char (a : Ascii.ascii) (s : string) : bool :=
  match s with
  | EmptyString => false
  | String b s => Ascii.eqb a b || has_char a s
  end.

(** A file whose name holds neither of the two separators of
    [getFilesHash] and whose code does not hold the separator of the
    files. *)
Definition plain_file (f : VirtualFile) : Prop :=
  has_char ":"%char (name f) = false
  ∧ has_char "|"%char (name f) = false
  ∧ has_char "|"%char (code f) = false.

(** Every buffer handed out by a render call is copied out and released by
    the two calls that follow the render call, and nothing else is read or
    released. *)
Fixpoint buffers_released (t : list Event) : bool :=
  match t with
  | [] => true
  | ccall_render_with_error _ _ resultPtr :: t' =>
      if resultPtr =? 0 then buffers_released t'
      else match t' with
           | call_UTF8ToString p _ :: call_free_string q :: t'' =>
               (p =? resultPtr) && (q =? resultPtr) && buffers_released t''
           | _ => false
           end
  | call_UTF8ToString _ _ :: _ => false
  | call_free_string _ :: _ => false
  | _ :: t' => buffers_released t'
  end.

(** A render call that hands out a buffer: its handle is not null. *)
Definition hands_out_buffer (e : Event) : bool :=
  match e with
  | ccall_render_with_error _ _ resultPtr => negb (resultPtr =? 0)
  | _ => false
  end.

(** [outputTab]: ['preview'] or ['html']. *)
Inductive OutputTab := Preview_tab | Html_tab.

(** A string or [null] in the place of a condition: [null] and the empty
    string count as false. *)
Definition truthy (v : option string) : bool :=
  match v with
  | Some s => negb (String.eqb s "")
  | None => false
  end.

(** The child of the output [div]: the error box with the message, the
    preview frame or the HTML viewer on the output, or the placeholder,
    which reads Loading while [loading] is set. *)
Inductive Pane :=
  | ErrorBox (message : string)
  | PreviewFrame (shown_output : string)
  | HtmlViewer (shown_output : string)
  | Placeholder (outputTab : OutputTab) (is_loading : bool).

(** [error ? ... : outputTab === 'preview' ? (output ? ... : ...)
    : (output ? ... : ...)] *)
Definition pane (outputTab : OutputTab) (s : State) : Pane :=
  if truthy (error s) then ErrorBox (default "" (error s))
  else match outputTab with
       | Preview_tab =>
           if truthy (output s) then PreviewFrame (default "" (output s))
           else Placeholder Preview_tab (loading s)
       | Html_tab =>
           if truthy (output s) then HtmlViewer (default "" (output s))
           else Placeholder Html_tab (loading s)
       end.

(** The Run button: [disabled={loading || !luat}]. *)
Definition run_disabled (s : State) : bool :=
  loading s || match luat s with Some _ => false | None => true end.

(** The script tag follows the factory: as long as no promise was made
    the page holds the factory it started with and no script tag; once
    the promise is made, one script tag exists unless the factory was
    there from the start. *)
Definition script_ok {E} (factory : bool) (pg : Page E) : Prop :=
  (promises pg = [] →
   window_Module pg = factory ∧ script_tags pg = 0%nat)
  ∧ (promises pg ≠ [] →
     script_tags pg = if factory then 0%nat else 1%nat).

(** How far the one run of the async body of [loadLuatModule] has gone,
    read off its promise: the script tags appended, the calls of the
    factory [createModule], the instances made and the singleton, each
    with its exact number.  The script tag is appended when the body
    starts, unless the factory was there; the factory is called once the
    script promise has resolved; the instance exists, with its init call
    made, once the factory has answered.  A rejection comes from the
    script ([script.onerror]), from the factory, or from an init status
    other than zero. *)
Definition sequence_ok {E} (factory : bool) (pg : Page E) : Prop :=
  match promises pg with
  | [] =>
      script_tags pg = 0%nat ∧ createModule_calls pg = 0%nat
      ∧ instances pg = [] ∧ luatModule pg = None
  | [AwaitScript appended] =>
      appended = negb factory
      ∧ script_tags pg = (if factory then 0%nat else 1%nat)
      ∧ createModule_calls pg = 0%nat
      ∧ instances pg = [] ∧ luatModule pg = None
  | [AwaitModule] =>
      script_tags pg = (if factory then 0%nat else 1%nat)
      ∧ createModule_calls pg = 1%nat
      ∧ instances pg = [] ∧ luatModule pg = None
  | [Fulfilled m] =>
      script_tags pg = (if factory then 0%nat else 1%nat)
      ∧ createModule_calls pg = 1%nat
      ∧ (∃ inst rest, instances pg = [inst]
                      ∧ trace inst = ccall_init 0 :: rest)
      ∧ m = 0%nat ∧ luatModule pg = Some 0%nat
  | [Rejected message] =>
      script_tags pg = (if factory then 0%nat else 1%nat)
      ∧ luatModule pg = None
      ∧ ((factory = false ∧ message = "Failed to load luat-wasm.js"
          ∧ createModule_calls pg = 0%nat ∧ instances pg = [])
         ∨ (createModule_calls pg = 1%nat ∧ instances pg = [])
         ∨ (message = "Failed to initialize Luat engine"
            ∧ createModule_calls pg = 1%nat
            ∧ ∃ inst status, status ≠ 0 ∧ instances pg = [inst]
                             ∧ trace inst = [ccall_init status]))
  | _ => False
  end.

(** What a component keeps through its events: the names of its files,
    an active tab that exists, a module only once loading is over, and
    an editor view whose document is the code of the active file, as it
    stands or with its line breaks as the editor has them. *)
Definition session_ok (w : Widget) : Prop :=
  name <$> files (state w)
  = name <$> getInitialFiles (initialCode (props w)) (initialFiles (props w))
  ∧ (activeTab (state w) < length (files (state w)))%nat
  ∧ (luat (state w) ≠ None → loading (state w) = false)
  ∧ (∀ doc, editorView (state w) = Some doc →
       ∃ f, files (state w) !! activeTab (state w) = Some f
            ∧ (doc = code f ∨ doc = doc_text (code f))).

(** ** [formatHtml] *)

(** The text handled by [formatHtml] is taken as the list of its UTF-16
    code units, so that the character classes of its regular expressions
    and of [trim] are those of the language. *)
Definition units (s : string) : list N :=
  N_of_ascii <$> String.list_ascii_of_string s.

(** White space and line terminators: the class [\s], and what [trim]
    strips. *)
Definition is_space (c : N) : bool :=
  existsb (N.eqb c)
    [9; 10; 11; 12; 13; 32; 160; 5760; 8232; 8233; 8239; 8287; 12288;
     65279]%N
  || ((8192 <=? c) && (c <=? 8202))%N.

Fixpoint trimStart (s : list N) : list N :=
  match s with
  | c :: s' => if is_space c then trimStart s' else s
  | [] => []
  end.

Definition trimEnd (s : list N) : list N := rev (trimStart (rev s)).

Definition trim (s : list N) : list N := trimEnd (trimStart s).

(** What [\s*<] matches at the head of [s]: the length of the white space
    before the [<], if a [<] follows the white space. *)
Fixpoint gap (s : list N) : option nat :=
  match s with
  | [] => None
  | c :: s' =>
      if (c =? 60)%N then Some 0%nat
      else if is_space c then S <$> gap s'
      else None
  end.

(** [html.replace(/>\s*</g, '>\n<')]: matches are looked for from left to
    right, and the search goes on behind a match; [skip] is the number of
    code units still to pass, which belong to the match just replaced. *)
Fixpoint replace_gaps (skip : nat) (html : list N) : list N :=
  match html with
  | [] => []
  | c :: rest =>
      match skip with
      | S skip => replace_gaps skip rest
      | O =>
          if (c =? 62)%N then
            match gap rest with
            | Some n => [62; 10; 60]%N ++ replace_gaps (S n) rest
            | None => c :: replace_gaps 0 rest
            end
          else c :: replace_gaps 0 rest
      end
  end.

(** [s.split(sep)] for a separator of one code unit. *)
Fixpoint split (sep : N) (s : list N) : list (list N) :=
  match s with
  | [] => [[]]
  | c :: s' =>
      if (c =? sep)%N then [] :: split sep s'
      else match split sep s' with
           | t :: ts => (c :: t) :: ts
           | [] => [[c]]
           end
  end.

Fixpoint startsWith (p s : list N) : bool :=
  match p, s with
  | [], _ => true
  | a :: p', b :: s' => (a =? b)%N && startsWith p' s'
  | _ :: _, [] => false
  end.

Definition endsWith (p s : list N) : bool := startsWith (rev p) (rev s).

(** Matching without regard to case compares the upper-case forms, which
    for the letters of the tag names comes to folding [A-Z] onto [a-z]. *)
Definition lower (c : N) : N :=
  if ((65 <=? c) && (c <=? 90))%N then (c + 32)%N else c.

(** [\w] *)
Definition is_word (c : N) : bool :=
  ((48 <=? c) && (c <=? 57))%N || ((65 <=? c) && (c <=? 90))%N
  || (c =? 95)%N || ((97 <=? c) && (c <=? 122))%N.

Definition void_elements : list string :=
  ["area"; "base"; "br"; "col"; "embed"; "hr"; "img"; "input"; "link";
   "meta"; "param"; "source"; "track"; "wbr"].

(** [/^<(area|base|...|wbr)\b/i.test(trimmed)]: after the [<] one of the
    names, and behind the name the end of the text or a code unit that is
    not of [\w]. *)
Definition is_void (trimmed : list N) : bool :=
  match trimmed with
  | c :: rest =>
      (c =? 60)%N
      && existsb (λ tag,
           startsWith (units tag) (lower <$> rest)
           && match drop (String.length tag) rest with
              | d :: _ => negb (is_word d)
              | [] => true
              end) void_elements
  | [] => false
  end.

Definition tab : list N := units "  ".

(** The condition under which a token opens an element and the
    indentation grows. *)
Definition opens_element (trimmed : list N) : bool :=
  startsWith (units "<") trimmed
  && negb (startsWith (units "</") trimmed)
  && negb (endsWith (units "/>") trimmed)
  && negb (startsWith (units "<!") trimmed)
  && negb (is_void trimmed).

(** The body of [tokens.forEach], with [indent] and [formatted] as
    accumulators; [Math.max(0, indent - 1)] on natural numbers. *)
Fixpoint format_tokens (tokens : list (list N)) (indent : nat)
    (formatted : list N) : list N :=
  match tokens with
  | [] => formatted
  | token :: tokens =>
      let trimmed := trim token in
      match trimmed with
      | [] => format_tokens tokens indent formatted
      | _ :: _ =>
          let indent :=
            if startsWith (units "</") trimmed then Nat.max 0 (indent - 1)
            else indent in
          let formatted :=
            formatted ++ concat (replicate indent tab) ++ trimmed ++ [10%N] in
          let indent := if opens_element trimmed then S indent else indent in
          format_tokens tokens indent formatted
      end
  end.

Definition formatHtml (html : list N) : list N :=
  trim (format_tokens (split 10 (replace_gaps 0 html)) 0 []).

(** The code units of a text that are not white space. *)
Definition content (s : list N) : list N :=
  List.filter (λ c, negb (is_space c)) s.

(** *** Notions used in the proofs about [formatHtml] *)

Definition all_space (ws : list N) : Prop := forallb is_space ws = true.

(** A text that neither starts nor ends with white space, and is not
    empty. *)
Definition tight (t : list N) : Prop :=
  (∃ c r, t = c :: r ∧ is_space c = false)
  ∧ (∃ r c, t = r ++ [c] ∧ is_space c = false).

(** Whether somewhere in [s] a [>] is followed by white space and a [<]:
    whether the regular expression of [formatHtml] matches in [s]. *)
Fixpoint has_gap (s : list N) : bool :=
  match s with
  | [] => false
  | c :: r =>
      ((c =? 62)%N && match gap r with Some _ => true | None => false end)
      || has_gap r
  end.

(** The same for white space that holds no line feed. *)
Fixpoint gap_in_line (s : list N) : bool :=
  match s with
  | [] => false
  | c :: r =>
      if (c =? 60)%N then true
      else if is_space c && negb (c =? 10)%N then gap_in_line r
      else false
  end.

Fixpoint has_gap_in_line (s : list N) : bool :=
  match s with
  | [] => false
  | c :: r => ((c =? 62)%N && gap_in_line r) || has_gap_in_line r
  end.

Definition nonempty (t : list N) : bool :=
  match t with [] => false | _ :: _ => true end.

(** The tokens [formatHtml] lays out: the pieces between the line feeds,
    trimmed, without the empty ones. *)
Definition tokens_of (html : list N) : list (list N) :=
  List.filter nonempty (trim <$> split 10 (replace_gaps 0 html)).

(** What the tokens of a formatted text are like. *)
Definition token (t : list N) : Prop :=
  tight t ∧ Forall (λ c, c ≠ 10%N) t ∧ has_gap t = false.

(** The lines laid out for a list of tokens: the indentation and the
    token of each. *)
Fixpoint lines (ts : list (list N)) (indent : nat)
    : list (list N * list N) :=
  match ts with
  | [] => []
  | t :: ts =>
      let indent :=
        if startsWith (units "</") t then Nat.max 0 (indent - 1)
        else indent in
      (concat (replicate indent tab), t)
      :: lines ts (if opens_element t then S indent else indent)
  end.

(** The lines, each closed by a line feed. *)
Definition flat (items : list (list N * list N)) : list N :=
  concat ((λ it, it.1 ++ it.2 ++ [10%N]) <$> items).

(** The lines, with a line feed between one and the next. *)
Fixpoint joined (items : list (list N * list N)) : list N :=
  match items with
  | [] => []
  | it :: rest =>
      it.1 ++ it.2 ++ match rest with
                      | [] => []
                      | _ :: _ => 10%N :: joined rest
                      end
  end.

(** An indentation: white space without a line feed. *)
Definition indent_ok (it : list N * list N) : Prop :=
  all_space it.1 ∧ Forall (λ c, c ≠ 10%N) it.1.

(** The indentation [format_tokens] has reached behind the tokens. *)
Fixpoint depth_after (tokens : list (list N)) (indent : nat) : nat :=
  match tokens with
  | [] => indent
  | token :: tokens =>
      let trimmed := trim token in
      match trimmed with
      | [] => depth_after tokens indent
      | _ :: _ =>
          let indent :=
            if startsWith (units "</") trimmed then Nat.max 0 (indent - 1)
            else indent in
          depth_after tokens
            (if opens_element trimmed then S indent else indent)
      end
  end.

(** Well-nested tokens: tokens that neither open nor close an element,
    and elements opened by a token, closed by a later one, with
    well-nested tokens between the two. *)
Inductive nested : list (list N) → Prop :=
  | nested_nil : nested []
  | nested_leaf t ts :
      opens_element (trim t) = false →
      startsWith (units "</") (trim t) = false →
      nested ts → nested (t :: ts)
  | nested_element o body c ts :
      opens_element (trim o) = true → nested body →
      startsWith (units "</") (trim c) = true →
      nested ts → nested (o :: body ++ c :: ts).

(** * Properties *)

(** ** Strings: cancellation on both sides of an append *)

Lemma string_app_nil (t : string) : "" +:+ t = t.
Proof. reflexivity. Qed.

Lemma string_app_cons (a : Ascii.ascii) (s t : string) :
  String a s +:+ t = String a (s +:+ t).
Proof. reflexivity. Qed.

Lemma string_app_nil_r (s : string) : s +:+ "" = s.
Proof.
  induction s as [|a s IH]; [done|]. by rewrite string_app_cons, IH.
Qed.

Lemma string_app_length (s t : string) :
  String.length (s +:+ t) = (String.length s + String.length t)%nat.
Proof.
  induction s as [|a s IH]; [done|].
  rewrite string_app_cons. simpl. by rewrite IH.
Qed.

Lemma string_app_assoc (s t u : string) : (s +:+ t) +:+ u = s +:+ t +:+ u.
Proof.
  induction s as [|a s IH]; [done|]. by rewrite !string_app_cons, IH.
Qed.

Lemma string_app_inv_tail (s t u : string) : s +:+ u = t +:+ u → s = t.
Proof.
  revert t. induction s as [|a s IH]; intros [|b t] H.
  - done.
  - apply (f_equal String.length) in H.
    rewrite string_app_nil, string_app_cons in H. simpl in H.
    rewrite string_app_length in H. lia.
  - apply (f_equal String.length) in H.
    rewrite string_app_nil, string_app_cons in H. simpl in H.
    rewrite string_app_length in H. lia.
  - rewrite !string_app_cons in H. injection H as -> H.
    f_equal. by apply IH.
Qed.

Lemma concat_cons_after (x : string) (post : list string) :
  String.concat "|" (x :: post) = x +:+ join_after post.
Proof.
  revert x. induction post as [|y post IH]; intros x.
  - simpl. by rewrite string_app_nil_r.
  - change (String.concat "|" (x :: y :: post))
      with (x +:+ "|" +:+ String.concat "|" (y :: post)).
    rewrite IH. done.
Qed.

Lemma concat_middle (pre post : list string) (x : string) :
  String.concat "|" (pre ++ x :: post)
  = join_before pre +:+ x +:+ join_after post.
Proof.
  induction pre as [|p pre IH].
  - simpl app. rewrite concat_cons_after. done.
  - simpl app. simpl join_before.
    destruct (pre ++ x :: post) as [|z zs] eqn:Hz.
    { by destruct pre. }
    change (String.concat "|" (p :: z :: zs))
      with (p +:+ "|" +:+ String.concat "|" (z :: zs)).
    rewrite IH, !string_app_assoc. done.
Qed.

Lemma getFilesHash_middle (pre post : list VirtualFile) (f : VirtualFile) :
  getFilesHash (pre ++ f :: post)
  = join_before (map (λ f, name f +:+ ":" +:+ code f) pre)
    +:+ (name f +:+ ":" +:+ code f)
    +:+ join_after (map (λ f, name f +:+ ":" +:+ code f) post).
Proof.
  unfold getFilesHash. rewrite map_app. simpl map. apply concat_middle.
Qed.

(** Editing the code of one file (name kept) changes the hash. *)
Lemma getFilesHash_code_inj pre post n c c' :
  getFilesHash (pre ++ {| name := n; code := c |} :: post)
  = getFilesHash (pre ++ {| name := n; code := c' |} :: post) →
  c = c'.
Proof.
  rewrite !getFilesHash_middle. simpl. intros H.
  apply (inj (String.app _)) in H.
  apply string_app_inv_tail in H.
  by do 2 apply (inj (String.app _)) in H.
Qed.

(** Editing the name of one file (code kept) changes the hash. *)
Lemma getFilesHash_name_inj pre post n n' c :
  getFilesHash (pre ++ {| name := n; code := c |} :: post)
  = getFilesHash (pre ++ {| name := n'; code := c |} :: post) →
  n = n'.
Proof.
  rewrite !getFilesHash_middle. simpl. intros H.
  apply (inj (String.app _)) in H.
  by do 2 apply string_app_inv_tail in H.
Qed.

(** ** Files: the hash, the edits, the entry point and the reset *)

Lemma has_char_app a s t :
  has_char a (s +:+ t) = has_char a s || has_char a t.
Proof.
  induction s as [|b s IH]; [by rewrite string_app_nil|].
  rewrite string_app_cons. simpl. by rewrite IH, orb_assoc.
Qed.

(** A string is cut in one way only at the first occurrence of a
    character. *)
Lemma app_sep_inj a s s' t t' :
  has_char a s = false → has_char a s' = false →
  s +:+ String a t = s' +:+ String a t' → s = s' ∧ t = t'.
Proof.
  revert s'. induction s as [|b s IH]; intros [|b' s'] Hs Hs' H;
    rewrite ?string_app_nil, ?string_app_cons in H.
  - by injection H as ->.
  - injection H as <- _. simpl in Hs'. by rewrite Ascii.eqb_refl in Hs'.
  - injection H as -> _. simpl in Hs. by rewrite Ascii.eqb_refl in Hs.
  - injection H as -> H. simpl in Hs, Hs'.
    apply orb_false_elim in Hs as [_ Hs].
    apply orb_false_elim in Hs' as [_ Hs'].
    by destruct (IH s' Hs Hs' H) as [-> ->].
Qed.

Lemma hash_item_inj f g :
  plain_file f → plain_file g →
  name f +:+ ":" +:+ code f = name g +:+ ":" +:+ code g → f = g.
Proof.
  intros (Hf & _) (Hg & _) H.
  rewrite !string_app_cons, !string_app_nil in H.
  destruct (app_sep_inj _ _ _ _ _ Hf Hg H) as [Hn Hc].
  destruct f, g. simpl in *. congruence.
Qed.

Lemma hash_item_plain f :
  plain_file f → has_char "|"%char (name f +:+ ":" +:+ code f) = false.
Proof.
  intros (_ & Hn & Hc). rewrite !has_char_app, Hn, Hc. reflexivity.
Qed.

Lemma hash_item_not_empty f rest : name f +:+ ":" +:+ code f +:+ rest ≠ "".
Proof.
  intros H. apply (f_equal String.length) in H.
  rewrite !string_app_length in H. simpl in H. lia.
Qed.

(** X1: on files whose names hold no colon and no bar and whose codes hold
    no bar, [getFilesHash] is injective: two lists of such files with the
    same hash are the same list. *)
Theorem getFilesHash_injective (fs gs : list VirtualFile) :
  Forall plain_file fs → Forall plain_file gs →
  getFilesHash fs = getFilesHash gs → fs = gs.
Proof.
  revert gs. induction fs as [|f fs IH]; intros [|g gs] Hfs Hgs H.
  - done.
  - unfold getFilesHash in H. simpl map in H. rewrite concat_cons_after in H.
    symmetry in H. rewrite string_app_assoc in H.
    by apply hash_item_not_empty in H.
  - unfold getFilesHash in H. simpl map in H. rewrite concat_cons_after in H.
    rewrite string_app_assoc in H. by apply hash_item_not_empty in H.
  - apply Forall_cons in Hfs as [Hf Hfs]. apply Forall_cons in Hgs as [Hg Hgs].
    unfold getFilesHash in H. simpl map in H.
    rewrite !concat_cons_after in H.
    pose proof (hash_item_plain f Hf) as Hpf.
    pose proof (hash_item_plain g Hg) as Hpg.
    destruct fs as [|f' fs], gs as [|g' gs]; simpl join_after in H.
    + rewrite !string_app_nil_r in H. f_equal. by apply hash_item_inj.
    + rewrite string_app_nil_r in H. rewrite H in Hpf.
      rewrite has_char_app in Hpf. simpl in Hpf.
      by rewrite orb_true_r in Hpf.
    + rewrite string_app_nil_r in H. rewrite <- H in Hpg.
      rewrite has_char_app in Hpg. simpl in Hpg.
      by rewrite orb_true_r in Hpg.
    + rewrite !string_app_cons, !string_app_nil in H.
      rewrite <- !concat_cons_after in H.
      destruct (app_sep_inj _ _ _ _ _ Hpf Hpg H) as [Hitem Hrest].
      f_equal; [by apply hash_item_inj|].
      by apply IH.
Qed.

Lemma onDocChanged_length tabIndex newCode prev :
  length (onDocChanged tabIndex newCode prev) = length prev.
Proof. unfold onDocChanged. by rewrite length_imap. Qed.

Lemma onDocChanged_names tabIndex newCode prev :
  name <$> onDocChanged tabIndex newCode prev = name <$> prev.
Proof.
  unfold onDocChanged. apply list_eq. intros i.
  rewrite !list_lookup_fmap, list_lookup_imap.
  destruct (prev !! i); simpl; [|done]. by destruct (i =? tabIndex)%nat.
Qed.

(** The update listener of the editor keeps the number of files and
    their names, gives the file of the tab the new code, leaves every other
    file as it was, and changes nothing when the tab does not exist. *)
Lemma onDocChanged_edits_one_file (tabIndex : nat) (newCode : string)
    (prev : list VirtualFile) :
  let next := onDocChanged tabIndex newCode prev in
  length next = length prev
  ∧ name <$> next = name <$> prev
  ∧ next !! tabIndex
    = (λ f, {| name := name f; code := newCode |}) <$> prev !! tabIndex
  ∧ (∀ i, i ≠ tabIndex → next !! i = prev !! i)
  ∧ ((length prev ≤ tabIndex)%nat → next = prev).
Proof.
  intros next. unfold next. split_and!;
    [apply onDocChanged_length|apply onDocChanged_names|..];
    unfold onDocChanged.
  - rewrite list_lookup_imap. destruct (prev !! tabIndex); simpl; [|done].
    by rewrite Nat.eqb_refl.
  - intros i Hi. rewrite list_lookup_imap.
    destruct (prev !! i); simpl; [|done].
    by apply Nat.eqb_neq in Hi as ->.
  - intros Hlen. apply list_eq. intros i. rewrite list_lookup_imap.
    destruct (prev !! i) eqn:Hi; simpl; [|done].
    apply lookup_lt_Some in Hi.
    assert (i ≠ tabIndex) as Hne by lia.
    by apply Nat.eqb_neq in Hne as ->.
Qed.

Lemma onDocChanged_back i a prev f :
  prev !! i = Some f →
  onDocChanged i (code f) (onDocChanged i a prev) = prev.
Proof.
  intros Hf. unfold onDocChanged. apply list_eq. intros k.
  rewrite !list_lookup_imap.
  destruct (prev !! k) as [g|] eqn:Hk; simpl; [|done].
  destruct (Nat.eqb_spec k i) as [->|Hi]; simpl; [|done].
  rewrite Hf in Hk. injection Hk as ->. by destruct g.
Qed.

(** X3: edits of the files through the editor compose: of two edits of
    the same tab the last one wins, edits of different tabs commute, an
    edit followed by an edit back to the code the file had gives the
    files as they were, and an edit of a tab that does not exist changes
    nothing; no edit changes the names of the files. *)
Theorem onDocChanged_compose (i j : nat) (a b : string)
    (prev : list VirtualFile) :
  onDocChanged i b (onDocChanged i a prev) = onDocChanged i b prev
  ∧ (i ≠ j →
     onDocChanged i a (onDocChanged j b prev)
     = onDocChanged j b (onDocChanged i a prev))
  ∧ (∀ f, prev !! i = Some f →
       onDocChanged i (code f) (onDocChanged i a prev) = prev)
  ∧ ((length prev ≤ i)%nat → onDocChanged i a prev = prev)
  ∧ name <$> onDocChanged i a prev = name <$> prev.
Proof.
  split_and!; [| |apply onDocChanged_back| |apply onDocChanged_names];
    unfold onDocChanged.
  - apply list_eq. intros k. rewrite !list_lookup_imap.
    destruct (prev !! k); simpl; [|done]. by destruct (k =? i)%nat.
  - intros Hij. apply list_eq. intros k. rewrite !list_lookup_imap.
    destruct (prev !! k); simpl; [|done].
    destruct (Nat.eqb_spec k i) as [Hi|Hi], (Nat.eqb_spec k j) as [Hj|Hj];
      simpl; [congruence|done..].
  - intros Hlen. apply list_eq. intros k. rewrite list_lookup_imap.
    destruct (prev !! k) eqn:Hk; simpl; [|done].
    apply lookup_lt_Some in Hk.
    assert (k ≠ i) as Hne by lia.
    by apply Nat.eqb_neq in Hne as ->.
Qed.

(** X4: the entry point of a run is the first file named main.luat when
    there is one and the first file otherwise; it is one of the files, and
    it is missing only when there is no file. *)
Theorem entryOf_main_or_first (fs : list VirtualFile) :
  (entryOf fs = None ↔ fs = [])
  ∧ (∀ f, entryOf fs = Some f → f ∈ fs)
  ∧ (∀ pre f post,
       fs = pre ++ f :: post → name f = "main.luat" →
       Forall (λ g, name g ≠ "main.luat") pre →
       entryOf fs = Some f)
  ∧ (∀ f rest,
       fs = f :: rest → Forall (λ g, name g ≠ "main.luat") fs →
       entryOf fs = Some f).
Proof.
  unfold entryOf. split_and!.
  - destruct fs as [|f fs]; [done|]. simpl.
    destruct (String.eqb (name f) "main.luat"); [done|].
    by destruct (List.find _ fs).
  - intros f. destruct (List.find _ fs) as [g|] eqn:Hfind.
    + intros [= <-]. apply List.find_some in Hfind as [Hin _].
      by apply list_elem_of_In.
    + destruct fs as [|g fs]; [done|]. intros [= <-]. by left.
  - intros pre f post -> Hf Hpre.
    assert (List.find (λ f, String.eqb (name f) "main.luat")
              (pre ++ f :: post) = Some f) as ->; [|done].
    induction Hpre as [|g pre Hg _ IH]; simpl.
    + by rewrite Hf.
    + by apply String.eqb_neq in Hg as ->.
  - intros f rest -> Hall.
    assert (List.find (λ f, String.eqb (name f) "main.luat") (f :: rest)
            = None) as ->; [|done].
    induction Hall as [|g gs Hg _ IH]; [done|]. simpl.
    by apply String.eqb_neq in Hg as ->.
Qed.

Lemma reset_names (p : Props) (s : State) :
  name <$> files (reset p s)
  = name <$> getInitialFiles (initialCode p) (initialFiles p).
Proof.
  unfold reset. simpl.
  destruct (editorView s) as [doc|]; [|done].
  destruct (getInitialFiles _ _) as [|f0 rest]; [done|].
  destruct (_ && _); [done|]. apply onDocChanged_names.
Qed.

Lemma getInitialFiles_length c fs : (0 < length (getInitialFiles c fs))%nat.
Proof.
  unfold getInitialFiles. destruct fs as [|f fs]; simpl; [|lia].
  destruct (negb _); simpl; lia.
Qed.

Lemma doc_text_no_return s :
  has_char "013" s = false → doc_text s = s.
Proof.
  induction s as [|c s IH]; [done|]. intros H.
  change (has_char "013" (String c s))
    with (Ascii.eqb "013" c || has_char "013" s) in H.
  apply orb_false_iff in H as [Hc Hs].
  rewrite Ascii.eqb_sym in Hc. cbn [doc_text]. rewrite Hc.
  f_equal. by apply IH.
Qed.

(** The files a reset leaves when an editor view on the first tab took
    the code of the first file. *)
Lemma reset_files (p : Props) (s : State) f0 rest :
  getInitialFiles (initialCode p) (initialFiles p) = f0 :: rest →
  (editorView s = None → files (reset p s) = f0 :: rest)
  ∧ (activeTab s = 0%nat →
     files (reset p s) = f0 :: rest
     ∨ files (reset p s)
       = {| name := name f0; code := doc_text (code f0) |} :: rest).
Proof.
  intros Hinit. unfold reset. simpl. rewrite Hinit. split.
  - by intros ->.
  - intros ->. destruct (editorView s) as [doc|]; [|by left].
    destruct (_ && _); [by left|right].
    unfold onDocChanged. simpl. f_equal.
    apply list_eq. intros k. rewrite list_lookup_imap.
    by destruct (rest !! k).
Qed.

Lemma reset_editor (p : Props) (s : State) doc :
  editorView (reset p s) = Some doc →
  ∃ f, files (reset p s) !! 0%nat = Some f
       ∧ (doc = code f ∨ doc = doc_text (code f)).
Proof.
  pose proof (getInitialFiles_length (initialCode p) (initialFiles p)) as Hlen.
  unfold reset. simpl.
  destruct (editorView s) as [d|]; [|by destruct (activeTab s =? 0)%nat].
  destruct (getInitialFiles _ _) as [|f0 rest]; [simpl in Hlen; lia|].
  destruct (Nat.eqb_spec (activeTab s) 0) as [->|Hne]; [|done].
  intros [= <-]. destruct (_ && _); simpl.
  - exists f0. split; [done|by right].
  - eexists. split; [done|by left].
Qed.


(** ** The bridge: what each method does to the context *)

Section Bridge.
Context (E : Emscripten).
Context (JSON_parse : string → string + Result.t).
Context (formatTime : Number → string).
Context (performance_now : nat → Z).

Ltac unfold_try :=
  unfold mbind, mret, Try_bind, Try_ret, throw, setState, now, ccall in *.
Ltac unfold_bridge :=
  unfold addTemplate, clearTemplates, renderWithError, Module_UTF8ToString,
    Module_luat_free_string in *.
Ltac unfold_run :=
  unfold runCode, runCode_outcome, runCode_try, recompile, display in *.

Local Abbreviation Ctx := (Ctx E).
Local Abbreviation addTemplate := (addTemplate E).
Local Abbreviation clearTemplates := (clearTemplates E).
Local Abbreviation renderWithError := (renderWithError E JSON_parse).
Local Abbreviation addTemplates := (addTemplates E).
Local Abbreviation sampleRender := (sampleRender E JSON_parse performance_now).
Local Abbreviation recompile := (recompile E formatTime performance_now).
Local Abbreviation runCode_try := (runCode_try E JSON_parse formatTime performance_now).
Local Abbreviation runCode := (runCode E JSON_parse formatTime performance_now).
Local Abbreviation runCode_outcome :=
  (runCode_outcome E JSON_parse formatTime performance_now).
Local Abbreviation render_calls := (render_calls JSON_parse).
Local Abbreviation sampled := (sampled performance_now).
Local Abbreviation recompiled := (recompiled formatTime).

Lemma logged_nil (c : Ctx) : logged c (mem (vm c)) [] = c.
Proof.
  destruct c as [s [m t] k]. unfold logged. simpl. by rewrite app_nil_r.
Qed.

Lemma logged_logged (c : Ctx) m1 m2 evs1 evs2 :
  logged (logged c m1 evs1) m2 evs2 = logged c m2 (evs1 ++ evs2).
Proof. unfold logged. simpl. by rewrite app_assoc. Qed.

Lemma calls_of_logged (c : Ctx) m evs : calls_of c (logged c m evs) = evs.
Proof. unfold calls_of, logged. simpl. by rewrite drop_app_length. Qed.

Lemma addTemplate_eq path source (c : Ctx) :
  addTemplate path source c =
    let r := luat_add_template E path source (mem (vm c)) in
    (if r.1 =? 0 then inr ()
     else inl ("Failed to add template: " +:+ path),
     logged c r.2 [ccall_add_template path source r.1]).
Proof.
  unfold_bridge. unfold_try.
  destruct (luat_add_template E path source (mem (vm c))) as [r m'].
  simpl. by destruct (r =? 0).
Qed.

Lemma clearTemplates_eq (c : Ctx) :
  clearTemplates c =
    let r := luat_clear_templates E (mem (vm c)) in
    (inr (), logged c r.2 [ccall_clear_templates r.1]).
Proof.
  unfold_bridge. unfold_try.
  by destruct (luat_clear_templates E (mem (vm c))) as [r m'].
Qed.

Lemma renderWithError_eq entry contextJson (c : Ctx) :
  renderWithError entry contextJson c =
    let r := luat_render_with_error E entry contextJson (mem (vm c)) in
    let ptr := r.1 in
    if ptr =? 0 then
      (inr Internal_error,
       logged c r.2 [ccall_render_with_error entry contextJson 0])
    else
      let text := UTF8ToString E ptr r.2 in
      (JSON_parse text,
       logged c (_luat_free_string E ptr r.2)
         [ccall_render_with_error entry contextJson ptr;
          call_UTF8ToString ptr text; call_free_string ptr]).
Proof.
  unfold_bridge. unfold_try.
  destruct (luat_render_with_error E entry contextJson (mem (vm c)))
    as [ptr m'].
  simpl. destruct (Z.eqb_spec ptr 0) as [->|Hp]; [done|].
  unfold logged. simpl. rewrite <- !app_assoc. simpl.
  by destruct (JSON_parse (UTF8ToString E ptr m')).
Qed.

Lemma addTemplates_cons f fs (c : Ctx) :
  addTemplates (f :: fs) c =
    match addTemplate (name f) (code f) c with
    | (inr _, c1) => addTemplates fs c1
    | (inl e, c1) => (inl e, c1)
    end.
Proof. reflexivity. Qed.

(** The loop over the files: every file added, or the files before the
    first refused one and the refused one. *)
Lemma addTemplates_inv fs (c c' : Ctx) r :
  addTemplates fs c = (r, c') →
  (r = inr () ∧ ∃ m, c' = logged c m (added <$> fs))
  ∨ ∃ m pre f post k,
      fs = pre ++ f :: post ∧ k ≠ 0
      ∧ r = inl ("Failed to add template: " +:+ name f)
      ∧ c' = logged c m
               ((added <$> pre) ++ [ccall_add_template (name f) (code f) k]).
Proof.
  revert c. induction fs as [|f fs IH]; intros c H.
  - injection H as <- <-. left. split; [done|].
    exists (mem (vm c)). by rewrite logged_nil.
  - rewrite addTemplates_cons, addTemplate_eq in H. simpl in H.
    destruct (luat_add_template E (name f) (code f) (mem (vm c)))
      as [k m1] eqn:Hk.
    simpl in H. destruct (Z.eqb_spec k 0) as [->|Hne].
    + apply IH in H as [[-> [m ->]]|(m & pre & g & post & k & -> & ? & -> & ->)].
      * left. split; [done|]. exists m. by rewrite logged_logged.
      * right. exists m, (f :: pre), g, post, k.
        split_and!; [done..|]. by rewrite logged_logged.
    + injection H as <- <-. right. exists m1, [], f, fs, k. done.
Qed.

Lemma sampleRender_S n ef samples res (c : Ctx) :
  sampleRender (S n) ef samples res c =
    match ef with
    | None => (inl TypeError_undefined, ticked 1 c)
    | Some f =>
        match renderWithError (name f) empty_context (ticked 1 c) with
        | (inr r, c1) =>
            sampleRender n ef
              (samples ++ [performance_now (ticks c1) - performance_now (ticks c)])
              (Some r) (ticked 1 c1)
        | (inl e, c1) => (inl e, c1)
        end
    end.
Proof.
  unfold ticked. simpl. unfold_try. rewrite Nat.add_1_r.
  destruct ef as [f|]; [|done].
  destruct (renderWithError _ _ _) as [[e|r] c1]; [done|].
  by rewrite Nat.add_1_r.
Qed.

Lemma ticked_logged k (c : Ctx) m evs :
  ticked k (logged c m evs) = logged (ticked k c) m evs.
Proof. reflexivity. Qed.

Lemma ticked_ticked j k (c : Ctx) : ticked k (ticked j c) = ticked (j + k) c.
Proof. unfold ticked. simpl. by rewrite Nat.add_assoc. Qed.

(** One render either returns a result with its calls logged, or throws
    after the buffer was released; it reads no clock and touches no
    state of the component. *)
Lemma renderWithError_inv entry contextJson (c c' : Ctx) r :
  renderWithError entry contextJson c = (r, c') →
  ∃ m evs,
    c' = logged c m evs
    ∧ List.filter is_registry_call evs = []
    ∧ match r with
      | inr res => render_calls entry contextJson res evs
      | inl _ => True
      end.
Proof.
  rewrite renderWithError_eq. simpl.
  destruct (luat_render_with_error E entry contextJson (mem (vm c)))
    as [ptr m1]. simpl.
  destruct (Z.eqb_spec ptr 0) as [->|Hp]; intros [= <- <-].
  - eexists _, _. split_and!; [done..|]. by left.
  - eexists _, _. split_and!; [done..|].
    destruct (JSON_parse _) as [e|res] eqn:Hparse; [done|].
    right. by exists ptr, (UTF8ToString E ptr m1).
Qed.

(** The sampling loop when it completes: [n] renders of the entry with the
    empty context, two clock readings around each. *)
Lemma sampleRender_ok n ef samples res (c c' : Ctx) samples' res' :
  sampleRender n ef samples res c = (inr (samples', res'), c') →
  ∃ m (groups : list (Result.t * list Event)),
    length groups = n
    ∧ Forall (λ g, ∃ f, ef = Some f
                        ∧ render_calls (name f) empty_context g.1 g.2) groups
    ∧ c' = ticked (2 * n) (logged c m (concat (snd <$> groups)))
    ∧ samples' = samples ++ (sampled (ticks c) <$> seq 0 n)
    ∧ res' = default res (last (Some <$> (fst <$> groups))).
Proof.
  revert samples res c. induction n as [|n IH]; intros samples res c H.
  - injection H as <- <- <-. exists (mem (vm c)), [].
    split_and!; [done..| |by rewrite app_nil_r|done].
    simpl. rewrite logged_nil. unfold ticked.
    destruct c; simpl. by rewrite Nat.add_0_r.
  - rewrite sampleRender_S in H. destruct ef as [f|]; [|done].
    destruct (renderWithError _ _ _) as [[e|r] c1] eqn:Hr; [done|].
    apply renderWithError_inv in Hr as (m1 & evs & -> & _ & Hcalls).
    apply IH in H as (m & groups & Hlen & Hall & -> & -> & ->).
    exists m, ((r, evs) :: groups). split_and!.
    + simpl. by rewrite Hlen.
    + constructor; [by exists f|done].
    + simpl. rewrite !ticked_logged, !logged_logged, !ticked_ticked.
      do 2 f_equal. lia.
    + rewrite <- app_assoc. f_equal. simpl. f_equal.
      * unfold sampled. simpl. by rewrite Nat.add_0_r, Nat.add_1_r.
      * rewrite <- seq_shift, <- list_fmap_compose.
        apply list_fmap_ext. intros _ i _. unfold sampled. simpl.
        f_equal; f_equal; lia.
    + rewrite !fmap_cons, last_cons. simpl. by destruct (last _).
Qed.

(** The sampling loop, however it ends: clock readings and calls that are
    not registry calls. *)
Lemma sampleRender_frame n ef samples res (c c' : Ctx) r :
  sampleRender n ef samples res c = (r, c') →
  ∃ m evs k,
    c' = ticked k (logged c m evs) ∧ List.filter is_registry_call evs = [].
Proof.
  revert samples res c. induction n as [|n IH]; intros samples res c H.
  - injection H as <- <-. exists (mem (vm c)), [], 0%nat.
    rewrite logged_nil. unfold ticked. destruct c; simpl.
    by rewrite Nat.add_0_r.
  - rewrite sampleRender_S in H. destruct ef as [f|].
    + destruct (renderWithError _ _ _) as [[e|r'] c1] eqn:Hr.
      * injection H as <- <-.
        apply renderWithError_inv in Hr as (m1 & evs & -> & Hreg & _).
        by exists m1, evs, 1%nat.
      * apply renderWithError_inv in Hr as (m1 & evs & -> & Hreg & _).
        apply IH in H as (m & evs' & k & -> & Hreg').
        exists m, (evs ++ evs'), (1 + 1 + k)%nat. split.
        -- rewrite !ticked_logged, !logged_logged, !ticked_ticked. done.
        -- rewrite List.filter_app, Hreg, Hreg'. done.
    + injection H as <- <-. exists (mem (vm c)), [], 1%nat.
      by rewrite logged_nil.
Qed.

(** ** The run: its two branches and its outcome *)

Lemma recompile_hit fs h (c : Ctx) :
  strict_ne (lastCompiledRef (st c)) h = false →
  recompile fs h c = (inr (), shown (setCached true) c).
Proof. intros H. unfold_run. unfold_try. by rewrite H. Qed.

Lemma recompile_miss fs h (c c1 : Ctx) r :
  strict_ne (lastCompiledRef (st c)) h = true →
  recompile fs h c = (r, c1) →
  ∃ s m,
    (r = inr ()
     ∧ c1 = shown (recompiled h (performance_now (ticks c + 1)
                                 - performance_now (ticks c)))
              (ticked 2 (logged c m (ccall_clear_templates s :: (added <$> fs)))))
    ∨ ∃ pre f post k,
        fs = pre ++ f :: post ∧ k ≠ 0
        ∧ r = inl ("Failed to add template: " +:+ name f)
        ∧ c1 = ticked 1 (logged c m
                 (ccall_clear_templates s
                  :: (added <$> pre) ++ [ccall_add_template (name f) (code f) k])).
Proof.
  intros Hmiss H. unfold_run. unfold_try. rewrite Hmiss in H.
  change (clearTemplates ?c) with (clearTemplates c) in H.
  rewrite clearTemplates_eq in H. simpl in H.
  destruct (luat_clear_templates E (mem (vm c))) as [s m0]. simpl in H.
  destruct (addTemplates fs _) as [[e|[]] c2] eqn:Hadd.
  - injection H as <- <-.
    apply addTemplates_inv in Hadd
      as [[? _]|(m & pre & f & post & k & -> & Hk & [= ->] & ->)]; [done|].
    exists s, m. right. exists pre, f, post, k. split_and!; [done..|].
    unfold ticked, logged. simpl. rewrite <- app_assoc, Nat.add_1_r. done.
  - injection H as <- <-.
    apply addTemplates_inv in Hadd as [[_ [m ->]]|(?&?&?&?&?&?&?&?&?)]; [|done].
    exists s, m. left. split; [done|].
    unfold shown, recompiled, ticked, logged. simpl.
    rewrite <- app_assoc. do 2 f_equal; [|lia].
    do 3 f_equal. f_equal; f_equal; lia.
Qed.

Lemma runCode_try_eq fs h (c : Ctx) :
  runCode_try fs h c =
    match recompile fs h c with
    | (inl e, c1) => (inl e, c1)
    | (inr _, c1) =>
        match sampleRender 3 (entryOf fs) [] None c1 with
        | (inl e, c2) => (inl e, c2)
        | (inr (samples, result), c2) =>
            let c3 := shown (setRenderTime (Some (formatTime (Math_min samples)))) c2 in
            match result with
            | None => (inl TypeError_undefined, c3)
            | Some res => (inr res, shown (displayed res) c3)
            end
        end
    end.
Proof.
  unfold runCode_try. unfold mbind at 1. unfold Try_bind at 1.
  destruct (recompile fs h c) as [[e|[]] c1]; [done|].
  unfold mbind at 1. unfold Try_bind at 1.
  destruct (sampleRender 3 (entryOf fs) [] None c1)
    as [[e|[samples [res|]]] c2]; [done| |done].
  unfold display, displayed, shown. unfold_try. simpl.
  by destruct (Result.success res).
Qed.

Lemma calls_of_app (c c' : Ctx) evs :
  trace (vm c') = trace (vm c) ++ evs → calls_of c c' = evs.
Proof. intros H. unfold calls_of. by rewrite H, drop_app_length. Qed.

Lemma strict_ne_same h : strict_ne (Some h) h = false.
Proof. simpl. by rewrite String.eqb_refl. Qed.

Lemma strict_ne_other h h' : h ≠ h' → strict_ne (Some h) h' = true.
Proof. intros H. simpl. by apply String.eqb_neq in H as ->. Qed.

(** A run leaves the files and the binding to the module as they are. *)
Lemma runCode_frame (c : Ctx) :
  files (st (runCode c)) = files (st c) ∧ luat (st (runCode c)) = luat (st c).
Proof.
  unfold runCode. destruct (luat (st c)) eqn:Hl; [|done].
  rewrite runCode_try_eq.
  rewrite <- Hl.
  destruct (recompile _ _ c) as [[e|[]] c1] eqn:Hrec.
  - simpl. destruct (strict_ne (lastCompiledRef (st c))
      (getFilesHash (files (st c)))) eqn:Hne.
    + apply recompile_miss in Hrec as (s & m & [[? _]|(?&?&?&?&?&?&?&->)]);
        done.
    + by rewrite recompile_hit in Hrec.
  - assert (files (st c1) = files (st c) ∧ luat (st c1) = luat (st c)) as [Hf Hu].
    { destruct (strict_ne (lastCompiledRef (st c))
        (getFilesHash (files (st c)))) eqn:Hne.
      - apply recompile_miss in Hrec as (s & m & [[_ ->]|(?&?&?&?&?&?&?&?)]);
          done.
      - rewrite recompile_hit in Hrec by done. by injection Hrec as <-. }
    destruct (sampleRender _ _ _ _ c1) as [[e|[samples res]] c2] eqn:Hs;
      apply sampleRender_frame in Hs as (m & evs & k & -> & _).
    + simpl. by rewrite Hf, Hu.
    + destruct res as [res|]; simpl; [|by rewrite Hf, Hu].
      unfold displayed. destruct (Result.success res); simpl; by rewrite Hf, Hu.
Qed.

(** A run whose stored hash is that of the current files: no registry
    call, and the run is marked as cached. *)
Lemma runCode_hit (c : Ctx) :
  luat (st c) ≠ None →
  strict_ne (lastCompiledRef (st c)) (getFilesHash (files (st c))) = false →
  cached (st (runCode c)) = true
  ∧ List.filter is_registry_call (calls_of c (runCode c)) = []
  ∧ lastCompiledRef (st (runCode c)) = lastCompiledRef (st c).
Proof.
  intros Hl Hhit. unfold runCode. destruct (luat (st c)); [clear Hl|done].
  rewrite runCode_try_eq, recompile_hit by done.
  destruct (sampleRender _ _ _ _ _) as [[e|[samples res]] c2] eqn:Hs;
    apply sampleRender_frame in Hs as (m & evs & k & -> & Hreg).
  - simpl. split_and!; [done| |done].
    by erewrite calls_of_app.
  - destruct res as [res|]; simpl.
    + unfold displayed. destruct (Result.success res); simpl;
        (split_and!; [done| |done]); by erewrite calls_of_app.
    + split_and!; [done| |done]. by erewrite calls_of_app.
Qed.

(** A run whose stored hash is not that of the current files: the registry
    is cleared and the files are added in order; either all of them, after
    which the hash is stored and the renders follow, or up to a refused
    one, which ends the run. *)
Lemma runCode_miss (c : Ctx) :
  luat (st c) ≠ None →
    strict_ne (lastCompiledRef (st c)) (getFilesHash (files (st c))) = true →
  rebuilds c (runCode c).
Proof.
  intros Hl Hmiss. unfold rebuilds, runCode. destruct (luat (st c)); [clear Hl|done].
  rewrite runCode_try_eq.
  destruct (recompile _ _ c) as [r c1] eqn:Hrec.
  apply recompile_miss in Hrec
    as (s & m & [[-> ->]|(pre & g & post & k & Hfs & Hk & -> & ->)]); [| |done].
  - left.
    destruct (sampleRender _ _ _ _ _) as [[e|[samples res]] c2] eqn:Hs;
      apply sampleRender_frame in Hs as (m2 & evs & j & -> & Hreg).
    + exists s, evs. simpl. split_and!; [|done..].
      apply calls_of_app. simpl. by rewrite <- app_assoc.
    + exists s, evs. destruct res as [res|]; simpl.
      * unfold displayed. destruct (Result.success res); simpl;
          (split_and!; [|done..]); apply calls_of_app; simpl;
          by rewrite <- app_assoc.
      * split_and!; [|done..]. apply calls_of_app. simpl.
        by rewrite <- app_assoc.
  - right. exists s, pre, g, post, k. simpl. split_and!; [done..| |done|done|done|done].
    by apply calls_of_app.
Qed.

Lemma Math_min_least (samples : list Z) :
  samples ≠ [] →
  ∃ m, Math_min samples = Num m ∧ m ∈ samples ∧ Forall (Z.le m) samples.
Proof.
  induction samples as [|s samples IH]; [done|]. intros _.
  destruct samples as [|s' samples].
  - exists s. simpl. split_and!; [done|by left|]. constructor; [lia|done].
  - destruct IH as (m & Hm & Hin & Hle); [done|].
    exists (Z.min s m). split_and!.
    + change (Math_min (s :: s' :: samples))
        with (match Math_min (s' :: samples) with
              | Num m => Num (Z.min s m)
              | Infinity => Num s
              end).
      by rewrite Hm.
    + destruct (Z.min_spec s m) as [[_ ->]|[_ ->]]; [by left|by right].
    + constructor; [lia|].
      eapply Forall_impl; [exact Hle|]. intros x Hx. simpl in Hx. lia.
Qed.

Lemma render_calls_renders entry contextJson r evs :
  render_calls entry contextJson r evs →
  ∃ ptr, List.filter is_render_call evs
         = [ccall_render_with_error entry contextJson ptr].
Proof.
  intros [[-> _]|(ptr & text & _ & -> & _)]; by eexists.
Qed.

Lemma added_no_render fs : List.filter is_render_call (added <$> fs) = [].
Proof. induction fs as [|f fs IH]; [done|]. simpl. exact IH. Qed.

(** C4 (as amended): [addTemplate] raises an error naming the file exactly
    when the underlying call returns a non-zero status, and raises nothing
    on status zero; [clearTemplates] does not look at the status returned
    and never raises. *)
Theorem registry_calls_and_status path source (c : Ctx) :
  (addTemplate path source c).1
  = (if (luat_add_template E path source (mem (vm c))).1 =? 0 then inr ()
     else inl ("Failed to add template: " +:+ path))
  ∧ calls_of c (addTemplate path source c).2
    = [ccall_add_template path source
         (luat_add_template E path source (mem (vm c))).1]
  ∧ (clearTemplates c).1 = inr ()
  ∧ calls_of c (clearTemplates c).2
    = [ccall_clear_templates (luat_clear_templates E (mem (vm c))).1].
Proof.
  rewrite addTemplate_eq, clearTemplates_eq. simpl.
  by rewrite !calls_of_logged.
Qed.


(** C2 (as amended): a run that fails, by a throw or by a result with
    [success: false], sets the output to the empty string (the output shown
    before is not kept) and sets the error to the message thrown or to the
    error of the result. *)
Theorem failed_run_clears_output (c : Ctx) :
  luat (st c) ≠ None →
  match runCode_outcome c with
  | inl message =>
      output (st (runCode c)) = Some ""
      ∧ error (st (runCode c)) = Some message
  | inr result =>
      Result.success result = false →
      output (st (runCode c)) = Some ""
      ∧ error (st (runCode c)) = Result.error result
  end.
Proof.
  intros Hl. unfold runCode_outcome, runCode.
  destruct (luat (st c)); [clear Hl|done].
  destruct (runCode_try _ _ c) as [[message|result] c'] eqn:Hrun; simpl.
  - done.
  - intros Hfail. rewrite runCode_try_eq in Hrun.
    destruct (recompile _ _ c) as [[e|[]] c1]; [done|].
    destruct (sampleRender _ _ _ _ c1) as [[e|[samples [res|]]] c2];
      [done| |done].
    injection Hrun as -> <-. simpl. unfold displayed. by rewrite Hfail.
Qed.


(** C6 (as amended): a reset empties the stored hash, so the next run,
    whatever the files and the hash stored before the reset, is not marked
    as cached and takes the rebuild path: it clears the registry and adds
    the files in order, all of them (then storing the new hash) unless one
    is refused, which ends the run. *)
Theorem reset_forces_rebuild (p : Props) (c : Ctx) :
  luat (st c) ≠ None →
  let c0 := shown (reset p) c in
  lastCompiledRef (st c0) = None
  ∧ cached (st (runCode c0)) = false
  ∧ rebuilds c0 (runCode c0).
Proof.
  intros Hl c0. split; [done|].
  pose proof (runCode_miss c0 Hl eq_refl) as Hre. split; [|done].
  destruct Hre as [(_ & _ & _ & _ & _ & Hcached)
                  |(_ & _ & _ & _ & _ & _ & _ & _ & _ & _ & _ & Hcached)];
    [done|by rewrite Hcached].
Qed.


(** No method of the bridge calls the init entry point. *)
Lemma renderWithError_no_init entry contextJson (c c' : Ctx) r :
  renderWithError entry contextJson c = (r, c') →
  ∃ m evs, c' = logged c m evs ∧ List.filter is_init_call evs = [].
Proof.
  rewrite renderWithError_eq. simpl.
  destruct (luat_render_with_error E entry contextJson (mem (vm c)))
    as [ptr m1]. simpl.
  destruct (Z.eqb_spec ptr 0) as [->|Hp]; intros [= <- <-]; by eexists _, _.
Qed.

Lemma sampleRender_no_init n ef samples res (c c' : Ctx) r :
  sampleRender n ef samples res c = (r, c') →
  ∃ m evs k, c' = ticked k (logged c m evs) ∧ List.filter is_init_call evs = [].
Proof.
  revert samples res c. induction n as [|n IH]; intros samples res c H.
  - injection H as <- <-. exists (mem (vm c)), [], 0%nat.
    rewrite logged_nil. unfold ticked. destruct c; simpl.
    by rewrite Nat.add_0_r.
  - rewrite sampleRender_S in H. destruct ef as [f|].
    + destruct (renderWithError _ _ _) as [[e|r'] c1] eqn:Hr;
        apply renderWithError_no_init in Hr as (m1 & evs & -> & Hreg).
      * injection H as <- <-. by exists m1, evs, 1%nat.
      * apply IH in H as (m & evs' & k & -> & Hreg').
        exists m, (evs ++ evs'), (1 + 1 + k)%nat. split.
        -- rewrite !ticked_logged, !logged_logged, !ticked_ticked. done.
        -- rewrite List.filter_app, Hreg, Hreg'. done.
    + injection H as <- <-. exists (mem (vm c)), [], 1%nat.
      by rewrite logged_nil.
Qed.

Lemma added_no_init fs : List.filter is_init_call (added <$> fs) = [].
Proof. induction fs as [|f fs IH]; [done|]. simpl. exact IH. Qed.

(** A run only appends to the trace, and appends no init call. *)
Lemma runCode_extends (c : Ctx) :
  ∃ evs, trace (vm (runCode c)) = trace (vm c) ++ evs
         ∧ List.filter is_init_call evs = [].
Proof.
  unfold runCode. destruct (luat (st c)).
  2:{ exists []. by rewrite app_nil_r. }
  rewrite runCode_try_eq.
  destruct (recompile _ _ c) as [r c1] eqn:Hrec.
  assert (∃ evs1, trace (vm c1) = trace (vm c) ++ evs1
                  ∧ List.filter is_init_call evs1 = []) as (evs1 & Ht1 & Hi1).
  { destruct (strict_ne (lastCompiledRef (st c))
      (getFilesHash (files (st c)))) eqn:Hne.
    - apply recompile_miss in Hrec
        as (s & m & [[_ ->]|(pre & g & post & k & _ & _ & _ & ->)]); [| |done].
      + eexists. split; [done|]. simpl. apply added_no_init.
      + eexists. split; [done|]. simpl.
        rewrite List.filter_app, added_no_init. done.
    - rewrite recompile_hit in Hrec by done. injection Hrec as <- <-.
      exists []. by rewrite app_nil_r. }
  destruct r as [e|[]].
  { by exists evs1. }
  destruct (sampleRender _ _ _ _ c1) as [[e|[samples res]] c2] eqn:Hs;
    apply sampleRender_no_init in Hs as (m2 & evs2 & k & -> & Hi2);
    exists (evs1 ++ evs2);
    (split; [|by rewrite List.filter_app, Hi1, Hi2]).
  - simpl. by rewrite Ht1, app_assoc.
  - destruct res as [res|]; simpl; by rewrite Ht1, app_assoc.
Qed.

(** ** Further properties of a run *)

(** A run leaves alone what belongs to the editor and to the loader. *)
Lemma runCode_keeps (c : Ctx) :
  files (st (runCode c)) = files (st c)
  ∧ activeTab (st (runCode c)) = activeTab (st c)
  ∧ editorView (st (runCode c)) = editorView (st c)
  ∧ loading (st (runCode c)) = loading (st c)
  ∧ luat (st (runCode c)) = luat (st c).
Proof.
  unfold runCode. destruct (luat (st c)) eqn:Hl; [|done].
  rewrite runCode_try_eq.
  rewrite <- Hl.
  destruct (recompile _ _ c) as [[e|[]] c1] eqn:Hrec.
  - simpl. destruct (strict_ne (lastCompiledRef (st c))
      (getFilesHash (files (st c)))) eqn:Hne.
    + apply recompile_miss in Hrec as (s & m & [[? _]|(?&?&?&?&?&?&?&->)]);
        done.
    + by rewrite recompile_hit in Hrec.
  - assert (files (st c1) = files (st c)
            ∧ activeTab (st c1) = activeTab (st c)
            ∧ editorView (st c1) = editorView (st c)
            ∧ loading (st c1) = loading (st c)
            ∧ luat (st c1) = luat (st c)) as (Hf & Ha & He & Hlo & Hu).
    { destruct (strict_ne (lastCompiledRef (st c))
        (getFilesHash (files (st c)))) eqn:Hne.
      - apply recompile_miss in Hrec as (s & m & [[_ ->]|(?&?&?&?&?&?&?&?)]);
          done.
      - rewrite recompile_hit in Hrec by done. by injection Hrec as <-. }
    destruct (sampleRender _ _ _ _ c1) as [[e|[samples res]] c2] eqn:Hs;
      apply sampleRender_frame in Hs as (m & evs & k & -> & _).
    + simpl. by rewrite Hf, Ha, He, Hlo, Hu.
    + destruct res as [res|]; simpl; [|by rewrite Hf, Ha, He, Hlo, Hu].
      unfold displayed. destruct (Result.success res); simpl;
        by rewrite Hf, Ha, He, Hlo, Hu.
Qed.

(** What a run leaves in [output] and [error], by the way its [try] block
    ended. *)
Lemma runCode_shows (c : Ctx) :
  luat (st c) ≠ None →
  match runCode_outcome c with
  | inl message =>
      output (st (runCode c)) = Some ""
      ∧ error (st (runCode c)) = Some message
  | inr result =>
      output (st (runCode c))
      = (if Result.success result then Result.html result else Some "")
      ∧ error (st (runCode c))
        = (if Result.success result then None else Result.error result)
  end.
Proof.
  intros Hl. unfold runCode, runCode_outcome.
  destruct (luat (st c)); [clear Hl|done].
  destruct (runCode_try _ _ c) as [[e|r] c'] eqn:Hrun; simpl; [done|].
  rewrite runCode_try_eq in Hrun.
  destruct (recompile _ _ c) as [[e|[]] c1]; [done|].
  destruct (sampleRender _ _ _ _ c1) as [[e|[samples [res|]]] c2];
    [done| |done].
  injection Hrun as <- <-. unfold displayed.
  by destruct (Result.success res).
Qed.

Section Calls.
Context (P : list Event → Prop).
Hypothesis P_nil : P [].
Hypothesis P_app : ∀ a b, P a → P b → P (a ++ b).
Hypothesis P_clear : ∀ s, P [ccall_clear_templates s].
Hypothesis P_add : ∀ path source k, P [ccall_add_template path source k].
Hypothesis P_null : ∀ entry contextJson,
  P [ccall_render_with_error entry contextJson 0].
Hypothesis P_render : ∀ entry contextJson ptr text,
  ptr ≠ 0 →
  P [ccall_render_with_error entry contextJson ptr;
     call_UTF8ToString ptr text; call_free_string ptr].

Lemma added_calls fs : P (added <$> fs).
Proof.
  induction fs as [|f fs IH]; [done|].
  change (P ([added f] ++ (added <$> fs))). apply P_app; [apply P_add|done].
Qed.

Lemma renderWithError_calls entry contextJson (c c' : Ctx) r :
  renderWithError entry contextJson c = (r, c') →
  ∃ m evs, c' = logged c m evs ∧ P evs.
Proof.
  rewrite renderWithError_eq. simpl.
  destruct (luat_render_with_error E entry contextJson (mem (vm c)))
    as [ptr m1]. simpl.
  destruct (Z.eqb_spec ptr 0) as [->|Hp]; intros [= <- <-];
    eexists _, _; (split; [done|]); [apply P_null|by apply P_render].
Qed.

Lemma sampleRender_calls n ef samples res (c c' : Ctx) r :
  sampleRender n ef samples res c = (r, c') →
  ∃ m evs k, c' = ticked k (logged c m evs) ∧ P evs.
Proof.
  revert samples res c. induction n as [|n IH]; intros samples res c H.
  - injection H as <- <-. exists (mem (vm c)), [], 0%nat.
    rewrite logged_nil. unfold ticked. destruct c; simpl.
    by rewrite Nat.add_0_r.
  - rewrite sampleRender_S in H. destruct ef as [f|].
    + destruct (renderWithError _ _ _) as [[e|r'] c1] eqn:Hr.
      * injection H as <- <-.
        apply renderWithError_calls in Hr as (m1 & evs & -> & Hevs).
        by exists m1, evs, 1%nat.
      * apply renderWithError_calls in Hr as (m1 & evs & -> & Hevs).
        apply IH in H as (m & evs' & k & -> & Hevs').
        exists m, (evs ++ evs'), (1 + 1 + k)%nat. split.
        -- rewrite !ticked_logged, !logged_logged, !ticked_ticked. done.
        -- by apply P_app.
    + injection H as <- <-. exists (mem (vm c)), [], 1%nat.
      by rewrite logged_nil.
Qed.

(** The calls of a run, however it ends: those of the reload of the
    templates, if any, then those of the renders. *)
Lemma runCode_calls (c : Ctx) :
  ∃ evs, trace (vm (runCode c)) = trace (vm c) ++ evs ∧ P evs.
Proof.
  unfold runCode. destruct (luat (st c)).
  2:{ exists []. by rewrite app_nil_r. }
  rewrite runCode_try_eq.
  destruct (recompile _ _ c) as [r c1] eqn:Hrec.
  assert (∃ evs1, trace (vm c1) = trace (vm c) ++ evs1 ∧ P evs1)
    as (evs1 & Ht1 & Hi1).
  { destruct (strict_ne (lastCompiledRef (st c))
      (getFilesHash (files (st c)))) eqn:Hne.
    - apply recompile_miss in Hrec
        as (s & m & [[_ ->]|(pre & g & post & k & _ & _ & _ & ->)]); [| |done].
      + eexists. split; [done|].
        change (P ([ccall_clear_templates s] ++ (added <$> files (st c)))).
        apply P_app; [apply P_clear|apply added_calls].
      + eexists. split; [done|].
        change (P ([ccall_clear_templates s]
                   ++ ((added <$> pre)
                       ++ [ccall_add_template (name g) (code g) k]))).
        apply P_app; [apply P_clear|].
        apply P_app; [apply added_calls|apply P_add].
    - rewrite recompile_hit in Hrec by done. injection Hrec as <- <-.
      exists []. by rewrite app_nil_r. }
  destruct r as [e|[]].
  { by exists evs1. }
  destruct (sampleRender _ _ _ _ c1) as [[e|[samples res]] c2] eqn:Hs;
    apply sampleRender_calls in Hs as (m2 & evs2 & k & -> & Hi2);
    exists (evs1 ++ evs2); (split; [|by apply P_app]).
  - simpl. by rewrite Ht1, app_assoc.
  - destruct res as [res|]; simpl; by rewrite Ht1, app_assoc.
Qed.

End Calls.

(** X6: a run changes nothing of the component but the output, the error,
    the two times, the cached mark and the stored hash: the files, the
    active tab, the editor view, the loading flag and the binding to the
    module are as before; and the calls made before the run stay in the
    trace, in their places. *)
Theorem runCode_changes_display_only (c : Ctx) :
  (files (st (runCode c)) = files (st c)
   ∧ activeTab (st (runCode c)) = activeTab (st c)
   ∧ editorView (st (runCode c)) = editorView (st c)
   ∧ loading (st (runCode c)) = loading (st c)
   ∧ luat (st (runCode c)) = luat (st c))
  ∧ trace (vm (runCode c)) = trace (vm c) ++ calls_of c (runCode c).
Proof.
  split; [apply runCode_keeps|].
  destruct (runCode_calls (λ _, True) I (λ _ _ _ _, I) (λ _, I) (λ _ _ _, I)
              (λ _ _, I) (λ _ _ _ _ _, I) c) as (evs & Hevs & _).
  by rewrite (calls_of_app _ _ _ Hevs).
Qed.

(** X7: in every run, however it ends, each render call that returns a
    buffer is followed at once by the copy of its text and by its release,
    and nothing else is copied or released; so the run releases as many
    buffers as it was handed. *)
Theorem runCode_releases_every_buffer (c : Ctx) :
  buffers_released (calls_of c (runCode c)) = true
  ∧ count_calls is_free_call (calls_of c (runCode c))
    = count_calls hands_out_buffer (calls_of c (runCode c)).
Proof.
  split.
  - destruct (runCode_calls
                (λ evs, ∀ rest, buffers_released (evs ++ rest)
                                = buffers_released rest)) with (c := c)
      as (evs & Hevs & Hrel); try done.
    + intros a b Ha Hb rest. by rewrite <- app_assoc, Ha, Hb.
    + intros entry contextJson ptr text Hp rest. simpl.
      apply Z.eqb_neq in Hp as ->. by rewrite Z.eqb_refl.
    + rewrite (calls_of_app _ _ _ Hevs).
      specialize (Hrel []). by rewrite app_nil_r in Hrel.
  - destruct (runCode_calls
                (λ evs, count_calls is_free_call evs
                        = count_calls hands_out_buffer evs)) with (c := c)
      as (evs & Hevs & Hcount); try done.
    + intros a b Ha Hb. unfold count_calls in *.
      by rewrite !List.filter_app, !length_app, Ha, Hb.
    + intros entry contextJson ptr text Hp. unfold count_calls. simpl.
      by apply Z.eqb_neq in Hp as ->.
    + by rewrite (calls_of_app _ _ _ Hevs).
Qed.

(** X2: the hash does not tell apart two lists of two files with the same
    names in which a piece of code has moved from the end of the first
    file to the start of the second: a run on the second list, after the
    first was compiled, is taken for cached and reloads nothing. *)
Theorem moved_code_taken_for_cached (c : Ctx) (n1 n2 x y z : string) :
  luat (st c) ≠ None →
  lastCompiledRef (st c)
  = Some (getFilesHash
            [ {| name := n1; code := x +:+ "|" +:+ n2 +:+ ":" +:+ y |};
              {| name := n2; code := z |} ]) →
  files (st c)
  = [ {| name := n1; code := x |};
      {| name := n2; code := y +:+ "|" +:+ n2 +:+ ":" +:+ z |} ] →
  files (st c)
  ≠ [ {| name := n1; code := x +:+ "|" +:+ n2 +:+ ":" +:+ y |};
      {| name := n2; code := z |} ]
  ∧ cached (st (runCode c)) = true
  ∧ List.filter is_registry_call (calls_of c (runCode c)) = [].
Proof.
  intros Hl Hlast Hfiles. split.
  - rewrite Hfiles. intros [= Hx _].
    apply (f_equal String.length) in Hx.
    rewrite !string_app_length in Hx. simpl in Hx. lia.
  - destruct (runCode_hit c Hl) as (Hc & Hr & _); [|done].
    rewrite Hlast, Hfiles. unfold getFilesHash. simpl.
    rewrite !string_app_assoc. apply strict_ne_same.
Qed.

(** X8: typing in the editor and then typing back the code the active
    file had before leaves the files as they were compiled: the next run
    is taken for cached and reloads nothing. *)
Theorem edit_back_is_cached (c : Ctx) (a : string) (f : VirtualFile) :
  luat (st c) ≠ None → editorView (st c) ≠ None →
  files (st c) !! activeTab (st c) = Some f →
  lastCompiledRef (st c) = Some (getFilesHash (files (st c))) →
  let c' := shown (typeCode (code f)) (shown (typeCode a) c) in
  files (st c') = files (st c)
  ∧ cached (st (runCode c')) = true
  ∧ List.filter is_registry_call (calls_of c' (runCode c')) = [].
Proof.
  intros Hl Hed Hf Hstored c'.
  assert (files (st c') = files (st c)
          ∧ luat (st c') = luat (st c)
          ∧ lastCompiledRef (st c') = lastCompiledRef (st c))
    as (Hfiles & Hluat & Hlast).
  { unfold c', shown, typeCode. simpl.
    destruct (editorView (st c)); [|done]. simpl.
    split_and!; [|done|done]. by apply onDocChanged_back. }
  split; [done|].
  destruct (runCode_hit c') as (Hc & Hr & _); [congruence| |done].
  rewrite Hlast, Hfiles, Hstored. apply strict_ne_same.
Qed.


(** X10: what the output pane shows after a run.  A run whose [try] block
    threw shows the message in the error box; a run whose result reports
    a failure shows the error of the result; a run whose result reports
    success shows the HTML of the result, in the preview frame or in the
    HTML viewer.  In each case an empty (or missing) text counts as none:
    the pane then shows the placeholder, as before any run. *)
Theorem pane_after_run (tab : OutputTab) (c : Ctx) :
  luat (st c) ≠ None →
  pane tab (st (runCode c))
  = match runCode_outcome c with
    | inl message =>
        if String.eqb message "" then Placeholder tab (loading (st c))
        else ErrorBox message
    | inr result =>
        let text := if Result.success result then Result.html result
                    else Result.error result in
        if truthy text then
          if Result.success result then
            match tab with
            | Preview_tab => PreviewFrame (default "" text)
            | Html_tab => HtmlViewer (default "" text)
            end
          else ErrorBox (default "" text)
        else Placeholder tab (loading (st c))
    end.
Proof.
  intros Hl. pose proof (runCode_shows c Hl) as Hshow.
  destruct (runCode_keeps c) as (_ & _ & _ & Hlo & _).
  unfold pane. rewrite Hlo.
  destruct (runCode_outcome c) as [message|result].
  - destruct Hshow as [-> ->]. simpl.
    destruct (String.eqb message ""); simpl; by destruct tab.
  - destruct Hshow as [-> ->].
    destruct (Result.success result); simpl.
    + destruct (truthy (Result.html result)); by destruct tab.
    + destruct (truthy (Result.error result)); simpl; by destruct tab.
Qed.

End Bridge.

(** ** The page: one load, shared by every caller *)

Section Loader.
Context (E : Emscripten).
Context (JSON_parse : string → string + Result.t).
Context (formatTime : Number → string).
Context (performance_now : nat → Z).

Ltac unfold_page :=
  unfold loadLuatModule, script_loaded, script_failed, module_created,
    module_failed, setPromise in *.

Ltac unfold_inv := unfold page_ok, widget_ok, page_le in *.
Ltac unfold_widget := unfold run_widget in *.
Ltac cbn_keep_run := cbn -[runCode Nat.ltb].

Local Abbreviation Page := (Page E).
Local Abbreviation System := (System E).
Local Abbreviation page_ok := (page_ok E).
Local Abbreviation widget_ok := (widget_ok E).
Local Abbreviation page_le := (page_le E).
Local Abbreviation step := (step E JSON_parse formatTime performance_now).
Local Abbreviation exec := (exec E JSON_parse formatTime performance_now).
Local Abbreviation run_widget :=
  (run_widget E JSON_parse formatTime performance_now).
Local Abbreviation settle := (settle E JSON_parse formatTime performance_now).
Local Abbreviation runCode := (runCode E JSON_parse formatTime performance_now).

Lemma page_le_refl (pg : Page) : page_le pg pg.
Proof. by split. Qed.

Lemma widget_ok_mono (pg pg' : Page) w :
  page_le pg pg' → widget_ok pg w → widget_ok pg' w.
Proof.
  intros [Hm Hp] [Hl Ha]. split; [by auto|].
  destruct (awaiting w); [by auto|]. destruct Ha. by auto.
Qed.

Lemma widgets_ok_mono (pg pg' : Page) ws :
  page_le pg pg' → Forall (widget_ok pg) ws → Forall (widget_ok pg') ws.
Proof.
  intros Hle H. eapply Forall_impl; [exact H|]. intros w.
  by apply widget_ok_mono.
Qed.

(** The settled value seen by a widget is the page's one outcome. *)
Lemma settled_outcome (pg : Page) w :
  page_ok pg → widget_ok pg w → settled pg (awaiting w) = outcome pg.
Proof.
  intros (_ & _ & _ & _ & Hp) [_ Ha]. unfold settled, outcome.
  destruct (awaiting w) as [m|p].
  - destruct (promises pg) as [|[b| |m'|e] [|? ?]]; simpl in Hp;
      try done; try (destruct Hp as [Hp _]; congruence).
    destruct Hp as (-> & Hp & _). congruence.
  - destruct Ha as [-> _]. by destruct (promises pg) as [|[b| |m'|e] ?].
Qed.

Lemma page_ok_promises (pg : Page) :
  page_ok pg → (length (promises pg) ≤ 1)%nat.
Proof.
  intros (_ & _ & _ & _ & Hp).
  destruct (promises pg) as [|? [|? ?]]; simpl; [lia|lia|].
  by destruct p.
Qed.

Lemma trace_ok_init status : trace_ok [ccall_init status].
Proof. by exists status, []. Qed.

(** A call of [loadLuatModule] makes a promise only when there is none. *)
Lemma loadLuatModule_ok (pg : Page) :
  page_ok pg →
  page_ok (loadLuatModule E pg).2
  ∧ page_le pg (loadLuatModule E pg).2
  ∧ length (promises (loadLuatModule E pg).2) = 1%nat
  ∧ match (loadLuatModule E pg).1 with
    | Value m => luatModule (loadLuatModule E pg).2 = Some m
    | Pending p => p = 0%nat ∧ promises (loadLuatModule E pg).2 ≠ []
    end.
Proof.
  intros Hok. pose proof Hok as (Hi & Hs & Hc & Hl & Hp). unfold_page.
  destruct (luatModule pg) as [m|] eqn:Hm; simpl.
  { split_and!; [done|apply page_le_refl| |done].
    destruct (promises pg) as [|[b| |m'|e] [|? ?]]; simpl in Hp; try done;
      destruct Hp; congruence. }
  destruct (luatLoading pg) as [p|] eqn:Hload; simpl.
  { destruct (promises pg) as [|? [|? ?]] eqn:Heq; simpl in Hl;
      [done| |by destruct p0].
    injection Hl as ->. split_and!; [done|apply page_le_refl|done..]. }
  destruct (promises pg) as [|? ?] eqn:Heq; [|done]. simpl in Hp.
  destruct Hp as (_ & Hinst & Htags & Hcalls).
  split_and!; [|by split; simpl; [congruence|]|done..].
  unfold_inv. simpl. rewrite Hinst, Htags, Hcalls.
  split_and!; [done| |lia|done..]. destruct (window_Module pg); simpl; lia.
Qed.

Ltac page_shape pg Hp Heq :=
  destruct (promises pg) as [|[?| |?|?] [|? ?]] eqn:Heq; simpl in Hp;
  try done.

Ltac same_page :=
  split_and!; [done|apply page_le_refl|];
  match goal with H : promises _ = _ |- _ => by rewrite H end.

(** The four continuations of the async body act on the one promise. *)
Lemma script_loaded_ok p (pg : Page) :
  page_ok pg →
  page_ok (script_loaded E p pg)
  ∧ page_le pg (script_loaded E p pg)
  ∧ length (promises (script_loaded E p pg)) = length (promises pg).
Proof.
  intros Hok. pose proof Hok as (Hi & Hs & Hc & Hl & Hp). unfold_page.
  page_shape pg Hp Heq; destruct p as [|p]; simpl; try same_page.
  destruct Hp as (Hm & Hinst & Hcalls).
  split_and!; [|by split; simpl; [|rewrite ?Heq]|by rewrite ?Heq].
  unfold_inv. simpl. rewrite Hinst, Hcalls. split_and!; [done|done|lia|done..].
Qed.

Lemma script_failed_ok p (pg : Page) :
  page_ok pg →
  page_ok (script_failed E p pg)
  ∧ page_le pg (script_failed E p pg)
  ∧ length (promises (script_failed E p pg)) = length (promises pg).
Proof.
  intros Hok. pose proof Hok as (Hi & Hs & Hc & Hl & Hp). unfold_page.
  page_shape pg Hp Heq; destruct p as [|p]; simpl; try same_page.
  destruct appended; try same_page.
  destruct Hp as (Hm & Hinst & Hcalls).
  split_and!; [|by split; simpl; [|rewrite ?Heq]|by rewrite ?Heq].
  unfold_inv. simpl. rewrite Hinst. simpl.
  split_and!; [done..|]. by left.
Qed.

Lemma module_failed_ok p message (pg : Page) :
  page_ok pg →
  page_ok (module_failed E p message pg)
  ∧ page_le pg (module_failed E p message pg)
  ∧ length (promises (module_failed E p message pg)) = length (promises pg).
Proof.
  intros Hok. pose proof Hok as (Hi & Hs & Hc & Hl & Hp). unfold_page.
  page_shape pg Hp Heq; destruct p as [|p]; simpl; try same_page.
  destruct Hp as (Hm & Hinst).
  split_and!; [|by split; simpl; [|rewrite ?Heq]|by rewrite ?Heq].
  unfold_inv. simpl. rewrite Hinst. simpl.
  split_and!; [done..|]. by left.
Qed.

Lemma module_created_ok p (pg : Page) :
  page_ok pg →
  page_ok (module_created E p pg)
  ∧ page_le pg (module_created E p pg)
  ∧ length (promises (module_created E p pg)) = length (promises pg).
Proof.
  intros Hok. pose proof Hok as (Hi & Hs & Hc & Hl & Hp). unfold_page.
  page_shape pg Hp Heq; destruct p as [|p]; simpl; try same_page.
  destruct Hp as (Hm & Hinst).
  destruct (luat_init E (boot E)) as [result mem'].
  destruct (Z.eqb_spec result 0) as [->|Hr]; simpl.
  - split_and!; [|by split; simpl; [congruence|rewrite ?Heq]|by rewrite ?Heq].
    unfold_inv. simpl. rewrite Hinst. simpl.
    split_and!; [|done..|].
    + repeat constructor. apply trace_ok_init.
    + by eexists _, [].
  - split_and!; [|by split; simpl; [|rewrite ?Heq]|by rewrite ?Heq].
    unfold_inv. simpl. rewrite Hinst. simpl.
    split_and!; [|done..|].
    + repeat constructor. apply trace_ok_init.
    + right. by eexists _, _.
Qed.

(** A run of a widget works on the one instance, whose init returned
    zero, and appends to its trace. *)
Lemma run_widget_ok (pg : Page) w :
  page_ok pg → widget_ok pg w →
  page_ok (run_widget pg w).1
  ∧ page_le pg (run_widget pg w).1
  ∧ widget_ok (run_widget pg w).1 (run_widget pg w).2
  ∧ promises (run_widget pg w).1 = promises pg.
Proof.
  intros Hok Hw. pose proof Hok as (Hi & Hs & Hc & Hl & Hp).
  pose proof Hw as [Hluat Haw]. unfold run_widget.
  destruct (luat (state w)) as [i|] eqn:Hli; simpl.
  2:{ split_and!; [done|apply page_le_refl|done|done]. }
  specialize (Hluat i eq_refl).
  page_shape pg Hp Heq; try (destruct Hp; congruence).
  destruct Hp as (-> & Hm & inst & rest & Hinst & Htrace).
  assert (i = 0%nat) as -> by congruence.
  rewrite Hinst. simpl.
  set (c := {| st := state w; vm := inst; ticks := clock_reads pg |}).
  destruct (runCode_extends E JSON_parse formatTime performance_now c)
    as (evs & Hext & Hevs).
  destruct (runCode_frame E JSON_parse formatTime performance_now c)
    as [_ Hsame].
  split_and!.
  - unfold_inv. simpl. split_and!; [|done..|].
    + repeat constructor. rewrite Hext. simpl. rewrite Htrace.
      exists 0, (rest ++ evs). split_and!; [done| |done].
      rewrite Hinst in Hi. apply Forall_cons in Hi as [(s & r & Ht & Hr & _) _].
      rewrite Htrace in Ht. injection Ht as _ <-.
      by rewrite List.filter_app, Hr, Hevs.
    + eexists _, (rest ++ evs). split; [done|].
      rewrite Hext. simpl. by rewrite Htrace.
  - split; simpl; [done|by rewrite ?Heq].
  - unfold_inv. simpl. split.
    + intros j Hj. rewrite Hsame in Hj. simpl in Hj. congruence.
    + destruct (awaiting w); [done|]. by destruct Haw.
  - done.
Qed.

(** The callbacks of the mount effect bind the widget to the module only
    when the promise was fulfilled. *)
Lemma settle_ok (pg : Page) w :
  page_ok pg → widget_ok pg w →
  page_ok (settle pg w).1
  ∧ page_le pg (settle pg w).1
  ∧ widget_ok (settle pg w).1 (settle pg w).2
  ∧ promises (settle pg w).1 = promises pg.
Proof.
  intros Hok Hw. unfold settle.
  destruct (notified w).
  { split_and!; [done|apply page_le_refl|done|done]. }
  rewrite (settled_outcome pg w) by done.
  destruct (outcome pg) as [[message|m]|] eqn:Hout.
  3:{ split_and!; [done|apply page_le_refl|done|done]. }
  - destruct (mounted w); simpl;
      (split_and!; [done|apply page_le_refl|by destruct Hw|done]).
  - assert (luatModule pg = Some m) as Hm.
    { destruct Hok as (_ & _ & _ & _ & Hp). unfold outcome in Hout.
      page_shape pg Hp Heq. destruct Hp as (-> & -> & _). congruence. }
    destruct (mounted w); simpl.
    2:{ split_and!; [done|apply page_le_refl|by destruct Hw|done]. }
    match goal with
    | |- context [run_widget pg ?w1] =>
        assert (widget_ok pg w1) as Hw1
    end.
    { destruct Hw as [_ Ha]. split; [|done]. simpl. congruence. }
    destruct (autoRun (props w) && _).
    + by apply run_widget_ok.
    + simpl. split_and!; [done|apply page_le_refl|done|done].
Qed.

Lemma widget_ok_same (pg : Page) w w' :
  luat (state w') = luat (state w) → awaiting w' = awaiting w →
  widget_ok pg w → widget_ok pg w'.
Proof. intros Hl Ha [H1 H2]. split; [by rewrite Hl|by rewrite Ha]. Qed.

Lemma replace_widget_ok (s : System) k (pg' : Page) w w' :
  sys_ok s → widgets s !! k = Some w →
  page_ok pg' → page_le (page s) pg' → widget_ok pg' w' →
  promises pg' = promises (page s) →
  sys_ok {| page := pg'; widgets := <[k := w']> (widgets s) |}.
Proof.
  intros (Hpg & Hws & Hlen) Hk Hok Hle Hw' Hpr. split_and!; simpl.
  - done.
  - apply Forall_insert; [|done]. by eapply widgets_ok_mono.
  - by rewrite length_insert, Hpr.
Qed.

Lemma withWidget_ok k f (s : System) :
  sys_ok s →
  (∀ pg w, page_ok pg → widget_ok pg w →
     page_ok (f pg w).1 ∧ page_le pg (f pg w).1
     ∧ widget_ok (f pg w).1 (f pg w).2
     ∧ promises (f pg w).1 = promises pg) →
  sys_ok (withWidget E k f s).
Proof.
  intros Hs Hf. unfold withWidget.
  destruct (widgets s !! k) as [w|] eqn:Hk; [|done].
  destruct (mounted w); [|done].
  pose proof Hs as (Hpg & Hws & _).
  destruct (Hf (page s) w) as (H1 & H2 & H3 & H4); [done| |].
  { eapply Forall_lookup_1; eauto. }
  destruct (f (page s) w) as [pg' w']. by eapply replace_widget_ok.
Qed.

Lemma state_only_ok (g : Widget → Widget) (pg : Page) w :
  (∀ w, luat (state (g w)) = luat (state w) ∧ awaiting (g w) = awaiting w) →
  page_ok pg → widget_ok pg w →
  page_ok (pg, g w).1 ∧ page_le pg (pg, g w).1
  ∧ widget_ok (pg, g w).1 (pg, g w).2
  ∧ promises (pg, g w).1 = promises pg.
Proof.
  intros Hg Hok Hw. simpl. split_and!; [done|apply page_le_refl| |done].
  destruct (Hg w). by eapply widget_ok_same.
Qed.

(** Every step keeps the invariant. *)
Lemma step_ok a (s : System) : sys_ok s → sys_ok (step a s).
Proof.
  intros Hs. pose proof Hs as (Hpg & Hws & Hlen).
  destruct a as [p|k|p|p|p|p message|k|k|k newCode|k i|k|k]; simpl.
  - destruct (loadLuatModule_ok (page s) Hpg) as (H1 & H2 & H3 & H4).
    destruct (loadLuatModule E (page s)) as [a pg']. simpl in *.
    split_and!; simpl.
    + done.
    + apply Forall_app. split; [by eapply widgets_ok_mono|].
      repeat constructor; simpl; [done|done].
    + rewrite H3, length_app, Nat.add_1_r. done.
  - apply withWidget_ok; [done|]. intros pg w.
    by apply (state_only_ok (λ w, {| props := props w; state := state w;
      awaiting := awaiting w; notified := notified w; mounted := false |})).
  - destruct (script_loaded_ok p (page s) Hpg) as (H1 & H2 & H3).
    split_and!; simpl; [done|by eapply widgets_ok_mono|by rewrite H3].
  - destruct (script_failed_ok p (page s) Hpg) as (H1 & H2 & H3).
    split_and!; simpl; [done|by eapply widgets_ok_mono|by rewrite H3].
  - destruct (module_created_ok p (page s) Hpg) as (H1 & H2 & H3).
    split_and!; simpl; [done|by eapply widgets_ok_mono|by rewrite H3].
  - destruct (module_failed_ok p message (page s) Hpg) as (H1 & H2 & H3).
    split_and!; simpl; [done|by eapply widgets_ok_mono|by rewrite H3].
  - destruct (widgets s !! k) as [w|] eqn:Hk; [|done].
    destruct (settle_ok (page s) w) as (H1 & H2 & H3 & H4); [done| |].
    { eapply Forall_lookup_1; eauto. }
    destruct (settle (page s) w) as [pg' w']. by eapply replace_widget_ok.
  - apply withWidget_ok; [done|]. intros pg w.
    by apply (state_only_ok (setWidgetState _)).
  - apply withWidget_ok; [done|]. intros pg w.
    apply (state_only_ok (setWidgetState (typeCode newCode))).
    intros w0. simpl. unfold typeCode. by destruct (editorView (state w0)).
  - apply withWidget_ok; [done|]. intros pg w.
    apply (state_only_ok (λ w, if (_ : bool) then w else setWidgetState _ w)).
    intros w0. by destruct (_ || _).
  - apply withWidget_ok; [done|]. intros pg w. apply run_widget_ok.
  - apply withWidget_ok; [done|]. intros pg w.
    by apply (state_only_ok (λ w, setWidgetState (reset (props w)) w)).
Qed.

Lemma blank_ok factory : sys_ok (blank E factory).
Proof.
  unfold sys_ok, blank. simpl. split_and!; [|done|done].
  unfold_inv. simpl. split_and!; [constructor|lia|lia|done..].
Qed.

Lemma exec_ok acts (s : System) : sys_ok s → sys_ok (exec acts s).
Proof.
  revert s. induction acts as [|a acts IH]; intros s Hs; [done|].
  simpl. apply IH. by apply step_ok.
Qed.

Lemma render_after_init_true t : render_after_init true t = true.
Proof. induction t as [|[] t IH]; simpl; done. Qed.

Lemma trace_ok_checked t : trace_ok t → render_after_init false t = true.
Proof.
  intros (status & rest & -> & _ & Hrest). simpl.
  destruct (Z.eqb_spec status 0) as [->|Hne].
  - apply render_after_init_true.
  - by rewrite Hrest.
Qed.

Lemma trace_ok_render t pre e post :
  trace_ok t → t = pre ++ e :: post → is_render_call e = true →
  ccall_init 0 ∈ pre.
Proof.
  intros (status & rest & -> & _ & Hrest) Heq He.
  destruct pre as [|e0 pre]; simpl in Heq.
  - injection Heq as <- _. done.
  - injection Heq as <- ->. destruct (decide (status = 0)) as [->|Hne].
    + by left.
    + by destruct pre; specialize (Hrest Hne).
Qed.

Lemma trace_ok_one_init t : trace_ok t → count_calls is_init_call t = 1%nat.
Proof.
  intros (status & rest & -> & Hrest & _). unfold count_calls. simpl.
  by rewrite Hrest.
Qed.

Lemma fulfilled_page (pg : Page) m :
  page_ok pg → luatModule pg = Some m →
  m = 0%nat ∧ outcome pg = Some (inr 0%nat)
  ∧ ∃ inst rest, instances pg = [inst] ∧ trace inst = ccall_init 0 :: rest.
Proof.
  intros (_ & _ & _ & _ & Hp) Hm. unfold outcome.
  page_shape pg Hp Heq; try (destruct Hp; congruence).
  destruct Hp as (-> & Hm' & Hinst). split_and!; [congruence|done|done].
Qed.

(** C7: in every execution, no render call occurs in the trace of an
    instance before an init call of that instance that returned zero; a
    widget is bound to the module only when the load was fulfilled, by an
    instance whose init returned zero; and a run asked of a widget that is
    not bound (module not loaded yet, or load failed) changes nothing and
    so makes no call. *)
Theorem render_only_after_init (factory : bool) (acts : list Action) :
  let s := exec acts (blank E factory) in
  Forall (λ inst, ∀ pre e post,
            trace inst = pre ++ e :: post → is_render_call e = true →
            ccall_init 0 ∈ pre) (instances (page s))
  ∧ Forall (λ inst, render_after_init false (trace inst) = true)
      (instances (page s))
  ∧ (∀ k w i, widgets s !! k = Some w → luat (state w) = Some i →
       outcome (page s) = Some (inr i)
       ∧ ∃ inst rest, instances (page s) !! i = Some inst
                      ∧ trace inst = ccall_init 0 :: rest)
  ∧ (∀ k w, widgets s !! k = Some w → luat (state w) = None →
       step (ClickRun k) s = s).
Proof.
  intros s. assert (sys_ok s) as (Hpg & Hws & Hlen).
  { apply exec_ok, blank_ok. }
  pose proof Hpg as (Hi & _).
  split_and!.
  - eapply Forall_impl; [exact Hi|]. intros inst Hok pre e post.
    by apply trace_ok_render.
  - eapply Forall_impl; [exact Hi|]. intros inst. apply trace_ok_checked.
  - intros k w i Hk Hl.
    assert (widget_ok (page s) w) as [Hw _].
    { eapply Forall_lookup_1; eauto. }
    destruct (fulfilled_page (page s) i Hpg (Hw i Hl))
      as (-> & Hout & inst & rest & Hinst & Htrace).
    split; [done|]. exists inst, rest. by rewrite Hinst.
  - intros k w Hk Hl. simpl. unfold withWidget. rewrite Hk.
    destruct (mounted w); [|done].
    unfold_widget. rewrite Hl. rewrite list_insert_id by done. by destruct s.
Qed.

(** ** What a component keeps through its events *)

Lemma find_main_names (fs gs : list VirtualFile) :
  name <$> fs = name <$> gs →
  name <$> List.find (λ f, String.eqb (name f) "main.luat") fs
  = name <$> List.find (λ f, String.eqb (name f) "main.luat") gs.
Proof.
  revert gs. induction fs as [|f fs IH]; intros [|g gs] H; try done.
  rewrite !fmap_cons in H. injection H as Hn Hrest. simpl. rewrite Hn.
  destruct (String.eqb (name g) "main.luat"); simpl; [by rewrite Hn|].
  by apply IH.
Qed.

(** The name of the entry point depends on the names of the files only. *)
Lemma entryOf_names (fs gs : list VirtualFile) :
  name <$> fs = name <$> gs →
  name <$> entryOf fs = name <$> entryOf gs.
Proof.
  intros H. pose proof (find_main_names fs gs H) as Hfind. unfold entryOf.
  destruct (List.find _ fs), (List.find _ gs); try done.
  destruct fs, gs; try done. rewrite !fmap_cons in H.
  injection H as Hn _. simpl. by rewrite Hn.
Qed.

Lemma session_ok_run (pg : Page) w :
  session_ok w → session_ok (run_widget pg w).2.
Proof.
  intros Hw. pose proof Hw as (Hn & Ha & Hlo & Hdoc). unfold_widget.
  destruct (luat (state w)) as [i|] eqn:Hl; [|done].
  destruct (instances pg !! i) as [inst|]; [|done]. simpl.
  set (c := {| st := state w; vm := inst; ticks := clock_reads pg |}).
  destruct (runCode_keeps E JSON_parse formatTime performance_now c)
    as (Hf & Hat & Hed & Hld & Hlu).
  unfold session_ok. simpl. rewrite Hf, Hat, Hed, Hld, Hlu. simpl.
  split_and!; [done|done| |done]. intros _. by apply Hlo.
Qed.

Lemma session_ok_settle (pg : Page) w :
  session_ok w → session_ok (settle pg w).2.
Proof.
  intros Hw. unfold settle.
  destruct (notified w); [done|].
  destruct (settled pg (awaiting w)) as [[message|m]|]; [| |done].
  - destruct (mounted w); simpl; [|done].
    destruct Hw as (Hn & Ha & Hlo & Hdoc). by split_and!.
  - destruct (mounted w); simpl; [|done].
    match goal with
    | |- context [run_widget pg ?w1] => assert (session_ok w1) as Hw1
    end.
    { destruct Hw as (Hn & Ha & Hlo & Hdoc). by split_and!. }
    destruct (autoRun (props w) && _); [by apply session_ok_run|done].
Qed.

Lemma withWidget_session k f (s : System) :
  Forall session_ok (widgets s) →
  (∀ pg w, session_ok w → session_ok (f pg w).2) →
  Forall session_ok (widgets (withWidget E k f s)).
Proof.
  intros Hs Hf. unfold withWidget.
  destruct (widgets s !! k) as [w|] eqn:Hk; [|done].
  destruct (mounted w); [|done].
  specialize (Hf (page s) w). destruct (f (page s) w) as [pg' w'].
  simpl in *. apply Forall_insert; [done|].
  apply Hf. eapply Forall_lookup_1; eauto.
Qed.

Lemma session_ok_step a (s : System) :
  Forall session_ok (widgets s) → Forall session_ok (widgets (step a s)).
Proof.
  intros Hs.
  destruct a as [p|k|p|p|p|p message|k|k|k newCode|k i|k|k]; simpl;
    try done.
  - destruct (loadLuatModule E (page s)) as [a pg']. simpl.
    apply Forall_app. split; [done|]. constructor; [|constructor].
    unfold session_ok. simpl.
    split_and!; [done|apply getInitialFiles_length|done|done].
  - apply withWidget_session; [done|]. by intros pg w Hw.
  - destruct (widgets s !! k) as [w|] eqn:Hk; [|done].
    pose proof (session_ok_settle (page s) w) as Hw.
    destruct (settle (page s) w) as [pg' w']. simpl in *.
    apply Forall_insert; [done|]. apply Hw. eapply Forall_lookup_1; eauto.
  - apply withWidget_session; [done|]. intros pg w (Hn & Ha & Hlo & Hdoc).
    unfold session_ok. simpl. split_and!; [done..|].
    intros doc [= <-].
    destruct (lookup_lt_is_Some_2 _ _ Ha) as [f Hf]. rewrite Hf.
    exists f. split; [done|by right].
  - apply withWidget_session; [done|]. intros pg w (Hn & Ha & Hlo & Hdoc).
    unfold session_ok, typeCode. simpl.
    destruct (editorView (state w)) eqn:Hed; simpl.
    2:{ split_and!; [done..|]. intros doc Hd. congruence. }
    rewrite onDocChanged_length, onDocChanged_names.
    split_and!; [done..|]. intros doc [= <-].
    destruct (lookup_lt_is_Some_2 _ _ Ha) as [f Hf].
    unfold onDocChanged. rewrite list_lookup_imap, Hf. simpl.
    rewrite Nat.eqb_refl. eexists. split; [done|by left].
  - apply withWidget_session; [done|]. intros pg w (Hn & Ha & Hlo & Hdoc).
    simpl.
    destruct (i =? activeTab (state w))%nat; simpl; [done|].
    destruct (Nat.leb_spec (length (files (state w))) i); simpl; [done|].
    unfold session_ok. simpl. by split_and!.
  - apply withWidget_session; [done|]. intros pg w. apply session_ok_run.
  - apply withWidget_session; [done|]. intros pg w (Hn & Ha & Hlo & Hdoc).
    pose proof (reset_names (props w) (state w)) as Hnames.
    pose proof (getInitialFiles_length (initialCode (props w))
                  (initialFiles (props w))) as Hlen.
    rewrite <- (length_fmap name), <- Hnames, length_fmap in Hlen.
    pose proof (reset_editor (props w) (state w)) as Hed.
    unfold session_ok. simpl.
    split_and!; [exact Hnames|exact Hlen|exact Hlo|exact Hed].
Qed.

Lemma session_ok_exec acts (s : System) :
  Forall session_ok (widgets s) → Forall session_ok (widgets (exec acts s)).
Proof.
  revert s. induction acts as [|a acts IH]; intros s Hs; [done|].
  simpl. apply IH. by apply session_ok_step.
Qed.

(** X11: in every execution each component keeps the names (and the
    number) of its initial files, its active tab is the index of one of
    its files, and a run finds its entry point, whose name is that of the
    entry point of the initial files. *)
Theorem file_names_are_fixed (factory : bool) (acts : list Action) :
  let s := exec acts (blank E factory) in
  Forall (λ w,
    let initial :=
      getInitialFiles (initialCode (props w)) (initialFiles (props w)) in
    name <$> files (state w) = name <$> initial
    ∧ (activeTab (state w) < length (files (state w)))%nat
    ∧ entryOf (files (state w)) ≠ None
    ∧ name <$> entryOf (files (state w)) = name <$> entryOf initial)
    (widgets s).
Proof.
  intros s. assert (Forall session_ok (widgets s)) as Hs.
  { apply session_ok_exec. constructor. }
  eapply Forall_impl; [exact Hs|]. intros w (Hn & Ha & _ & _). simpl.
  split_and!; [done|done| |by apply entryOf_names].
  unfold entryOf. destruct (files (state w)) as [|f fs]; simpl in *; [lia|].
  destruct (String.eqb (name f) "main.luat"); [done|].
  by destruct (List.find _ fs).
Qed.

(** X12: in every execution a component that is bound to the module is no
    longer loading, so the Run button is disabled exactly while the
    component is not bound. *)
Theorem run_enabled_once_bound (factory : bool) (acts : list Action) :
  let s := exec acts (blank E factory) in
  Forall (λ w,
    (luat (state w) ≠ None → loading (state w) = false)
    ∧ (run_disabled (state w) = true ↔ luat (state w) = None))
    (widgets s).
Proof.
  intros s. assert (Forall session_ok (widgets s)) as Hs.
  { apply session_ok_exec. constructor. }
  eapply Forall_impl; [exact Hs|]. intros w (_ & _ & Hlo & _). simpl.
  split; [done|]. unfold run_disabled.
  destruct (luat (state w)) as [i|].
  - rewrite Hlo by done. done.
  - by rewrite orb_true_r.
Qed.

(** ** Once the load has settled *)

Lemma run_widget_page (pg : Page) w :
  promises (run_widget pg w).1 = promises pg
  ∧ script_tags (run_widget pg w).1 = script_tags pg
  ∧ createModule_calls (run_widget pg w).1 = createModule_calls pg
  ∧ length (instances (run_widget pg w).1) = length (instances pg).
Proof.
  unfold_widget. destruct (luat (state w)) as [i|]; [|done].
  destruct (instances pg !! i); [|done]. simpl.
  by rewrite length_insert.
Qed.

Lemma settle_page (pg : Page) w :
  promises (settle pg w).1 = promises pg
  ∧ script_tags (settle pg w).1 = script_tags pg
  ∧ createModule_calls (settle pg w).1 = createModule_calls pg
  ∧ length (instances (settle pg w).1) = length (instances pg).
Proof.
  unfold settle. destruct (notified w); [done|].
  destruct (settled pg (awaiting w)) as [[message|m]|]; [| |done].
  - by destruct (mounted w).
  - destruct (mounted w); [|done].
    destruct (autoRun (props w) && _); [apply run_widget_page|done].
Qed.

Lemma withWidget_page k f (s : System) :
  (∀ pg w,
     promises (f pg w).1 = promises pg
     ∧ script_tags (f pg w).1 = script_tags pg
     ∧ createModule_calls (f pg w).1 = createModule_calls pg
     ∧ length (instances (f pg w).1) = length (instances pg)) →
  promises (page (withWidget E k f s)) = promises (page s)
  ∧ script_tags (page (withWidget E k f s)) = script_tags (page s)
  ∧ createModule_calls (page (withWidget E k f s))
    = createModule_calls (page s)
  ∧ length (instances (page (withWidget E k f s)))
    = length (instances (page s)).
Proof.
  intros Hf. unfold withWidget.
  destruct (widgets s !! k) as [w|]; [|done].
  destruct (mounted w); [|done].
  specialize (Hf (page s) w). by destruct (f (page s) w).
Qed.

(** Once the promise has settled no step changes it, appends a script
    tag, calls the factory or makes an instance. *)
Lemma settled_page_step a (s : System) o :
  sys_ok s → outcome (page s) = Some o →
  promises (page (step a s)) = promises (page s)
  ∧ script_tags (page (step a s)) = script_tags (page s)
  ∧ createModule_calls (page (step a s)) = createModule_calls (page s)
  ∧ length (instances (page (step a s))) = length (instances (page s)).
Proof.
  intros ((_ & _ & _ & Hl & Hp) & _ & _) Hout. unfold outcome in Hout.
  destruct a as [p|k|p|p|p|p message|k|k|k newCode|k i|k|k]; simpl;
    try (by apply withWidget_page);
    try (unfold_page;
         destruct (promises (page s)) as [|[a| |m|msg] [|? ?]] eqn:Heq;
         simpl in *; try done; destruct p; simpl; by split_and!).
  - unfold_page. destruct (luatModule (page s)); simpl; [done|].
    rewrite Hl. destruct (promises (page s)) eqn:Heq; simpl; [done|].
    by split_and!.
  - destruct (widgets s !! k) as [w|]; [|done].
    pose proof (settle_page (page s) w) as H.
    by destruct (settle (page s) w).
  - apply withWidget_page. intros pg w. apply run_widget_page.
Qed.

Lemma settled_page_exec acts (s : System) o :
  sys_ok s → outcome (page s) = Some o →
  promises (page (exec acts s)) = promises (page s)
  ∧ script_tags (page (exec acts s)) = script_tags (page s)
  ∧ createModule_calls (page (exec acts s)) = createModule_calls (page s)
  ∧ length (instances (page (exec acts s))) = length (instances (page s)).
Proof.
  revert s. induction acts as [|a acts IH]; intros s Hs Hout; [done|].
  simpl. destruct (settled_page_step a s o Hs Hout) as (H1 & H2 & H3 & H4).
  destruct (IH (step a s)) as (H1' & H2' & H3' & H4').
  { by apply step_ok. }
  { unfold outcome in *. by rewrite H1. }
  split_and!; congruence.
Qed.

(** X14: once the load has settled, with a module or with an error, it
    stays settled that way in every continuation: no step appends a
    script tag, calls the factory or makes an instance again (a failed
    load is never tried again), every caller, also one that mounts later,
    is handed that one outcome, and after a failure no component is ever
    bound to a module. *)
Theorem load_outcome_is_final (factory : bool) (before after : list Action)
    (o : string + nat) :
  let s := exec before (blank E factory) in
  let s' := exec after s in
  outcome (page s) = Some o →
  outcome (page s') = Some o
  ∧ script_tags (page s') = script_tags (page s)
  ∧ createModule_calls (page s') = createModule_calls (page s)
  ∧ length (instances (page s')) = length (instances (page s))
  ∧ Forall (λ w, settled (page s') (awaiting w) = Some o) (widgets s')
  ∧ (∀ message, o = inl message →
       Forall (λ w, luat (state w) = None) (widgets s')).
Proof.
  intros s s' Hout.
  assert (sys_ok s) as Hs by apply exec_ok, blank_ok.
  assert (sys_ok s') as (Hpg & Hws & _) by by apply exec_ok.
  destruct (settled_page_exec after s o Hs Hout) as (H1 & H2 & H3 & H4).
  assert (outcome (page s') = Some o) as Hout'.
  { unfold outcome in *. fold s' in H1. by rewrite H1. }
  split_and!; [done..| |].
  - eapply Forall_impl; [exact Hws|]. intros w Hw. simpl.
    rewrite <- Hout'. by apply settled_outcome.
  - intros message ->.
    eapply Forall_impl; [exact Hws|]. intros w [Hw _]. simpl in *.
    destruct (luat (state w)) as [i|] eqn:Hi; [|done].
    destruct (fulfilled_page (page s') i Hpg (Hw i eq_refl)) as (_ & Ho & _).
    congruence.
Qed.

Lemma session_exec_ok factory acts :
  Forall session_ok (widgets (exec acts (blank E factory))).
Proof. apply session_ok_exec. constructor. Qed.

(** X13: in every execution the document of the editor view of a
    component, when it has a view, is the text of the code of its active
    file: the code itself, or the code with every [\r\n] and every lone
    [\r] turned into [\n], which is how the editor holds a text it is
    given.  So what the editor shows is what a run hands to the engine
    whenever that code holds no carriage return, and in every case the two
    differ in line breaks at most.  Right after the view is created its
    document is the code of the active file with the line breaks so
    turned. *)
Theorem editor_shows_active_file (factory : bool) (acts : list Action) :
  let s := exec acts (blank E factory) in
  Forall (λ w, ∀ doc,
            editorView (state w) = Some doc →
            ∃ f, files (state w) !! activeTab (state w) = Some f
                 ∧ (doc = code f ∨ doc = doc_text (code f))
                 ∧ (has_char "013" (code f) = false → doc = code f))
         (widgets s)
  ∧ ∀ k w, widgets (step (EditorCreated k) s) !! k = Some w →
           mounted w = true →
           ∃ f, files (state w) !! activeTab (state w) = Some f
                ∧ editorView (state w) = Some (doc_text (code f)).
Proof.
  intros s. pose proof (session_exec_ok factory acts) as Hs. fold s in Hs.
  split.
  - eapply Forall_impl; [exact Hs|].
    intros w (_ & _ & _ & Hdoc) doc Hed.
    destruct (Hdoc doc Hed) as (f & Hf & Hcode).
    exists f. split_and!; [done..|].
    intros Hc. destruct Hcode as [->| ->]; [done|].
    by apply doc_text_no_return.
  - intros k w. simpl. unfold withWidget.
    destruct (widgets s !! k) as [w0|] eqn:Hk; [|by rewrite Hk].
    destruct (mounted w0) eqn:Hm; [|rewrite Hk; congruence].
    simpl. rewrite list_lookup_insert_eq by by eapply lookup_lt_Some.
    intros [= <-] _. simpl.
    destruct (Forall_lookup_1 _ _ _ _ Hs Hk) as (_ & Ha & _).
    destruct (lookup_lt_is_Some_2 _ _ Ha) as [f Hf].
    exists f. by rewrite Hf.
Qed.

(** ** The script tag *)

Lemma run_widget_window (pg : Page) w :
  window_Module (run_widget pg w).1 = window_Module pg.
Proof.
  unfold_widget. destruct (luat (state w)) as [i|]; [|done].
  by destruct (instances pg !! i).
Qed.

Lemma settle_window (pg : Page) w :
  window_Module (settle pg w).1 = window_Module pg.
Proof.
  unfold settle. destruct (notified w); [done|].
  destruct (settled pg (awaiting w)) as [[message|m]|]; [| |done].
  - by destruct (mounted w).
  - destruct (mounted w); [|done].
    destruct (autoRun (props w) && _); [apply run_widget_window|done].
Qed.

Lemma withWidget_window k f (s : System) :
  (∀ pg w, window_Module (f pg w).1 = window_Module pg) →
  window_Module (page (withWidget E k f s)) = window_Module (page s).
Proof.
  intros Hf. unfold withWidget.
  destruct (widgets s !! k) as [w|]; [|done].
  destruct (mounted w); [|done].
  specialize (Hf (page s) w). by destruct (f (page s) w).
Qed.

Lemma script_ok_same factory (pg pg' : Page) :
  promises pg' = promises pg → script_tags pg' = script_tags pg →
  window_Module pg' = window_Module pg →
  script_ok factory pg → script_ok factory pg'.
Proof. unfold script_ok. by intros -> -> ->. Qed.

Lemma script_ok_insert factory (pg pg' : Page) p v :
  is_Some (promises pg !! p) →
  promises pg' = <[p := v]> (promises pg) →
  script_tags pg' = script_tags pg →
  script_ok factory pg → script_ok factory pg'.
Proof.
  intros [x Hp] Hpr Hst [_ H]. apply lookup_lt_Some in Hp.
  assert (promises pg ≠ []) as Hne by (destruct (promises pg); simpl in *; [lia|done]).
  split.
  - intros Hnil. apply (f_equal length) in Hnil.
    rewrite Hpr, length_insert in Hnil. simpl in Hnil. lia.
  - intros _. rewrite Hst. by apply H.
Qed.

Lemma script_ok_step factory a (s : System) :
  sys_ok s → script_ok factory (page s) → script_ok factory (page (step a s)).
Proof.
  intros ((_ & _ & _ & Hl & _) & _ & _) Hj.
  destruct a as [p|k|p|p|p|p message|k|k|k newCode|k i|k|k]; simpl;
    try (eapply script_ok_same; [| | |exact Hj];
         [by apply withWidget_page|by apply withWidget_page
         |by apply withWidget_window]).
  - unfold_page. destruct (luatModule (page s)); simpl; [done|].
    destruct (luatLoading (page s)) eqn:Hload; simpl; [done|].
    destruct (promises (page s)) eqn:Hpr; [|done].
    destruct Hj as [Hnil _]. destruct Hnil as [Hw Hs]; [done|].
    split; simpl; [done|]. intros _. rewrite Hw, Hs. by destruct factory.
  - unfold_page. destruct (promises (page s) !! p) as [[a| |m|msg]|] eqn:Hp;
      try done.
    eapply script_ok_insert; [by eexists|done|done|done].
  - unfold_page.
    destruct (promises (page s) !! p) as [[[|]| |m|msg]|] eqn:Hp; try done.
    eapply script_ok_insert; [by eexists|done|done|done].
  - unfold_page. destruct (promises (page s) !! p) as [[a| |m|msg]|] eqn:Hp;
      try done.
    destruct (luat_init E (boot E)) as [result mem'].
    destruct (negb (result =? 0));
      (eapply script_ok_insert; [by eexists|done|done|done]).
  - unfold_page. destruct (promises (page s) !! p) as [[a| |m|msg]|] eqn:Hp;
      try done.
    eapply script_ok_insert; [by eexists|done|done|done].
  - destruct (widgets s !! k) as [w|]; [|done].
    pose proof (settle_page (page s) w) as (H1 & H2 & _).
    pose proof (settle_window (page s) w) as H3.
    destruct (settle (page s) w) as [pg' w']. simpl in *.
    by eapply script_ok_same.
  - eapply script_ok_same; [| | |exact Hj].
    + apply withWidget_page. intros pg w. apply run_widget_page.
    + apply withWidget_page. intros pg w. apply run_widget_page.
    + apply withWidget_window. intros pg w. apply run_widget_window.
Qed.

Lemma script_ok_exec factory acts (s : System) :
  sys_ok s → script_ok factory (page s) →
  script_ok factory (page (exec acts s)).
Proof.
  revert s. induction acts as [|a acts IH]; intros s Hs Hj; [done|].
  simpl. apply IH; [by apply step_ok|by apply script_ok_step].
Qed.

(** ** The one fetch-and-initialize sequence *)

Lemma run_widget_unbound (pg : Page) w :
  widget_ok pg w → luatModule pg = None → run_widget pg w = (pg, w).
Proof.
  intros [Hl _] Hm. unfold_widget.
  destruct (luat (state w)) as [i|] eqn:Hi; [|done].
  specialize (Hl i eq_refl). congruence.
Qed.

Lemma settle_unbound (pg : Page) w :
  page_ok pg → widget_ok pg w → luatModule pg = None →
  (settle pg w).1 = pg.
Proof.
  intros Hpg Hw Hm. unfold settle. destruct (notified w); [done|].
  rewrite (settled_outcome pg w Hpg Hw).
  destruct (outcome pg) as [[message|m]|] eqn:Hout; [| |done].
  - by destruct (mounted w).
  - exfalso. destruct Hpg as (_ & _ & _ & _ & Hp). unfold outcome in Hout.
    page_shape pg Hp Heq. destruct Hp as (_ & Hp & _). congruence.
Qed.

Lemma withWidget_same_page k f (s : System) :
  (∀ w, widgets s !! k = Some w → (f (page s) w).1 = page s) →
  page (withWidget E k f s) = page s.
Proof.
  intros Hf. unfold withWidget.
  destruct (widgets s !! k) as [w|]; [|done].
  destruct (mounted w); [|done].
  specialize (Hf w eq_refl). by destruct (f (page s) w).
Qed.

(** A step that leaves the promise and the number of factory calls as
    they were, and the instances too while no module is loaded, leaves
    the sequence where it was. *)
Lemma sequence_ok_keep factory (pg pg' : Page) :
  page_ok pg' → script_ok factory pg' → sequence_ok factory pg →
  promises pg' = promises pg →
  createModule_calls pg' = createModule_calls pg →
  (luatModule pg = None → instances pg' = instances pg) →
  sequence_ok factory pg'.
Proof.
  intros (_ & _ & _ & _ & Hp') [_ Hj'] Hq Hpr Hc Hinst.
  unfold sequence_ok in *. rewrite Hpr in *.
  destruct (promises pg) as [|[a| |m|msg] [|? ?]] eqn:Heq; simpl in *;
    try done.
  - destruct Hp' as (? & ? & ? & ?). done.
  - destruct Hp' as (? & ? & ?), Hq as (? & _). split_and!; auto.
  - destruct Hp' as (? & ?), Hq as (_ & ? & _).
    split_and!; auto; congruence.
  - destruct Hp' as (? & ? & ?), Hq as (_ & ? & _).
    split_and!; auto; congruence.
  - destruct Hp' as (? & _), Hq as (_ & Hm & Hq).
    rewrite Hc, (Hinst Hm). split_and!; auto.
Qed.

Lemma sequence_ok_step factory a (s : System) :
  sys_ok s → script_ok factory (page s) → sequence_ok factory (page s) →
  sequence_ok factory (page (step a s)).
Proof.
  intros Hs Hj Hq.
  pose proof (step_ok a s Hs) as (Hpg' & _ & _).
  pose proof (script_ok_step factory a s Hs Hj) as Hj'.
  destruct Hs as (Hpg & Hws & Hlen).
  destruct a as [p|k|p|p|p|p message|k|k|k newCode|k i|k|k]; simpl;
    try (by rewrite withWidget_same_page).
  - pose proof Hpg as (_ & _ & _ & Hl & _). destruct Hj as [Hnil _].
    unfold_page. destruct (luatModule (page s)); simpl; [done|].
    destruct (luatLoading (page s)) eqn:Hload; simpl; [done|].
    destruct (promises (page s)) eqn:Hpr; [|done].
    destruct Hnil as [Hw Hst]; [done|].
    unfold sequence_ok in *. rewrite Hpr in Hq. simpl.
    destruct Hq as (? & ? & ? & ?). rewrite Hw, Hst.
    split_and!; auto; by destruct factory.
  - unfold sequence_ok in *. unfold_page.
    destruct (promises (page s)) as [|[a| |m|msg] [|? ?]] eqn:Hpr;
      simpl in Hq; try done;
      destruct p as [|p]; simpl; rewrite ?Hpr; simpl; try done.
    destruct Hq as (? & ? & -> & ? & ?). by split_and!.
  - unfold sequence_ok in *. unfold_page.
    destruct (promises (page s)) as [|[[|]| |m|msg] [|? ?]] eqn:Hpr;
      simpl in Hq; try done;
      destruct p as [|p]; simpl; rewrite ?Hpr; simpl; try done.
    destruct Hq as (Hf & ? & ? & ? & ?). split_and!; [done..|].
    left. split_and!; [|done..]. by destruct factory.
  - unfold sequence_ok in *. unfold_page.
    destruct (promises (page s)) as [|[a| |m|msg] [|? ?]] eqn:Hpr;
      simpl in Hq; try done;
      destruct p as [|p]; simpl; rewrite ?Hpr; simpl; try done.
    destruct Hq as (? & ? & Hinst & ?).
    destruct (luat_init E (boot E)) as [result mem'].
    destruct (Z.eqb_spec result 0) as [->|Hne]; simpl; rewrite Hinst; simpl.
    + split_and!; [done..| |done|done]. by eexists _, _.
    + split_and!; [done..|]. right. right.
      split_and!; [done..|]. by eexists _, _.
  - unfold sequence_ok in *. unfold_page.
    destruct (promises (page s)) as [|[a| |m|msg] [|? ?]] eqn:Hpr;
      simpl in Hq; try done;
      destruct p as [|p]; simpl; rewrite ?Hpr; simpl; try done.
    destruct Hq as (? & ? & ? & ?). split_and!; [done..|]. right. by left.
  - destruct (widgets s !! k) as [w|] eqn:Hk; [|done].
    pose proof (settle_page (page s) w) as (H1 & _ & H2 & _).
    pose proof (settle_unbound (page s) w Hpg
                  (Forall_lookup_1 _ _ _ _ Hws Hk)) as H3.
    simpl in Hpg', Hj'. rewrite Hk in Hpg', Hj'.
    destruct (settle (page s) w) as [pg' w']. simpl in *.
    eapply sequence_ok_keep; [done..|]. intros Hm. by rewrite H3.
  - eapply sequence_ok_keep; [done|done|done| | |].
    + apply withWidget_page. intros pg w. apply run_widget_page.
    + apply withWidget_page. intros pg w. apply run_widget_page.
    + intros Hm. f_equal. apply withWidget_same_page. intros w Hk.
      rewrite run_widget_unbound; [done| |done].
      eapply Forall_lookup_1; eauto.
Qed.

Lemma sequence_ok_exec factory acts (s : System) :
  sys_ok s → script_ok factory (page s) → sequence_ok factory (page s) →
  sequence_ok factory (page (exec acts s)).
Proof.
  revert s. induction acts as [|a acts IH]; intros s Hs Hj Hq; [done|].
  simpl. apply IH;
    [by apply step_ok|by apply script_ok_step|by apply sequence_ok_step].
Qed.

(** A widget is bound to the module only when the load was fulfilled. *)
Lemma unbound_until_fulfilled (pg : Page) w message :
  page_ok pg → widget_ok pg w → outcome pg = Some (inl message) →
  luat (state w) = None.
Proof.
  intros (_ & _ & _ & _ & Hp) [Hl _] Hout. unfold outcome in Hout.
  destruct (luat (state w)) as [i|]; [|done].
  specialize (Hl i eq_refl).
  page_shape pg Hp Heq. destruct Hp as (Hp & _). congruence.
Qed.

(** C5 (as amended): whatever the widgets and the order of events, the
    async body of the loader is started once, by the first call and by no
    other, also after a failure; every call, a concurrent one included,
    awaits that one run and settles to its one outcome.  Of that run
    nothing is done twice and the numbers are exact: one script tag is
    appended as soon as there is a caller, none when the page held the
    factory already; the factory has been called once from the moment
    the script promise resolved, and not before; the instance exists,
    with its one init call, from the moment the factory answered
    ([sequence_ok]).  When the load is fulfilled there has been exactly
    one factory call and there is exactly one instance, whose init
    returned zero, held by the singleton: it is what every call resolves
    to.  When the load is rejected (script error, factory rejection, init
    status other than zero) every call is rejected with that same error,
    no module is held and no component is bound to one. *)
Theorem one_load_shared_by_all (factory : bool) (acts : list Action) :
  let s := exec acts (blank E factory) in
  length (promises (page s)) = Nat.min 1 (length (widgets s))
  ∧ (script_tags (page s) ≤ 1)%nat
  ∧ (createModule_calls (page s) ≤ 1)%nat
  ∧ (length (instances (page s)) ≤ 1)%nat
  ∧ Forall (λ inst, count_calls is_init_call (trace inst) = 1%nat)
      (instances (page s))
  ∧ Forall (λ w, settled (page s) (awaiting w) = outcome (page s)) (widgets s)
  ∧ (∀ m, outcome (page s) = Some (inr m) →
       m = 0%nat ∧ luatModule (page s) = Some m
       ∧ ∃ inst rest, instances (page s) = [inst]
                      ∧ trace inst = ccall_init 0 :: rest)
  ∧ script_tags (page s)
    = (if factory then 0 else Nat.min 1 (length (widgets s)))%nat
  ∧ sequence_ok factory (page s)
  ∧ (∀ m, outcome (page s) = Some (inr m) →
       createModule_calls (page s) = 1%nat
       ∧ length (instances (page s)) = 1%nat)
  ∧ (∀ message, outcome (page s) = Some (inl message) →
       luatModule (page s) = None
       ∧ Forall (λ w, settled (page s) (awaiting w) = Some (inl message)
                      ∧ luat (state w) = None) (widgets s)).
Proof.
  intros s. assert (sys_ok s) as (Hpg & Hws & Hlen).
  { apply exec_ok, blank_ok. }
  assert (script_ok factory (page s)) as [Hnil Hcons].
  { apply script_ok_exec; [apply blank_ok|]. by split. }
  assert (sequence_ok factory (page s)) as Hq.
  { apply sequence_ok_exec; [apply blank_ok| |]; by split. }
  pose proof Hpg as (Hi & Hs & Hc & Hl & Hp).
  split_and!; [done..| | | | | | | |].
  - page_shape (page s) Hp Heq.
    + destruct Hp as (_ & -> & _). simpl. lia.
    + destruct Hp as (_ & -> & _). simpl. lia.
    + destruct Hp as (_ & ->). simpl. lia.
    + destruct Hp as (_ & _ & inst & rest & -> & _). simpl. lia.
    + destruct Hp as (_ & [->|(inst & st & -> & _)]); simpl; lia.
  - eapply Forall_impl; [exact Hi|]. intros inst. apply trace_ok_one_init.
  - eapply Forall_impl; [exact Hws|]. intros w. by apply settled_outcome.
  - intros m Hout. unfold outcome in Hout.
    page_shape (page s) Hp Heq. injection Hout as ->.
    destruct Hp as (-> & Hm & Hinst). done.
  - destruct (promises (page s)) as [|q qs] eqn:Hpr.
    + destruct Hnil as [_ ->]; [done|]. rewrite <- Hlen.
      by destruct factory.
    + rewrite Hcons by done. destruct factory; [done|].
      change (length (q :: qs)) with (S (length qs)) in Hlen. lia.
  - exact Hq.
  - intros m Hout. unfold outcome in Hout. unfold sequence_ok in Hq.
    page_shape (page s) Hp Heq. injection Hout as ->.
    destruct Hq as (_ & ? & (inst & rest & -> & _) & _). done.
  - intros message Hout. split.
    + unfold outcome in Hout. page_shape (page s) Hp Heq. by destruct Hp.
    + eapply Forall_impl; [exact Hws|]. intros w Hw. split.
      * by rewrite (settled_outcome (page s) w Hpg Hw).
      * by eapply unbound_until_fulfilled.
Qed.

(** X15: the loader appends its script tag only when the page does not
    hold the module factory yet: with the factory there from the start no
    script tag is ever appended, and without it exactly one is, by the
    first component that mounts. *)
Theorem script_tag_only_without_factory (factory : bool)
    (acts : list Action) :
  let s := exec acts (blank E factory) in
  script_tags (page s)
  = (if factory then 0 else Nat.min 1 (length (widgets s)))%nat.
Proof.
  intros s.
  assert (sys_ok s) as (_ & _ & Hlen) by apply exec_ok, blank_ok.
  assert (script_ok factory (page s)) as [Hnil Hcons].
  { apply script_ok_exec; [apply blank_ok|]. by split. }
  destruct (promises (page s)) as [|q qs] eqn:Hpr.
  - destruct Hnil as [_ ->]; [done|]. rewrite <- Hlen.
    by destruct factory.
  - rewrite Hcons by done. destruct factory; [done|].
    change (length (q :: qs)) with (S (length qs)) in Hlen. lia.
Qed.

(** ** The run on load *)

(** X16: a component mounted on a fresh page, once the script has loaded,
    the module was created with init status zero and the load has
    settled, is bound to the module and no longer loading; with [autoRun]
    it has then made its first run, which starts from the initial files
    with no hash stored and so reloads the templates, and without
    [autoRun] nothing but the init call has reached the engine. *)
Theorem first_run_on_load (factory : bool) (p : Props) :
  (luat_init E (boot E)).1 = 0 →
  let s := exec [Mount p; ScriptLoaded 0; ModuleCreated 0; Settle 0]
             (blank E factory) in
  let c := {| st := setLoading false (setLuat (Some 0%nat) (initialState p));
              vm := Build_Instance E (luat_init E (boot E)).2 [ccall_init 0];
              ticks := 0 |} in
  let c' := if autoRun p then runCode c else c in
  state <$> widgets s = [st c']
  ∧ instances (page s) = [vm c']
  ∧ clock_reads (page s) = ticks c'
  ∧ luat (st c') = Some 0%nat ∧ loading (st c') = false
  ∧ (autoRun p = true → rebuilds c c')
  ∧ (autoRun p = false → trace (vm c') = [ccall_init 0]).
Proof.
  intros Hinit s c c'.
  assert (state <$> widgets s = [st c'] ∧ instances (page s) = [vm c']
          ∧ clock_reads (page s) = ticks c') as (Hw & Hi & Ht).
  { unfold s, c', c. cbn_keep_run.
    destruct (luat_init E (boot E)) as [result m]. simpl in Hinit.
    subst result. cbn_keep_run.
    pose proof (getInitialFiles_length (initialCode p) (initialFiles p))
      as Hlen.
    apply Nat.ltb_lt in Hlen. rewrite Hlen, andb_true_r.
    destruct (autoRun p); cbn_keep_run; done. }
  destruct (runCode_keeps E JSON_parse formatTime performance_now c)
    as (_ & _ & _ & Hlo & Hlu).
  split_and!; [done|done|done| | | |].
  - unfold c'. destruct (autoRun p); [by rewrite Hlu|done].
  - unfold c'. destruct (autoRun p); [by rewrite Hlo|done].
  - intros Ha. unfold c'. rewrite Ha.
    by apply (runCode_miss E JSON_parse formatTime performance_now c).
  - intros Ha. unfold c'. by rewrite Ha.
Qed.

(** ** A component unmounted before the load settles *)

Lemma unmounted_withWidget k' f (s : System) k w :
  widgets s !! k = Some w → mounted w = false →
  widgets (withWidget E k' f s) !! k = Some w.
Proof.
  intros Hk Hm. unfold withWidget.
  destruct (widgets s !! k') as [w0|] eqn:Hk'; [|done].
  destruct (mounted w0) eqn:Hm0; [|done].
  destruct (f (page s) w0) as [pg' w']. simpl.
  rewrite list_lookup_insert_ne; [done|]. intros ->. congruence.
Qed.

Lemma unmounted_step a (s : System) k w :
  widgets s !! k = Some w → mounted w = false →
  ∃ w', widgets (step a s) !! k = Some w'
        ∧ state w' = state w ∧ props w' = props w ∧ mounted w' = false.
Proof.
  intros Hk Hm.
  destruct a as [p|k'|p|p|p|p message|k'|k'|k' newCode|k' i|k'|k']; simpl;
    try (by exists w);
    try (exists w; split; [by apply unmounted_withWidget|done]).
  - destruct (loadLuatModule E (page s)) as [a pg']. simpl.
    exists w. split; [|done]. by apply lookup_app_l_Some.
  - destruct (widgets s !! k') as [w0|] eqn:Hk'; [|by exists w].
    destruct (settle (page s) w0) as [pg' w'] eqn:Hset. simpl.
    destruct (decide (k' = k)) as [->|Hne].
    2:{ exists w. by rewrite list_lookup_insert_ne. }
    assert (w0 = w) as -> by congruence.
    exists w'. split.
    { apply list_lookup_insert_eq. by eapply lookup_lt_Some. }
    unfold settle in Hset. rewrite Hm in Hset.
    destruct (notified w); [by injection Hset as <- <-|].
    destruct (settled (page s) (awaiting w));
      by injection Hset as <- <-.
Qed.

(** X17: a component that was unmounted keeps its state in every
    continuation: when the load settles, its callbacks set neither the
    module nor an error, and no run is started for it, so its settling
    leaves the page as it is. *)
Theorem unmounted_widget_is_left_alone (s : System) (k : nat) (w : Widget)
    (acts : list Action) :
  widgets s !! k = Some w → mounted w = false →
  (∃ w', widgets (exec acts s) !! k = Some w'
         ∧ state w' = state w ∧ props w' = props w ∧ mounted w' = false)
  ∧ page (step (Settle k) s) = page s.
Proof.
  intros Hk Hm. split.
  - revert s w Hk Hm. induction acts as [|a acts IH]; intros s w Hk Hm.
    { by exists w. }
    simpl. destruct (unmounted_step a s k w Hk Hm) as (w1 & Hk1 & Hs1 & Hp1 & Hm1).
    destruct (IH (step a s) w1 Hk1 Hm1) as (w' & Hk' & Hs' & Hp' & Hm').
    exists w'. split_and!; [done|congruence|congruence|done].
  - simpl. rewrite Hk. unfold settle. rewrite Hm.
    destruct (notified w); [done|].
    by destruct (settled (page s) (awaiting w)).
Qed.

(** ** Two components on the one module *)

(** X18: the registry is shared by the components of a page and the
    stored hash is kept by each: after a run of one component that
    reloads the registry (its first call clears it), a run of another
    component whose stored hash still is that of its own files is taken
    for cached and reloads nothing, on the same instance. *)
Theorem cache_is_per_widget (factory : bool) (acts : list Action)
    (j k : nat) (wj wk : Widget) :
  let s := exec acts (blank E factory) in
  let s1 := step (ClickRun j) s in
  let s2 := step (ClickRun k) s1 in
  j ≠ k →
  widgets s !! j = Some wj → widgets s !! k = Some wk →
  mounted wj = true → mounted wk = true →
  luat (state wj) ≠ None → luat (state wk) ≠ None →
  strict_ne (lastCompiledRef (state wj)) (getFilesHash (files (state wj)))
  = true →
  lastCompiledRef (state wk) = Some (getFilesHash (files (state wk))) →
  ∃ inst inst1 inst2 status evs1 evs2 wk2,
    instances (page s) = [inst]
    ∧ instances (page s1) = [inst1]
    ∧ instances (page s2) = [inst2]
    ∧ trace inst1 = trace inst ++ ccall_clear_templates status :: evs1
    ∧ widgets s1 !! k = Some wk
    ∧ trace inst2 = trace inst1 ++ evs2
    ∧ List.filter is_registry_call evs2 = []
    ∧ widgets s2 !! k = Some wk2
    ∧ cached (state wk2) = true
    ∧ files (state wk2) = files (state wk).
Proof.
  intros s s1 s2 Hjk Hj Hk Hmj Hmk Hlj Hlk Hmiss Hstored.
  assert (sys_ok s) as (Hpg & Hws & _) by apply exec_ok, blank_ok.
  assert (luat (state wj) = Some 0%nat ∧ luat (state wk) = Some 0%nat
          ∧ ∃ inst, instances (page s) = [inst]) as (Hj0 & Hk0 & inst & Hinst).
  { assert (widget_ok (page s) wj) as [Hwj _].
    { eapply Forall_lookup_1; eauto. }
    assert (widget_ok (page s) wk) as [Hwk _].
    { eapply Forall_lookup_1; eauto. }
    destruct (luat (state wj)) as [ij|] eqn:Hij; [|done].
    destruct (luat (state wk)) as [ik|] eqn:Hik; [|done].
    destruct (fulfilled_page (page s) ij Hpg (Hwj ij eq_refl))
      as (-> & _ & inst & rest & Hinst & _).
    destruct (fulfilled_page (page s) ik Hpg (Hwk ik eq_refl))
      as (-> & _).
    split_and!; [done|done|by exists inst]. }
  set (c := {| st := state wj; vm := inst; ticks := clock_reads (page s) |}).
  assert (s1 = {| page := (run_widget (page s) wj).1;
                  widgets := <[j := (run_widget (page s) wj).2]> (widgets s) |})
    as Hs1.
  { unfold s1. simpl. unfold withWidget. rewrite Hj, Hmj.
    by destruct (run_widget (page s) wj). }
  assert (run_widget (page s) wj
          = ({| window_Module := window_Module (page s);
                script_tags := script_tags (page s);
                createModule_calls := createModule_calls (page s);
                instances := [vm (runCode c)];
                luatModule := luatModule (page s);
                luatLoading := luatLoading (page s);
                promises := promises (page s);
                clock_reads := ticks (runCode c) |},
             {| props := props wj; state := st (runCode c);
                awaiting := awaiting wj; notified := notified wj;
                mounted := mounted wj |})) as Hrun1.
  { unfold_widget. rewrite Hj0, Hinst. done. }
  rewrite Hrun1 in Hs1. simpl in Hs1.
  assert (widgets s1 !! k = Some wk) as Hk1.
  { rewrite Hs1. simpl. by rewrite list_lookup_insert_ne. }
  set (c2 := {| st := state wk; vm := vm (runCode c);
                ticks := ticks (runCode c) |}).
  assert (run_widget (page s1) wk
          = ({| window_Module := window_Module (page s1);
                script_tags := script_tags (page s1);
                createModule_calls := createModule_calls (page s1);
                instances := [vm (runCode c2)];
                luatModule := luatModule (page s1);
                luatLoading := luatLoading (page s1);
                promises := promises (page s1);
                clock_reads := ticks (runCode c2) |},
             {| props := props wk; state := st (runCode c2);
                awaiting := awaiting wk; notified := notified wk;
                mounted := mounted wk |})) as Hrun2.
  { unfold_widget. rewrite Hk0, Hs1. done. }
  assert (s2 = {| page := (run_widget (page s1) wk).1;
                  widgets := <[k := (run_widget (page s1) wk).2]> (widgets s1) |})
    as Hs2.
  { unfold s2. simpl. unfold withWidget. rewrite Hk1, Hmk.
    by destruct (run_widget (page s1) wk). }
  rewrite Hrun2 in Hs2. simpl in Hs2.
  destruct (runCode_extends E JSON_parse formatTime performance_now c)
    as (evs & Hext & _).
  assert (∃ status evs1, evs = ccall_clear_templates status :: evs1)
    as (status & evs1 & ->).
  { assert (luat (st c) ≠ None) as Hlc by (simpl; congruence).
    pose proof (runCode_miss E JSON_parse formatTime performance_now c Hlc
                  Hmiss) as Hreb.
    unfold rebuilds in Hreb. rewrite (calls_of_app E c _ evs Hext) in Hreb.
    destruct Hreb as [(status & rest & -> & _)
                     |(status & pre & g & post & n & _ & _ & -> & _)];
      by eexists _, _. }
  destruct (runCode_extends E JSON_parse formatTime performance_now c2)
    as (evs2 & Hext2 & _).
  assert (luat (st c2) ≠ None) as Hlc2 by (simpl; congruence).
  destruct (runCode_hit E JSON_parse formatTime performance_now c2 Hlc2)
    as (Hcached & Hreg & _).
  { simpl. rewrite Hstored. apply strict_ne_same. }
  rewrite (calls_of_app E c2 _ evs2 Hext2) in Hreg.
  destruct (runCode_frame E JSON_parse formatTime performance_now c2)
    as [Hfiles _].
  exists inst, (vm (runCode c)), (vm (runCode c2)), status, evs1, evs2.
  eexists. split_and!.
  - done.
  - by rewrite Hs1.
  - by rewrite Hs2.
  - exact Hext.
  - done.
  - exact Hext2.
  - done.
  - rewrite Hs2. simpl. apply list_lookup_insert_eq.
    rewrite Hs1. simpl. rewrite length_insert. by eapply lookup_lt_Some.
  - done.
  - done.
Qed.

End Loader.

(** ** The initial files *)

(** C10: the initial list of files of the component is never empty: a
    non-empty [files] prop is used as it is, whatever the [code] prop;
    without it a non-empty [code] prop gives the single file main.luat
    holding that code; with neither, the single file main.luat holding
    the empty string. *)
Theorem initial_files_never_empty (p : Props) :
  files (initialState p) = getInitialFiles (initialCode p) (initialFiles p)
  ∧ files (initialState p) ≠ []
  ∧ (initialFiles p ≠ [] → files (initialState p) = initialFiles p)
  ∧ (initialFiles p = [] → initialCode p ≠ "" →
       files (initialState p)
       = [ {| name := "main.luat"; code := initialCode p |} ])
  ∧ (initialFiles p = [] → initialCode p = "" →
       files (initialState p) = [ {| name := "main.luat"; code := "" |} ]).
Proof.
  destruct p as [c fs a]. simpl. unfold getInitialFiles.
  destruct fs as [|f fs]; simpl.
  - destruct (String.eqb_spec c "") as [->|Hc]; simpl; by split_and!.
  - by split_and!.
Qed.

Lemma initial_files_never_empty_witness :
  files (initialState Engine.two_files) = initialFiles Engine.two_files
  ∧ files (initialState Engine.hello)
    = [ {| name := "main.luat"; code := "<h1>Hi</h1>" |} ]
  ∧ files (initialState {| initialCode := ""; initialFiles := [];
                           autoRun := true |})
    = [ {| name := "main.luat"; code := "" |} ].
Proof.
  split_and!.
  - apply (initial_files_never_empty Engine.two_files). discriminate.
  - apply (initial_files_never_empty Engine.hello); [reflexivity|discriminate].
  - apply (initial_files_never_empty
             {| initialCode := ""; initialFiles := []; autoRun := true |});
      reflexivity.
Defined.

(** ** Runs on the reference engine *)

(** The contexts the runs below start from are those of a page on which
    one widget has mounted, the module has loaded with init status zero
    and the editor view has been created. *)
Lemma loaded_is_reached (f : Engine.Faults) (p : Props) :
  Engine.init_status f = 0 → autoRun p = false →
  let s := play f false [Mount p; ScriptLoaded 0; ModuleCreated 0; Settle 0;
                         EditorCreated 0] in
  widgets s = [ {| props := p; state := st (Engine.loaded f p);
                   awaiting := Pending 0; notified := true;
                   mounted := true |} ]
  ∧ instances (page s) = [vm (Engine.loaded f p)]
  ∧ clock_reads (page s) = ticks (Engine.loaded f p).
Proof.
  intros Hinit Hauto. unfold play. cbn. rewrite Hinit. cbn.
  rewrite Hauto. cbn. done.
Qed.

(** Two files that differ in the name and in the code of the one file may
    have the same hash: the separators are not escaped. *)
Lemma getFilesHash_collision :
  getFilesHash [ {| name := "a"; code := "b:c" |} ]
  = getFilesHash [ {| name := "a:b"; code := "c" |} ].
Proof. reflexivity. Qed.

(** C1, at the failing input: a run that rebuilt the registry for
    main.luat, an edit to a source the engine refuses and a run that fails
    in [addTemplate], then an edit back.  The failed run leaves the hash of
    the first files stored while the registry is empty; the next run is
    taken for cached, makes no registry call and renders against the empty
    registry.  The last part gives the same runs as events of a page. *)
Theorem stale_hash_after_failed_rebuild :
  let c1 := Engine.run Engine.picky (Engine.loaded Engine.picky Engine.hello) in
  let c2 := Engine.run Engine.picky (Engine.edit Engine.picky "<refused/>" c1) in
  let c3 := Engine.run Engine.picky (Engine.edit Engine.picky "<h1>Hi</h1>" c2) in
  let s := play Engine.picky false
             [Mount Engine.hello; ScriptLoaded 0; ModuleCreated 0; Settle 0;
              EditorCreated 0; ClickRun 0;
              Typing 0 "<refused/>"; ClickRun 0;
              Typing 0 "<h1>Hi</h1>"; ClickRun 0] in
  (lastCompiledRef (st c1)
   = Some (Engine.registry_hash (Engine.registry (mem (vm c1))))
   ∧ output (st c1) = Some "<h1>Hi</h1>")
  ∧ (calls_of c1 c2
     = [ccall_clear_templates 0;
        ccall_add_template "main.luat" "<refused/>" 1]
     ∧ error (st c2) = Some "Failed to add template: main.luat"
     ∧ lastCompiledRef (st c2) = Some "main.luat:<h1>Hi</h1>"
     ∧ Engine.registry (mem (vm c2)) = []
     ∧ Engine.registry_hash (Engine.registry (mem (vm c2))) = "")
  ∧ (files (st c3) = files (st c1)
     ∧ cached (st c3) = true
     ∧ List.filter is_registry_call (calls_of c2 c3) = []
     ∧ output (st c3) = Some ""
     ∧ error (st c3) = Some "Template not found: main.luat")
  ∧ (state <$> widgets s = [st c3] ∧ instances (page s) = [vm c3]).
Proof. vm_compute. repeat split. Qed.

(** C2, refuted: after a run that displayed a page, a run whose result
    reports [success: false] and a run that fails in [addTemplate] both
    leave the output empty. *)
Lemma failed_run_drops_previous_output :
  let c1 := Engine.run Engine.picky (Engine.loaded Engine.picky Engine.hello) in
  let c2 := Engine.run Engine.picky
              (Engine.edit Engine.picky "{#if props.x}<p>x</p>" c1) in
  let c2' := Engine.run Engine.picky (Engine.edit Engine.picky "<refused/>" c1) in
  output (st c1) = Some "<h1>Hi</h1>"
  ∧ (error (st c2) = Some "Unclosed {#if} block"
     ∧ output (st c2) = Some "" ∧ output (st c2) ≠ output (st c1))
  ∧ (error (st c2') = Some "Failed to add template: main.luat"
     ∧ output (st c2') = Some "" ∧ output (st c2') ≠ output (st c1)).
Proof. vm_compute. repeat split; discriminate. Qed.

Lemma failed_run_clears_output_witness :
  let c1 := Engine.run Engine.picky (Engine.loaded Engine.picky Engine.hello) in
  let c := Engine.edit Engine.picky "<refused/>" c1 in
  let c' := Engine.edit Engine.picky "{#if props.x}<p>x</p>" c1 in
  (luat (st c) ≠ None
   ∧ runCode_outcome (Engine.module Engine.picky) Engine.parse Engine.format
       Engine.clock c = inl "Failed to add template: main.luat"
   ∧ output (st (Engine.run Engine.picky c)) = Some ""
   ∧ error (st (Engine.run Engine.picky c))
     = Some "Failed to add template: main.luat")
  ∧ (luat (st c') ≠ None
     ∧ runCode_outcome (Engine.module Engine.picky) Engine.parse Engine.format
         Engine.clock c'
       = inr {| Result.success := false; Result.html := None;
                Result.error := Some "Unclosed {#if} block" |}
     ∧ output (st (Engine.run Engine.picky c')) = Some ""
     ∧ error (st (Engine.run Engine.picky c')) = Some "Unclosed {#if} block").
Proof.
  intros c1 c c'. split.
  - split; [vm_compute; discriminate|]. split; [vm_compute; reflexivity|].
    pose proof (failed_run_clears_output (Engine.module Engine.picky)
                  Engine.parse Engine.format Engine.clock c) as H.
    vm_compute in H. vm_compute. apply H. discriminate.
  - split; [vm_compute; discriminate|]. split; [vm_compute; reflexivity|].
    pose proof (failed_run_clears_output (Engine.module Engine.picky)
                  Engine.parse Engine.format Engine.clock c') as H.
    vm_compute in H. vm_compute. apply H; [discriminate|reflexivity].
Defined.



(** C4, refuted: [clear_templates] returns status 1 and [clearTemplates]
    raises nothing. *)
Lemma clearTemplates_ignores_status :
  let c := Engine.loaded Engine.stuck Engine.hello in
  (luat_clear_templates (Engine.module Engine.stuck) (mem (vm c))).1 = 1
  ∧ (clearTemplates (Engine.module Engine.stuck) c).1 = inr ().
Proof. vm_compute. by split. Qed.

(** C6, refuted: a reset, then a run on an engine that refuses the first
    of two files: the registry is cleared, the second file is never added,
    the registry is left empty and no hash is stored. *)
Lemma rebuild_after_reset_not_completed :
  let c0 := shown (reset Engine.first_refused)
              (Engine.loaded Engine.picky Engine.first_refused) in
  let c1 := Engine.run Engine.picky c0 in
  files (st c0) = [ {| name := "main.luat"; code := "<refused/>" |};
                    {| name := "Card.luat"; code := "<p>card</p>" |} ]
  ∧ calls_of c0 c1
    = [ccall_clear_templates 0; ccall_add_template "main.luat" "<refused/>" 1]
  ∧ Engine.registry (mem (vm c1)) = []
  ∧ lastCompiledRef (st c1) = None.
Proof. vm_compute. repeat split. Qed.

Lemma reset_forces_rebuild_witness :
  let c := Engine.run Engine.healthy
             (Engine.loaded Engine.healthy Engine.hello) in
  let c0 := shown (reset Engine.hello) c in
  luat (st c) ≠ None
  ∧ lastCompiledRef (st c) = Some (getFilesHash (files (st c0)))
  ∧ lastCompiledRef (st c0) = None
  ∧ cached (st (Engine.run Engine.healthy c0)) = false
  ∧ rebuilds c0 (Engine.run Engine.healthy c0).
Proof.
  intros c c0.
  assert (luat (st c) ≠ None) as Hl by (vm_compute; discriminate).
  split; [exact Hl|]. split; [vm_compute; reflexivity|].
  pose proof (reset_forces_rebuild (Engine.module Engine.healthy)
                Engine.parse Engine.format Engine.clock Engine.hello c Hl) as H.
  vm_compute in H. vm_compute. exact H.
Defined.



(** ** Pages on the reference engine *)

(** C5, refuted: two components mount, the second while the load started
    by the first is still in flight.  When the init entry point returns a
    status other than zero, and equally when the script fails to load,
    both calls are rejected with the error of the loader: neither
    resolves to a loaded instance, no module is held, no component is
    bound to one and each shows the failure. *)
Lemma failed_load_gives_no_instance :
  let s := play Engine.dead false
             [Mount Engine.hello_auto; Mount Engine.two_files; ScriptLoaded 0;
              ModuleCreated 0; Settle 0; Settle 1] in
  let t := play Engine.healthy false
             [Mount Engine.hello_auto; Mount Engine.two_files; ScriptFailed 0;
              Settle 0; Settle 1] in
  ((λ w, settled (page s) (awaiting w)) <$> widgets s
   = [Some (inl "Failed to initialize Luat engine");
      Some (inl "Failed to initialize Luat engine")]
   ∧ luatModule (page s) = None
   ∧ (λ w, luat (state w)) <$> widgets s = [None; None]
   ∧ (λ w, error (state w)) <$> widgets s
     = [Some "Failed to load Luat: Failed to initialize Luat engine";
        Some "Failed to load Luat: Failed to initialize Luat engine"])
  ∧ ((λ w, settled (page t) (awaiting w)) <$> widgets t
     = [Some (inl "Failed to load luat-wasm.js");
        Some (inl "Failed to load luat-wasm.js")]
     ∧ luatModule (page t) = None ∧ length (instances (page t)) = 0%nat
     ∧ createModule_calls (page t) = 0%nat
     ∧ (λ w, luat (state w)) <$> widgets t = [None; None]
     ∧ (λ w, error (state w)) <$> widgets t
       = [Some "Failed to load Luat: Failed to load luat-wasm.js";
          Some "Failed to load Luat: Failed to load luat-wasm.js"]).
Proof. vm_compute. by split_and!. Qed.

Lemma one_load_shared_by_all_witness :
  let s := play Engine.healthy false
             [Mount Engine.hello_auto; Mount Engine.two_files; ScriptLoaded 0;
              Mount Engine.hello; ModuleCreated 0; Settle 0; Settle 1;
              Settle 2; Mount Engine.hello_auto] in
  outcome (page s) = Some (inr 0%nat)
  ∧ length (promises (page s)) = Nat.min 1 (length (widgets s))
  ∧ luatModule (page s) = Some 0%nat
  ∧ script_tags (page s) = 1%nat
  ∧ createModule_calls (page s) = 1%nat
  ∧ length (instances (page s)) = 1%nat.
Proof.
  intros s.
  destruct (one_load_shared_by_all (Engine.module Engine.healthy) Engine.parse
              Engine.format Engine.clock false
              [Mount Engine.hello_auto; Mount Engine.two_files; ScriptLoaded 0;
               Mount Engine.hello; ModuleCreated 0; Settle 0; Settle 1;
               Settle 2; Mount Engine.hello_auto])
    as (Hlen & _ & _ & _ & _ & _ & Hout & Htags & _ & Hone & _).
  assert (outcome (page s) = Some (inr 0%nat)) as Ho
    by (vm_compute; reflexivity).
  split; [exact Ho|].
  pose proof (proj1 (proj2 (Hout 0%nat Ho))) as Hm.
  destruct (Hone 0%nat Ho) as [Hcalls Hinst].
  vm_compute in Hlen, Hm, Htags, Hcalls, Hinst. vm_compute.
  split_and!; [exact Hlen|exact Hm|exact Htags|exact Hcalls|exact Hinst].
Defined.

Lemma render_only_after_init_witness :
  let s := play Engine.dead false
             [Mount Engine.hello_auto; ScriptLoaded 0; ModuleCreated 0;
              Settle 0] in
  (∃ w, widgets s !! 0%nat = Some w ∧ luat (state w) = None)
  ∧ step (Engine.module Engine.dead) Engine.parse Engine.format Engine.clock
      (ClickRun 0) s = s.
Proof.
  intros s.
  destruct (render_only_after_init (Engine.module Engine.dead) Engine.parse
              Engine.format Engine.clock false
              [Mount Engine.hello_auto; ScriptLoaded 0; ModuleCreated 0;
               Settle 0])
    as (_ & _ & _ & Hrun).
  destruct (widgets s !! 0%nat) as [w|] eqn:Hw; [|vm_compute in Hw; discriminate].
  assert (luat (state w) = None) as Hl.
  { vm_compute in Hw. injection Hw as <-. reflexivity. }
  split; [by exists w|].
  pose proof (Hrun 0%nat w Hw Hl) as H. vm_compute in H. vm_compute. exact H.
Defined.

(** ** The HTML formatter *)

Lemma all_space_app a b : all_space (a ++ b) ↔ all_space a ∧ all_space b.
Proof.
  unfold all_space. rewrite forallb_app. apply andb_true_iff.
Qed.

Lemma all_space_rev a : all_space a → all_space (rev a).
Proof.
  unfold all_space. intros H. apply forallb_forall. intros c Hc.
  apply in_rev in Hc. eapply forallb_forall in H; eauto.
Qed.

Lemma content_app a b : content (a ++ b) = content a ++ content b.
Proof. apply List.filter_app. Qed.

Lemma content_all_space ws : all_space ws → content ws = [].
Proof.
  unfold all_space. induction ws as [|c ws IH]; [done|]. simpl.
  intros [Hc Hws]%andb_true_iff. rewrite Hc. simpl. by apply IH.
Qed.

Lemma content_rev s : content (rev s) = rev (content s).
Proof.
  induction s as [|c s IH]; [done|]. simpl. rewrite content_app, IH. simpl.
  destruct (is_space c); simpl; [by rewrite app_nil_r|done].
Qed.

(** ** [trim] *)

Lemma trimStart_decomp s : ∃ ws, s = ws ++ trimStart s ∧ all_space ws.
Proof.
  induction s as [|c s (ws & IH & Hws)]; [by exists []|]. simpl.
  destruct (is_space c) eqn:Hc; [|by exists []].
  exists (c :: ws). split; [by rewrite IH at 1|].
  unfold all_space. simpl. by rewrite Hc.
Qed.

Lemma trimStart_app_space ws s :
  all_space ws → trimStart (ws ++ s) = trimStart s.
Proof.
  unfold all_space. induction ws as [|c ws IH]; [done|]. simpl.
  intros [-> Hws]%andb_true_iff. by apply IH.
Qed.

Lemma trimStart_head s c r : trimStart s = c :: r → is_space c = false.
Proof.
  induction s as [|a s IH]; [done|]. simpl.
  destruct (is_space a) eqn:Ha; [done|]. by intros [= <- _].
Qed.

Lemma trimStart_keeps_last a c :
  is_space c = false → ∃ v, trimStart (a ++ [c]) = v ++ [c].
Proof.
  intros Hc. induction a as [|b a [v IH]]; simpl.
  - rewrite Hc. by exists [].
  - destruct (is_space b); [by exists v|]. by exists (b :: a).
Qed.

Lemma trimEnd_app_space s ws :
  all_space ws → trimEnd (s ++ ws) = trimEnd s.
Proof.
  intros H. unfold trimEnd. rewrite rev_app_distr.
  by rewrite trimStart_app_space by by apply all_space_rev.
Qed.

Lemma trimEnd_decomp s : ∃ ws, s = trimEnd s ++ ws ∧ all_space ws.
Proof.
  unfold trimEnd. destruct (trimStart_decomp (rev s)) as (ws & H & Hws).
  exists (rev ws). split; [|by apply all_space_rev].
  rewrite <- rev_app_distr, <- H. by rewrite rev_involutive.
Qed.

Lemma trim_decomp s :
  ∃ ws1 ws2, s = ws1 ++ trim s ++ ws2 ∧ all_space ws1 ∧ all_space ws2.
Proof.
  destruct (trimStart_decomp s) as (ws1 & H1 & Hws1).
  destruct (trimEnd_decomp (trimStart s)) as (ws2 & H2 & Hws2).
  exists ws1, ws2. split; [|done]. unfold trim. by rewrite <- H2.
Qed.

Lemma trim_around ws1 ws2 t :
  all_space ws1 → all_space ws2 → tight t → trim (ws1 ++ t ++ ws2) = t.
Proof.
  intros H1 H2 [(c & r & -> & Hc) (r' & c' & Hr & Hc')]. unfold trim.
  rewrite trimStart_app_space by done. simpl. rewrite Hc.
  change (c :: r ++ ws2) with ((c :: r) ++ ws2).
  rewrite trimEnd_app_space by done. unfold trimEnd.
  rewrite Hr, rev_app_distr. simpl. rewrite Hc'.
  change (c' :: rev r') with (rev [c'] ++ rev r').
  by rewrite <- rev_app_distr, rev_involutive.
Qed.

Lemma trim_shape s : trim s = [] ∨ tight (trim s).
Proof.
  unfold trim. destruct (trimStart s) as [|c r] eqn:Hs; [by left|].
  right. pose proof (trimStart_head _ _ _ Hs) as Hc.
  destruct (trimEnd_decomp (c :: r)) as (ws & Hdec & Hws).
  unfold trimEnd in *. simpl in *.
  destruct (trimStart_keeps_last (rev r) c Hc) as [v Hv].
  rewrite Hv in *. rewrite rev_app_distr in *. simpl in *.
  split.
  - by exists c, (rev v).
  - destruct v as [|b v].
    + exists [], c. done.
    + apply trimStart_head in Hv as Hb. simpl.
      exists (c :: rev v), b. split; [|done].
      by rewrite app_comm_cons.
Qed.

Lemma content_trimStart s : content (trimStart s) = content s.
Proof.
  induction s as [|c s IH]; [done|]. simpl.
  destruct (is_space c) eqn:Hc; simpl; by rewrite ?Hc.
Qed.

Lemma content_trim s : content (trim s) = content s.
Proof.
  unfold trim, trimEnd.
  by rewrite content_rev, content_trimStart, content_rev, rev_involutive,
    content_trimStart.
Qed.

Lemma tight_content t : tight t → content t ≠ [].
Proof. intros [(c & r & -> & Hc) _]. simpl. by rewrite Hc. Qed.

(** ** The replacement *)

Lemma replace_gaps_skip k s : replace_gaps k s = replace_gaps 0 (drop k s).
Proof.
  revert k. induction s as [|c s IH]; intros [|k]; try done.
  simpl. apply IH.
Qed.

Lemma replace_gaps_cons c rest :
  replace_gaps 0 (c :: rest)
  = if (c =? 62)%N then
      match gap rest with
      | Some n => 62%N :: 10%N :: 60%N :: replace_gaps 0 (drop (S n) rest)
      | None => c :: replace_gaps 0 rest
      end
    else c :: replace_gaps 0 rest.
Proof.
  simpl. destruct (c =? 62)%N; [|done].
  destruct (gap rest) as [n|]; [|done]. by rewrite replace_gaps_skip.
Qed.

Lemma gap_Some s n :
  gap s = Some n →
  ∃ ws rest, s = ws ++ 60%N :: rest ∧ length ws = n ∧ all_space ws
             ∧ drop (S n) s = rest.
Proof.
  revert n. induction s as [|c s IH]; intros n; [done|]. simpl.
  destruct (N.eqb_spec c 60) as [->|Hc].
  - intros [= <-]. by exists [], s.
  - destruct (is_space c) eqn:Hs; [|done].
    destruct (gap s) as [m|]; [|done]. intros [= <-].
    destruct (IH m eq_refl) as (ws & rest & -> & Hlen & Hws & Hdrop).
    exists (c :: ws), rest. split_and!; [done|by rewrite <- Hlen| |done].
    unfold all_space. simpl. by rewrite Hs.
Qed.

Lemma content_replace_gaps s : content (replace_gaps 0 s) = content s.
Proof.
  remember (length s) as n eqn:Hn. revert s Hn.
  induction n as [n IH] using lt_wf_ind. intros [|c rest] Hn; [done|].
  rewrite replace_gaps_cons. simpl in Hn.
  assert (content (c :: replace_gaps 0 rest) = content (c :: rest)) as Hcopy.
  { simpl. rewrite (IH (length rest)); [done|lia|done]. }
  destruct (N.eqb_spec c 62) as [->|Hc]; [|done].
  destruct (gap rest) as [k|] eqn:Hgap; [|done].
  destruct (gap_Some _ _ Hgap) as (ws & rest' & -> & Hlen & Hws & ->).
  change (content (62%N :: 10%N :: 60%N :: replace_gaps 0 rest'))
    with (62%N :: 60%N :: content (replace_gaps 0 rest')).
  rewrite (IH (length rest')); [|rewrite length_app in Hn; simpl in Hn; lia|done].
  change (content (62%N :: ws ++ 60%N :: rest'))
    with (62%N :: content (ws ++ 60%N :: rest')).
  rewrite content_app, (content_all_space ws) by done. reflexivity.
Qed.

(** ** The split *)

Lemma split_not_nil sep s : split sep s ≠ [].
Proof.
  destruct s as [|c s]; [done|]. simpl.
  destruct (c =? sep)%N; [done|]. by destruct (split sep s).
Qed.

Lemma content_split s : concat (content <$> split 10 s) = content s.
Proof.
  induction s as [|c s IH]; [done|]. simpl.
  destruct (N.eqb_spec c 10) as [->|Hc]; [done|].
  pose proof (split_not_nil 10 s) as Hne.
  destruct (split 10 s) as [|t ts]; [done|].
  rewrite fmap_cons in *. simpl in *. rewrite <- IH.
  by destruct (is_space c).
Qed.

(** ** The layout *)

Lemma all_space_tabs d : all_space (concat (replicate d tab)).
Proof. induction d as [|d IH]; [done|]. simpl. exact IH. Qed.

Lemma content_format_tokens pieces d acc :
  content (format_tokens pieces d acc)
  = content acc ++ concat (content <$> pieces).
Proof.
  revert d acc. induction pieces as [|p pieces IH]; intros d acc.
  { simpl. by rewrite app_nil_r. }
  rewrite fmap_cons. simpl. rewrite <- (content_trim p).
  destruct (trim p) as [|c r]; [apply IH|].
  rewrite IH, !content_app.
  rewrite (content_all_space (concat _)) by apply all_space_tabs.
  change (content [10%N]) with (@nil N). rewrite app_nil_r. simpl.
  by rewrite <- !app_assoc.
Qed.

Lemma formatHtml_content html : content (formatHtml html) = content html.
Proof.
  unfold formatHtml.
  by rewrite content_trim, content_format_tokens, content_split,
    content_replace_gaps.
Qed.

(** X19: [formatHtml] changes white space only: the code units of its
    result that are not white space are those of the text it is given, in
    the same order; the result neither starts nor ends with white space,
    and it is empty exactly when the text holds nothing but white space. *)
Theorem formatHtml_changes_white_space_only (html : list N) :
  content (formatHtml html) = content html
  ∧ trim (formatHtml html) = formatHtml html
  ∧ (formatHtml html = [] ↔ content html = []).
Proof.
  pose proof (formatHtml_content html) as Hcontent.
  assert (formatHtml html = [] ∨ tight (formatHtml html)) as Hshape
    by apply trim_shape.
  split_and!.
  - done.
  - destruct Hshape as [->|Ht]; [done|].
    by apply (trim_around [] [] (formatHtml html)) in Ht;
      rewrite ?app_nil_r in Ht.
  - split.
    + intros H. by rewrite <- Hcontent, H.
    + intros H. destruct Hshape as [|Ht]; [done|].
      apply tight_content in Ht. congruence.
Qed.

(** ** Gaps *)

Lemma not_space_60 c : is_space c = true → (c =? 60)%N = false.
Proof. destruct (N.eqb_spec c 60) as [->|]; [by vm_compute|done]. Qed.

Lemma not_space_62 c : is_space c = true → (c =? 62)%N = false.
Proof. destruct (N.eqb_spec c 62) as [->|]; [by vm_compute|done]. Qed.

Lemma gap_app_Some a b n : gap a = Some n → gap (a ++ b) = Some n.
Proof.
  revert n. induction a as [|c a IH]; intros n; [done|]. simpl.
  destruct (c =? 60)%N; [done|]. destruct (is_space c); [|done].
  destruct (gap a) as [m|]; [|done]. intros [= <-].
  by rewrite (IH m eq_refl).
Qed.

Lemma gap_space_prefix ws s :
  all_space ws → gap (ws ++ s) = (λ n, length ws + n)%nat <$> gap s.
Proof.
  unfold all_space. induction ws as [|c ws IH]; simpl.
  - intros _. by destruct (gap s).
  - intros [Hc Hws]%andb_true_iff. rewrite (not_space_60 c Hc), Hc, IH by done.
    by destruct (gap s).
Qed.

Lemma gap_not_space c s :
  is_space c = false →
  gap (c :: s) = if (c =? 60)%N then Some 0%nat else None.
Proof. intros Hc. simpl. by rewrite Hc. Qed.

Lemma gap_ext a c Y :
  is_space c = false → gap (a ++ c :: Y) = gap (a ++ [c]).
Proof.
  intros Hc. induction a as [|b a IH]; simpl.
  - by rewrite Hc.
  - by rewrite IH.
Qed.

Lemma gap_replace_gaps r : gap (replace_gaps 0 r) = gap r.
Proof.
  induction r as [|c r IH]; [done|]. rewrite replace_gaps_cons.
  destruct (N.eqb_spec c 62) as [->|Hc].
  - by destruct (gap r).
  - simpl. by rewrite IH.
Qed.

Lemma gap_in_line_gap r : gap_in_line r = true → gap r ≠ None.
Proof.
  induction r as [|c r IH]; [done|]. simpl.
  destruct (c =? 60)%N; [done|].
  destruct (is_space c); simpl; [|done].
  destruct (negb _); [|done]. intros H. specialize (IH H).
  by destruct (gap r).
Qed.

Lemma has_gap_app a b :
  has_gap (a ++ b) = false → has_gap a = false ∧ has_gap b = false.
Proof.
  induction a as [|c a IH]; simpl; [done|].
  intros [H1 H2]%orb_false_elim. destruct (IH H2) as [Ha Hb].
  split; [|done]. rewrite Ha, orb_false_r.
  destruct (c =? 62)%N; [|done]. simpl in *.
  destruct (gap a) as [n|] eqn:Hg; [|done].
  by rewrite (gap_app_Some _ b _ Hg) in H1.
Qed.

(** ** The replacement on white space and on tokens *)

Lemma replace_gaps_spaces ws s :
  all_space ws → replace_gaps 0 (ws ++ s) = ws ++ replace_gaps 0 s.
Proof.
  unfold all_space. induction ws as [|c ws IH]; [done|]. simpl forallb.
  intros [Hc Hws]%andb_true_iff.
  change ((c :: ws) ++ s) with (c :: ws ++ s).
  rewrite (replace_gaps_cons c), (not_space_62 c Hc), IH by done. done.
Qed.

Lemma replace_gaps_token t0 c Y :
  has_gap (t0 ++ [c]) = false → is_space c = false →
  replace_gaps 0 (t0 ++ c :: Y) = t0 ++ replace_gaps 0 (c :: Y).
Proof.
  intros Hg Hc. induction t0 as [|a t0 IH]; [done|].
  simpl in Hg. apply orb_false_elim in Hg as [H1 H2].
  change ((a :: t0) ++ c :: Y) with (a :: t0 ++ c :: Y).
  rewrite (replace_gaps_cons a), (gap_ext t0 c Y Hc).
  destruct (a =? 62)%N; simpl in H1.
  - destruct (gap (t0 ++ [c])); [done|]. simpl. f_equal. by apply IH.
  - simpl. f_equal. by apply IH.
Qed.

Lemma replace_gaps_one c : replace_gaps 0 [c] = [c].
Proof. rewrite replace_gaps_cons. by destruct (c =? 62)%N. Qed.

(** ** The pieces between the line feeds *)

Lemma split_no_sep a : Forall (λ c, c ≠ 10%N) a → split 10 a = [a].
Proof.
  induction 1 as [|c a Hc _ IH]; [done|]. simpl.
  apply N.eqb_neq in Hc as ->. by rewrite IH.
Qed.

Lemma split_app_sep a Z :
  Forall (λ c, c ≠ 10%N) a → split 10 (a ++ 10%N :: Z) = a :: split 10 Z.
Proof.
  induction 1 as [|c a Hc _ IH]; [done|]. simpl.
  apply N.eqb_neq in Hc as ->. by rewrite IH.
Qed.

Lemma split_pieces X : Forall (Forall (λ c, c ≠ 10%N)) (split 10 X).
Proof.
  induction X as [|c X IH]; simpl; [by repeat constructor|].
  destruct (N.eqb_spec c 10) as [->|Hc]; [by constructor|].
  destruct (split 10 X) as [|p ps]; [by repeat constructor|].
  apply Forall_cons in IH as [Hp Hps]. constructor; [|done].
  by constructor.
Qed.

Lemma replace_gaps_no_gap_in_line s :
  has_gap_in_line (replace_gaps 0 s) = false.
Proof.
  remember (length s) as n eqn:Hn. revert s Hn.
  induction n as [n IH] using lt_wf_ind. intros [|c rest] Hn; [done|].
  rewrite replace_gaps_cons. simpl in Hn.
  assert (has_gap_in_line (replace_gaps 0 rest) = false) as Hrest.
  { apply (IH (length rest)); [lia|done]. }
  destruct (N.eqb_spec c 62) as [->|Hc].
  - destruct (gap rest) as [k|] eqn:Hgap.
    + destruct (gap_Some _ _ Hgap) as (ws & rest' & -> & Hlen & Hws & ->).
      change (has_gap_in_line (62%N :: 10%N :: 60%N :: replace_gaps 0 rest'))
        with (has_gap_in_line (replace_gaps 0 rest')).
      apply (IH (length rest')); [|done].
      rewrite length_app in Hn. simpl in Hn. lia.
    + simpl. rewrite Hrest, orb_false_r.
      destruct (gap_in_line (replace_gaps 0 rest)) eqn:Hl; [|done].
      apply gap_in_line_gap in Hl. by rewrite gap_replace_gaps in Hl.
  - simpl. apply N.eqb_neq in Hc as ->. done.
Qed.

Lemma first_piece_gap X p ps n :
  split 10 X = p :: ps → gap p = Some n → gap_in_line X = true.
Proof.
  revert p ps n. induction X as [|c X IH]; intros p ps n; simpl.
  - by intros [= <- _].
  - destruct (N.eqb_spec c 10) as [->|Hc]; [by intros [= <- _]|].
    pose proof (split_not_nil 10 X) as Hne.
    destruct (split 10 X) as [|q qs]; [done|]. intros [= <- _]. simpl.
    destruct (c =? 60)%N; [done|].
    destruct (is_space c); [|done]. simpl.
    destruct (gap q) as [m|] eqn:Hq; [|done]. intros _.
    by eapply IH.
Qed.

Lemma split_no_gap X :
  has_gap_in_line X = false → Forall (λ p, has_gap p = false) (split 10 X).
Proof.
  induction X as [|c X IH]; simpl; [by repeat constructor|].
  intros [H1 H2]%orb_false_elim. specialize (IH H2).
  destruct (N.eqb_spec c 10) as [->|Hc]; [by constructor|].
  pose proof (split_not_nil 10 X) as Hne.
  destruct (split 10 X) as [|p ps] eqn:Hsplit; [done|].
  apply Forall_cons in IH as [Hp Hps]. constructor; [|done].
  simpl. rewrite Hp, orb_false_r.
  destruct (c =? 62)%N; [|done]. simpl in *.
  destruct (gap p) as [n|] eqn:Hg; [|done].
  by rewrite (first_piece_gap X p ps n Hsplit Hg) in H1.
Qed.

(** The tokens of every text are tokens. *)
Lemma tokens_of_ok s : Forall token (tokens_of s).
Proof.
  unfold tokens_of.
  pose proof (split_pieces (replace_gaps 0 s)) as H1.
  pose proof (split_no_gap _ (replace_gaps_no_gap_in_line s)) as H2.
  induction (split 10 (replace_gaps 0 s)) as [|p pieces IH]; [constructor|].
  apply Forall_cons in H1 as [Hp1 H1]. apply Forall_cons in H2 as [Hp2 H2].
  rewrite fmap_cons. simpl.
  destruct (nonempty (trim p)) eqn:Hne; [|by apply IH].
  constructor; [|by apply IH].
  destruct (trim_decomp p) as (ws1 & ws2 & Hdec & _ & _).
  destruct (trim_shape p) as [H0|Htight]; [by rewrite H0 in Hne|].
  rewrite Hdec in Hp1, Hp2.
  apply Forall_app in Hp1 as [_ [Hp1 _]%Forall_app].
  apply has_gap_app in Hp2 as [_ [Hp2 _]%has_gap_app].
  done.
Qed.

(** ** The layout of the tokens *)

Lemma format_tokens_lines pieces d acc :
  format_tokens pieces d acc
  = acc ++ flat (lines (List.filter nonempty (trim <$> pieces)) d).
Proof.
  revert d acc. induction pieces as [|p pieces IH]; intros d acc.
  { simpl. by rewrite app_nil_r. }
  rewrite fmap_cons. simpl. destruct (trim p) as [|c r]; simpl; [apply IH|].
  rewrite IH. unfold flat. simpl. by rewrite <- !app_assoc.
Qed.

Lemma formatHtml_lines html :
  formatHtml html = trim (flat (lines (tokens_of html) 0)).
Proof. unfold formatHtml. by rewrite format_tokens_lines. Qed.

Lemma flat_joined items : items ≠ [] → flat items = joined items ++ [10%N].
Proof.
  induction items as [|it items IH]; [done|]. intros _.
  unfold flat in *. rewrite fmap_cons. simpl.
  destruct items as [|it' items].
  - simpl. by rewrite !app_nil_r, <- app_assoc.
  - rewrite IH by done. rewrite <- !app_assoc. done.
Qed.

Lemma lines_snd ts d : snd <$> lines ts d = ts.
Proof.
  revert d. induction ts as [|t ts IH]; intros d; [done|].
  simpl. by rewrite IH.
Qed.

Lemma tabs_ok d :
  all_space (concat (replicate d tab))
  ∧ Forall (λ c, c ≠ 10%N) (concat (replicate d tab)).
Proof.
  split; [apply all_space_tabs|].
  induction d as [|d IH]; [constructor|]. simpl. by repeat constructor.
Qed.

Lemma lines_indents ts d : Forall indent_ok (lines ts d).
Proof.
  revert d. induction ts as [|t ts IH]; intros d; [constructor|].
  simpl. constructor; [apply tabs_ok|apply IH].
Qed.

Lemma lines_first t ts : ∃ rest, lines (t :: ts) 0 = ([], t) :: rest.
Proof. cbn [lines]. destruct (startsWith (units "</") t); by eexists. Qed.

Lemma joined_last items :
  items ≠ [] → Forall (λ it, token it.2) items →
  ∃ r c, joined items = r ++ [c] ∧ is_space c = false.
Proof.
  induction items as [|it items IH]; [done|]. intros _ Hall.
  apply Forall_cons in Hall as [((_ & r & c & Hr & Hc) & _) Hall].
  destruct items as [|it' items].
  - exists (it.1 ++ r), c. simpl. rewrite Hr, app_nil_r.
    by rewrite <- app_assoc.
  - destruct IH as (r' & c' & Hj & Hc'); [done|done|].
    exists (it.1 ++ it.2 ++ 10%N :: r'), c'. split; [|done].
    change (joined (it :: it' :: items))
      with (it.1 ++ it.2 ++ 10%N :: joined (it' :: items)).
    rewrite Hj. by rewrite <- !app_assoc.
Qed.

Lemma joined_tight t rest :
  Forall (λ it, token it.2) (([], t) :: rest) →
  tight (joined (([], t) :: rest)).
Proof.
  intros Hall. split; [|by apply joined_last].
  apply Forall_cons in Hall as [(((c & r & Ht & Hc) & _) & _) _].
  simpl in *. rewrite Ht. by eexists _, _.
Qed.

(** The replacement on a line and what follows it: the line stays, and
    behind its line feed comes the replacement on what follows, with or
    without the indentation of the next line. *)
Lemma replace_gaps_line ind t ind' c1 R :
  token t → all_space ind → all_space ind' → is_space c1 = false →
  ∃ ind'',
    (ind'' = ind' ∨ ind'' = [])
    ∧ replace_gaps 0 (ind ++ t ++ 10%N :: ind' ++ c1 :: R)
      = (ind ++ t) ++ 10%N :: replace_gaps 0 (ind'' ++ c1 :: R).
Proof.
  intros ((_ & t0 & c & -> & Hc) & _ & Hgap) Hind Hind' Hc1.
  rewrite replace_gaps_spaces by done.
  rewrite <- (app_assoc t0 [c]).
  change ([c] ++ 10%N :: ind' ++ c1 :: R) with (c :: 10%N :: ind' ++ c1 :: R).
  rewrite replace_gaps_token by done.
  assert (∀ Z, replace_gaps 0 (10%N :: Z) = 10%N :: replace_gaps 0 Z)
    as Hcopy by (intros Z; by rewrite replace_gaps_cons).
  assert (gap (10%N :: ind' ++ c1 :: R)
          = if (c1 =? 60)%N then Some (S (length ind' + 0)) else None)
    as Hg.
  { change (gap (10%N :: ind' ++ c1 :: R))
      with (S <$> gap (ind' ++ c1 :: R)).
    rewrite gap_space_prefix, gap_not_space by done.
    by destruct (c1 =? 60)%N. }
  rewrite (replace_gaps_cons c), Hg.
  destruct (N.eqb_spec c 62) as [->|Hne];
    [destruct (N.eqb_spec c1 60) as [->|Hne1]|].
  - exists []. split; [by right|].
    change (drop (S (S (length ind' + 0))) (10%N :: ind' ++ 60%N :: R))
      with (drop (S (length ind' + 0)) (ind' ++ 60%N :: R)).
    assert (drop (S (length ind' + 0)) (ind' ++ 60%N :: R) = R) as ->.
    { rewrite (cons_middle 60%N ind' R), (app_assoc ind').
      apply drop_app_length'. rewrite length_app. simpl. lia. }
    change ([] ++ 60%N :: R) with (60%N :: R).
    rewrite (replace_gaps_cons 60). simpl.
    by rewrite <- !app_assoc.
  - exists ind'. split; [by left|]. rewrite Hcopy.
    by rewrite <- !app_assoc.
  - exists ind'. split; [by left|]. rewrite Hcopy.
    by rewrite <- !app_assoc.
Qed.

Lemma joined_head (it : list N * list N) rest c1 r1 :
  it.2 = c1 :: r1 →
  ∃ R, ∀ ind, joined ((ind, it.2) :: rest) = ind ++ c1 :: R.
Proof.
  intros Ht.
  exists (r1 ++ match rest with [] => [] | _ :: _ => 10%N :: joined rest end).
  intros ind. simpl. by rewrite Ht.
Qed.

(** The tokens of laid-out lines are the tokens that were laid out. *)
Lemma tokens_of_joined ts :
  Forall token ts → ts ≠ [] →
  ∀ items, snd <$> items = ts → Forall indent_ok items →
           tokens_of (joined items) = ts.
Proof.
  induction 1 as [|t ts Ht Hts IH]; [done|]. intros _ items Hitems Hind.
  destruct items as [|it items]; [done|].
  rewrite fmap_cons in Hitems. injection Hitems as Hit Hrest.
  apply Forall_cons in Hind as [[Hsp Hnl] Hind].
  pose proof Ht as (Htight & Hno10 & _).
  assert (Forall (λ c, c ≠ 10%N) (it.1 ++ it.2)) as Hline.
  { apply Forall_app. by rewrite Hit. }
  assert (trim (it.1 ++ it.2) = t) as Htrim.
  { rewrite Hit. pose proof (trim_around it.1 [] t Hsp eq_refl Htight) as H.
    by rewrite app_nil_r in H. }
  assert (nonempty t = true) as Hne.
  { destruct Htight as [(c & r & -> & _) _]. done. }
  destruct items as [|it' rest].
  - simpl in Hrest. subst ts. unfold tokens_of.
    change (joined [it]) with (it.1 ++ it.2 ++ []).
    rewrite app_nil_r.
    destruct Htight as [_ (t0 & c & Ht0 & Hc)].
    assert (replace_gaps 0 (it.1 ++ it.2) = it.1 ++ it.2) as ->.
    { rewrite replace_gaps_spaces by done. f_equal. rewrite Hit, Ht0.
      rewrite replace_gaps_token, replace_gaps_one; [done| |done].
      rewrite <- Ht0. apply Ht. }
    rewrite split_no_sep by done. rewrite fmap_cons. simpl.
    by rewrite Htrim, Hne.
  - destruct ts as [|t' ts]; [done|].
    rewrite fmap_cons in Hrest. injection Hrest as Hit' Hrest.
    apply Forall_cons in Hts as Hts'. destruct Hts' as [Ht' _].
    apply Forall_cons in Hind as Hind'. destruct Hind' as [[Hsp' Hnl'] Hind'].
    pose proof Ht' as (((c1 & r1 & Hc1 & Hs1) & _) & _).
    rewrite <- Hit' in Hc1.
    destruct (joined_head it' rest c1 r1 Hc1) as [R HR].
    change (joined (it :: it' :: rest))
      with (it.1 ++ it.2 ++ 10%N :: joined (it' :: rest)).
    replace (joined (it' :: rest)) with (it'.1 ++ c1 :: R)
      by (rewrite <- HR; by destruct it').
    destruct (replace_gaps_line it.1 it.2 it'.1 c1 R) as (ind' & Hind'' & Hrep);
      [by rewrite Hit|done..|].
    unfold tokens_of. rewrite Hrep, split_app_sep by done.
    rewrite fmap_cons. simpl. rewrite Htrim, Hne. f_equal.
    rewrite <- HR.
    apply (IH ltac:(done) ((ind', it'.2) :: rest)).
    + rewrite fmap_cons. simpl. by rewrite Hit', Hrest.
    + constructor; [|done]. destruct Hind'' as [->| ->]; [done|].
      split; [done|constructor].
Qed.

(** Laid-out lines are laid out as they are. *)
Lemma formatHtml_joined t ts :
  Forall token (t :: ts) →
  trim (flat (lines (t :: ts) 0)) = joined (lines (t :: ts) 0)
  ∧ formatHtml (joined (lines (t :: ts) 0)) = joined (lines (t :: ts) 0).
Proof.
  intros Hok.
  assert (trim (flat (lines (t :: ts) 0)) = joined (lines (t :: ts) 0)) as H.
  { destruct (lines_first t ts) as [rest Hrest].
    rewrite flat_joined by by rewrite Hrest.
    assert (tight (joined (lines (t :: ts) 0))) as Htight.
    { rewrite Hrest. apply joined_tight. rewrite <- Hrest.
      assert (Forall (token ∘ snd) (lines (t :: ts) 0)) as Hall
        by (apply Forall_fmap; by rewrite lines_snd).
      exact Hall. }
    by apply (trim_around [] [10%N]) in Htight. }
  split; [done|].
  rewrite formatHtml_lines, (tokens_of_joined (t :: ts)); try done.
  - apply lines_snd.
  - apply lines_indents.
Qed.

(** X20: [formatHtml] is idempotent: a text that has been formatted is
    formatted to itself. *)
Theorem formatHtml_idempotent (html : list N) :
  formatHtml (formatHtml html) = formatHtml html.
Proof.
  rewrite (formatHtml_lines html).
  pose proof (tokens_of_ok html) as Hok.
  destruct (tokens_of html) as [|t ts]; [done|].
  destruct (formatHtml_joined t ts Hok) as [-> H]. exact H.
Qed.

(** ** The indentation of nested elements *)

Lemma format_tokens_app a b d acc :
  format_tokens (a ++ b) d acc
  = format_tokens b (depth_after a d) (format_tokens a d acc).
Proof.
  revert d acc. induction a as [|t a IH]; intros d acc; [done|].
  simpl. destruct (trim t) as [|c r]; apply IH.
Qed.

Lemma depth_after_app a b d :
  depth_after (a ++ b) d = depth_after b (depth_after a d).
Proof.
  revert d. induction a as [|t a IH]; intros d; [done|].
  simpl. destruct (trim t) as [|c r]; apply IH.
Qed.

Lemma opens_not_closes t :
  opens_element t = true → startsWith (units "</") t = false.
Proof.
  unfold opens_element. intros H.
  destruct (startsWith (units "</") t); [|done].
  by rewrite andb_false_r in H.
Qed.

Lemma closes_not_opens t :
  startsWith (units "</") t = true → opens_element t = false.
Proof.
  unfold opens_element. intros ->. by rewrite andb_false_r.
Qed.

Lemma opens_cons t : opens_element t = true → ∃ c r, t = c :: r.
Proof. destruct t as [|c r]; [done|by eexists _, _]. Qed.

Lemma closes_cons t : startsWith (units "</") t = true → ∃ c r, t = c :: r.
Proof. destruct t as [|c r]; [done|by eexists _, _]. Qed.

Lemma depth_after_cons t ts d :
  depth_after (t :: ts) d
  = match trim t with
    | [] => depth_after ts d
    | _ :: _ =>
        let d' := if startsWith (units "</") (trim t)
                  then Nat.max 0 (d - 1) else d in
        depth_after ts (if opens_element (trim t) then S d' else d')
    end.
Proof. reflexivity. Qed.

Lemma format_tokens_cons t ts d acc :
  format_tokens (t :: ts) d acc
  = match trim t with
    | [] => format_tokens ts d acc
    | _ :: _ =>
        let d' := if startsWith (units "</") (trim t)
                  then Nat.max 0 (d - 1) else d in
        format_tokens ts (if opens_element (trim t) then S d' else d')
          (acc ++ concat (replicate d' tab) ++ trim t ++ [10%N])
    end.
Proof. reflexivity. Qed.

Lemma depth_after_open o ts d :
  opens_element (trim o) = true →
  depth_after (o :: ts) d = depth_after ts (S d).
Proof.
  intros Ho. rewrite depth_after_cons.
  destruct (opens_cons _ Ho) as (c & r & Hr).
  rewrite (opens_not_closes _ Ho), Ho, Hr. done.
Qed.

Lemma depth_after_close c ts d :
  startsWith (units "</") (trim c) = true →
  depth_after (c :: ts) (S d) = depth_after ts d.
Proof.
  intros Hc. rewrite depth_after_cons.
  destruct (closes_cons _ Hc) as (a & r & Hr).
  rewrite Hc, (closes_not_opens _ Hc), Hr. cbv zeta.
  by replace (Nat.max 0 (S d - 1)) with d by lia.
Qed.

(** Well-nested tokens leave the indentation where it was. *)
Lemma nested_depth ts d : nested ts → depth_after ts d = d.
Proof.
  intros H. revert d.
  induction H as [|t ts Ho Hc _ IH|o body c ts Ho _ IHb Hc _ IH]; intros d.
  - done.
  - rewrite depth_after_cons, Hc, Ho. destruct (trim t); apply IH.
  - rewrite depth_after_open by done.
    rewrite depth_after_app, IHb, depth_after_close by done. apply IH.
Qed.

(** X21: the layout of an element.  For a token that opens an element,
    well-nested tokens behind it and a closing token, [formatHtml]'s loop
    lays out the opening token at the current indentation, the tokens
    between one level deeper, the closing token at the indentation of the
    opening one, and goes on behind it at that indentation. *)
Theorem nested_element_lines_up (o c : list N) (body rest : list (list N))
    (indent : nat) (formatted : list N) :
  opens_element (trim o) = true →
  nested body →
  startsWith (units "</") (trim c) = true →
  format_tokens (o :: body ++ c :: rest) indent formatted
  = format_tokens rest indent
      (format_tokens body (S indent)
         (formatted ++ concat (replicate indent tab) ++ trim o ++ [10%N])
       ++ concat (replicate indent tab) ++ trim c ++ [10%N]).
Proof.
  intros Ho Hbody Hc.
  rewrite (format_tokens_cons o).
  destruct (opens_cons _ Ho) as (a & r & Hr).
  rewrite (opens_not_closes _ Ho), Ho, Hr. cbv zeta. rewrite <- Hr.
  rewrite format_tokens_app, nested_depth by done.
  rewrite (format_tokens_cons c).
  destruct (closes_cons _ Hc) as (a' & r' & Hr').
  rewrite Hc, (closes_not_opens _ Hc), Hr'. cbv zeta. rewrite <- Hr'.
  by replace (Nat.max 0 (S indent - 1)) with indent by lia.
Qed.

(** ** Instances of the properties above *)

Lemma getFilesHash_injective_witness :
  let fs := initialFiles Engine.two_files in
  let gs := [ {| name := "main.luat"; code := "<h1>Hi</h1>" |};
              {| name := "Card.luat"; code := "<p>card</p>" |} ] in
  Forall plain_file fs ∧ Forall plain_file gs
  ∧ getFilesHash fs = getFilesHash gs ∧ fs = gs.
Proof.
  intros fs gs.
  assert (Forall plain_file fs) as Hfs by (repeat constructor).
  assert (Forall plain_file gs) as Hgs by (repeat constructor).
  split; [exact Hfs|]. split; [exact Hgs|]. split; [reflexivity|].
  apply (getFilesHash_injective fs gs Hfs Hgs). reflexivity.
Defined.

(** The first file ends with what looks like the start of the second
    one; the piece is moved over to the second file. *)
Lemma moved_code_taken_for_cached_witness :
  let compiled :=
    {| initialCode := "";
       initialFiles := [ {| name := "main.luat"; code := "<p>a</p>|x.luat:<b>" |};
                         {| name := "x.luat"; code := "c" |} ];
       autoRun := false |} in
  let edited :=
    [ {| name := "main.luat"; code := "<p>a</p>" |};
      {| name := "x.luat"; code := "<b>|x.luat:c" |} ] in
  let c := shown (setFiles edited)
             (Engine.run Engine.healthy
                (Engine.loaded Engine.healthy compiled)) in
  luat (st c) ≠ None
  ∧ lastCompiledRef (st c) = Some (getFilesHash (initialFiles compiled))
  ∧ files (st c) = edited
  ∧ cached (st (Engine.run Engine.healthy c)) = true
  ∧ List.filter is_registry_call (calls_of c (Engine.run Engine.healthy c))
    = [].
Proof.
  intros compiled edited c.
  split; [vm_compute; discriminate|]. split; [vm_compute; reflexivity|].
  split; [vm_compute; reflexivity|].
  pose proof (moved_code_taken_for_cached (Engine.module Engine.healthy)
                Engine.parse Engine.format Engine.clock c
                "main.luat" "x.luat" "<p>a</p>" "<b>" "c") as H.
  vm_compute in H. vm_compute.
  apply H; [discriminate|reflexivity|reflexivity].
Defined.

Lemma pane_after_run_witness :
  let c := Engine.loaded Engine.healthy Engine.hello in
  let c' := Engine.loaded Engine.picky Engine.refused in
  (luat (st c) ≠ None
   ∧ pane Preview_tab (st (Engine.run Engine.healthy c))
     = PreviewFrame "<h1>Hi</h1>")
  ∧ (luat (st c') ≠ None
     ∧ pane Html_tab (st (Engine.run Engine.picky c'))
       = ErrorBox "Failed to add template: main.luat").
Proof.
  intros c c'. split.
  - split; [vm_compute; discriminate|].
    pose proof (pane_after_run (Engine.module Engine.healthy) Engine.parse
                  Engine.format Engine.clock Preview_tab c) as H.
    vm_compute in H. vm_compute. apply H. discriminate.
  - split; [vm_compute; discriminate|].
    pose proof (pane_after_run (Engine.module Engine.picky) Engine.parse
                  Engine.format Engine.clock Html_tab c') as H.
    vm_compute in H. vm_compute. apply H. discriminate.
Defined.

Lemma load_outcome_is_final_witness :
  let s := exec (Engine.module Engine.dead) Engine.parse Engine.format
             Engine.clock
             [Mount Engine.hello_auto; ScriptLoaded 0; ModuleCreated 0]
             (blank (Engine.module Engine.dead) false) in
  let s' := exec (Engine.module Engine.dead) Engine.parse Engine.format
              Engine.clock
              [Settle 0; Mount Engine.hello; ScriptLoaded 0; ModuleCreated 0;
               Settle 1; ClickRun 1] s in
  outcome (page s) = Some (inl "Failed to initialize Luat engine")
  ∧ outcome (page s') = Some (inl "Failed to initialize Luat engine")
  ∧ script_tags (page s') = 1%nat
  ∧ createModule_calls (page s') = 1%nat
  ∧ length (widgets s') = 2%nat.
Proof.
  intros s s'.
  assert (outcome (page s) = Some (inl "Failed to initialize Luat engine"))
    as Hout by (vm_compute; reflexivity).
  split; [exact Hout|].
  pose proof (load_outcome_is_final (Engine.module Engine.dead) Engine.parse
                Engine.format Engine.clock false
                [Mount Engine.hello_auto; ScriptLoaded 0; ModuleCreated 0]
                [Settle 0; Mount Engine.hello; ScriptLoaded 0;
                 ModuleCreated 0; Settle 1; ClickRun 1]
                (inl "Failed to initialize Luat engine") Hout)
    as (H1 & H2 & H3 & _).
  vm_compute in H1, H2, H3. vm_compute.
  split; [exact H1|]. split; [exact H2|]. split; [exact H3|reflexivity].
Defined.

Lemma unmounted_widget_is_left_alone_witness :
  let s := play Engine.healthy false
             [Mount Engine.hello_auto; Unmount 0; ScriptLoaded 0;
              ModuleCreated 0] in
  let s' := exec (Engine.module Engine.healthy) Engine.parse Engine.format
              Engine.clock [Settle 0; ClickRun 0] s in
  (∃ w, widgets s !! 0%nat = Some w ∧ mounted w = false
        ∧ state w = initialState Engine.hello_auto)
  ∧ (∃ w', widgets s' !! 0%nat = Some w'
           ∧ state w' = initialState Engine.hello_auto)
  ∧ page (step (Engine.module Engine.healthy) Engine.parse Engine.format
            Engine.clock (Settle 0) s) = page s.
Proof.
  intros s s'.
  destruct (widgets s !! 0%nat) as [w|] eqn:Hw; [|vm_compute in Hw; discriminate].
  assert (mounted w = false ∧ state w = initialState Engine.hello_auto)
    as [Hm Hst].
  { vm_compute in Hw. injection Hw as <-. by split. }
  split; [by exists w|].
  destruct (unmounted_widget_is_left_alone (Engine.module Engine.healthy)
              Engine.parse Engine.format Engine.clock s 0%nat w
              [Settle 0; ClickRun 0] Hw Hm)
    as [(w' & Hw' & Hst' & _) Hpage].
  split; [|exact Hpage].
  exists w'. split; [exact Hw'|]. by rewrite Hst'.
Defined.

Lemma cache_is_per_widget_witness :
  let s := exec (Engine.module Engine.healthy) Engine.parse Engine.format
             Engine.clock
             [Mount Engine.hello; Mount Engine.two_files; ScriptLoaded 0;
              ModuleCreated 0; Settle 0; Settle 1; ClickRun 1]
             (blank (Engine.module Engine.healthy) false) in
  let s1 := step (Engine.module Engine.healthy) Engine.parse Engine.format
              Engine.clock (ClickRun 0) s in
  let s2 := step (Engine.module Engine.healthy) Engine.parse Engine.format
              Engine.clock (ClickRun 1) s1 in
  (λ w, lastCompiledRef (state w)) <$> widgets s
  = [None; Some "main.luat:<h1>Hi</h1>|Card.luat:<p>card</p>"]
  ∧ (λ inst : Instance (Engine.module Engine.healthy),
       Engine.registry (mem inst)) <$> instances (page s1)
    = [[("main.luat", "<h1>Hi</h1>")]]
  ∧ ∃ wk2, widgets s2 !! 1%nat = Some wk2
           ∧ cached (state wk2) = true
           ∧ files (state wk2) = initialFiles Engine.two_files.
Proof.
  intros s s1 s2.
  split; [vm_compute; reflexivity|]. split; [vm_compute; reflexivity|].
  match eval vm_compute in (widgets s !! 0%nat, widgets s !! 1%nat) with
  | (Some ?wj, Some ?wk) =>
      pose proof (cache_is_per_widget (Engine.module Engine.healthy)
                    Engine.parse Engine.format Engine.clock false
                    [Mount Engine.hello; Mount Engine.two_files;
                     ScriptLoaded 0; ModuleCreated 0; Settle 0; Settle 1;
                     ClickRun 1]
                    0%nat 1%nat wj wk) as H
  end.
  vm_compute in H.
  destruct H as (inst & inst1 & inst2 & status & evs1 & evs2 & wk2 & _ & _
                 & _ & _ & _ & _ & _ & Hk2 & Hcached & Hfiles);
    [discriminate|reflexivity|reflexivity|reflexivity|reflexivity
    |discriminate|discriminate|reflexivity|reflexivity|].
  vm_compute. exists wk2. split; [exact Hk2|]. split; [exact Hcached|].
  exact Hfiles.
Defined.

Lemma edit_back_is_cached_witness :
  let c := Engine.run Engine.healthy
             (Engine.loaded Engine.healthy Engine.hello) in
  let f := {| name := "main.luat"; code := "<h1>Hi</h1>" |} in
  let c' := shown (typeCode (code f)) (shown (typeCode "<h1>Bye</h1>") c) in
  luat (st c) ≠ None ∧ editorView (st c) ≠ None
  ∧ files (st c) !! activeTab (st c) = Some f
  ∧ lastCompiledRef (st c) = Some (getFilesHash (files (st c)))
  ∧ cached (st (Engine.run Engine.healthy c')) = true
  ∧ List.filter is_registry_call (calls_of c' (Engine.run Engine.healthy c'))
    = [].
Proof.
  intros c f c'.
  split; [vm_compute; discriminate|]. split; [vm_compute; discriminate|].
  split; [vm_compute; reflexivity|]. split; [vm_compute; reflexivity|].
  pose proof (edit_back_is_cached (Engine.module Engine.healthy) Engine.parse
                Engine.format Engine.clock c "<h1>Bye</h1>" f) as H.
  vm_compute in H. vm_compute.
  apply H; [discriminate|discriminate|reflexivity|reflexivity].
Defined.


Lemma first_run_on_load_witness :
  let s := exec (Engine.module Engine.healthy) Engine.parse Engine.format
             Engine.clock
             [Mount Engine.hello_auto; ScriptLoaded 0; ModuleCreated 0;
              Settle 0]
             (blank (Engine.module Engine.healthy) false) in
  (luat_init (Engine.module Engine.healthy)
     (boot (Engine.module Engine.healthy))).1 = 0
  ∧ output <$> (state <$> widgets s) = [Some "<h1>Hi</h1>"]
  ∧ clock_reads (page s) = 8%nat.
Proof.
  intros s. split; [reflexivity|].
  destruct (first_run_on_load (Engine.module Engine.healthy) Engine.parse
              Engine.format Engine.clock false Engine.hello_auto eq_refl)
    as (Hw & _ & Ht & _).
  fold s in Hw, Ht. rewrite Hw, Ht. vm_compute. by split.
Defined.

Lemma nested_element_lines_up_witness :
  format_tokens
    [units "<div>"; units "<p>Hi"; units "</p>"; units "<br>";
     units "  </div>"; units "<span>"] 0 []
  = flat [([], units "<div>"); (tab, units "<p>Hi"); (tab, units "</p>");
          (tab, units "<br>"); ([], units "</div>"); ([], units "<span>")].
Proof.
  etransitivity.
  - apply (nested_element_lines_up (units "<div>") (units "  </div>")
             [units "<p>Hi"; units "</p>"; units "<br>"] [units "<span>"]
             0%nat []).
    + reflexivity.
    + apply (nested_element (units "<p>Hi") [] (units "</p>") [units "<br>"]);
        [reflexivity|constructor|reflexivity|].
      apply nested_leaf; [reflexivity|reflexivity|constructor].
    + reflexivity.
  - vm_compute. reflexivity.
Defined.
